(** * Email broadcast: address validation, form handling and the bulk mailer

  A shallow embedding of [webapp/forms.py], [app/services/mailer.py],
  [app/config.py] and of the request handling of [webapp/app.py].

  Python [str] values are modelled as Rocq strings over the code points
  0..255; [set] as [gset], [dict] as [gmap].  Exceptions are explicit results.
  The asyncio event loop that runs [BulkMailer.send_async] is a transition
  system whose steps are the completions of in-flight transport calls. *)

From stdpp Require Import base list gmap sets strings pretty.
From Stdlib Require Import ZArith Lia Ascii Permutation Sorted.

Local Open Scope Z_scope.

(** ** Python string primitives *)

Module Py.

(** Exceptions that the modelled code can raise by itself. *)
Inductive exn :=
| ValueError (msg : string)
| IndexError (msg : string).

Inductive result (A : Type) :=
| Ok (a : A)
| Raise (e : exn).
Arguments Ok {A} a.
Arguments Raise {A} e.

Definition bind {A B} (m : result A) (k : A → result B) : result B :=
  match m with
  | Ok a => k a
  | Raise e => Raise e
  end.

Definition code (c : ascii) : N := N_of_ascii c.

Definition between (lo hi : N) (c : ascii) : bool :=
  ((lo <=? code c) && (code c <=? hi))%N.

(** [str.isspace] on one character: TAB..CR, FS..US, space, NEL, NBSP. *)
Definition isspace (c : ascii) : bool :=
  between 9 13 c || between 28 32 c || (code c =? 133)%N || (code c =? 160)%N.

Definition isdigit (c : ascii) : bool := between 48 57 c.

(** [str.lower] on one character: A-Z and the Latin-1 capitals. *)
Definition lower_char (c : ascii) : ascii :=
  if between 65 90 c || (between 192 222 c && negb (code c =? 215)%N)
  then ascii_of_N (code c + 32)
  else c.

Fixpoint lower (s : string) : string :=
  match s with
  | EmptyString => EmptyString
  | String c s' => String (lower_char c) (lower s')
  end.

Fixpoint lstrip (s : string) : string :=
  match s with
  | EmptyString => EmptyString
  | String c s' => if isspace c then lstrip s' else s
  end.

Fixpoint rstrip (s : string) : string :=
  match s with
  | EmptyString => EmptyString
  | String c s' =>
      match rstrip s' with
      | EmptyString => if isspace c then EmptyString else String c EmptyString
      | r => String c r
      end
  end.

(** [s.strip()] *)
Definition strip (s : string) : string := lstrip (rstrip s).

(** [needle in hay] *)
Fixpoint contains (needle hay : string) : bool :=
  String.prefix needle hay ||
  match hay with
  | EmptyString => false
  | String _ hay' => contains needle hay'
  end.

(** [c in s] for a single character. *)
Fixpoint has_char (c : ascii) (s : string) : bool :=
  match s with
  | EmptyString => false
  | String d s' => bool_decide (d = c) || has_char c s'
  end.

(** [s.split(sep)] for a one-character separator. *)
Fixpoint split (sep : ascii) (s : string) : list string :=
  match s with
  | EmptyString => [EmptyString]
  | String c s' =>
      if bool_decide (c = sep) then EmptyString :: split sep s'
      else match split sep s' with
           | h :: t => String c h :: t
           | [] => [String c EmptyString]
           end
  end.

(** [len(s)] *)
Definition len (s : string) : Z := Z.of_nat (String.length s).

Fixpoint take (n : nat) (s : string) : string :=
  match n, s with
  | S n', String c s' => String c (take n' s')
  | _, _ => EmptyString
  end.

(** [s[:n]]; a negative [n] counts from the end. *)
Definition slice_to (n : Z) (s : string) : string :=
  if 0 <=? n then take (Z.to_nat n) s else take (Z.to_nat (len s + n)) s.

(** [sep.join(parts)] *)
Fixpoint join (sep : string) (parts : list string) : string :=
  match parts with
  | [] => EmptyString
  | [p] => p
  | p :: rest => p +:+ sep +:+ join sep rest
  end.

(** Truthiness of a [str]. *)
Definition truthy (s : string) : bool := negb (bool_decide (s = EmptyString)).

(** [int(s)] for a [str] argument, base 10: surrounding whitespace is
    ignored, one sign is allowed, digits may be grouped by single
    underscores.  Anything else is a [ValueError]. *)
Definition digit_val (c : ascii) : Z := Z.of_N (code c) - 48.

Fixpoint parse_digits (acc : Z) (after_digit : bool) (s : string) : option Z :=
  match s with
  | EmptyString => if after_digit then Some acc else None
  | String c s' =>
      if isdigit c then parse_digits (10 * acc + digit_val c) true s'
      else if bool_decide (c = "_"%char) && after_digit
           then parse_digits acc false s'
           else None
  end.

Definition parse_int (s : string) : option Z :=
  match strip s with
  | String "+" r => parse_digits 0 false r
  | String "-" r => Z.opp <$> parse_digits 0 false r
  | t => parse_digits 0 false t
  end.

Definition int (s : string) : result Z :=
  match parse_int s with
  | Some n => Ok n
  | None => Raise (ValueError "invalid literal for int() with base 10")
  end.

(** [c * n]: a string of [n] copies of [c]. *)
Fixpoint repeat_char (c : ascii) (n : nat) : string :=
  match n with
  | O => EmptyString
  | S n' => String c (repeat_char c n')
  end.

(** [l[i]] *)
Definition index {A} (l : list A) (i : nat) : result A :=
  match l !! i with
  | Some a => Ok a
  | None => Raise (IndexError "list index out of range")
  end.

(** [a, b = l] *)
Definition unpack2 {A} (l : list A) : result (A * A) :=
  match l with
  | [a; b] => Ok (a, b)
  | _ :: _ :: _ :: _ => Raise (ValueError "too many values to unpack (expected 2)")
  | _ => Raise (ValueError "not enough values to unpack (expected 2)")
  end.

(** [re.split(r"[,;\n\s]+", s)]: the pieces of [s] between the maximal runs
  of separator characters, empty first and last pieces included. *)
Definition is_sep (c : ascii) : bool :=
  bool_decide (c = ","%char) || bool_decide (c = ";"%char)
  || bool_decide (c = "010"%char) || isspace c.

Fixpoint split_seps (s : string) : list string :=
  match s with
  | EmptyString => [EmptyString]
  | String c s' =>
      let r := split_seps s' in
      if is_sep c then
        match s' with
        | String c' _ => if is_sep c' then r else EmptyString :: r
        | EmptyString => EmptyString :: r
        end
      else
        match r with
        | h :: t => String c h :: t
        | [] => [String c EmptyString]
        end
  end.

(** [all(p(c) for c in s)] *)
Fixpoint all_chars (p : ascii → bool) (s : string) : bool :=
  match s with
  | EmptyString => true
  | String c s' => p c && all_chars p s'
  end.

(** [s.count(c)] for a single character. *)
Fixpoint count_char (c : ascii) (s : string) : nat :=
  match s with
  | EmptyString => 0%nat
  | String d s' => ((if bool_decide (d = c) then 1 else 0) + count_char c s')%nat
  end.

(** [s.replace(c, "")] for a single character. *)
Fixpoint remove_char (c : ascii) (s : string) : string :=
  match s with
  | EmptyString => EmptyString
  | String d s' => if bool_decide (d = c) then remove_char c s' else String d (remove_char c s')
  end.

(** [str.isalnum] on one character: the letters, digits and numeric
  characters among the code points 0..255. *)
Definition isalnum_char (c : ascii) : bool :=
  between 48 57 c || between 65 90 c || between 97 122 c
  || (code c =? 170)%N || (code c =? 181)%N || (code c =? 186)%N
  || between 178 179 c || (code c =? 185)%N || between 188 190 c
  || between 192 214 c || between 216 246 c || between 248 255 c.

(** [s.isalnum()]: false on the empty string. *)
Definition isalnum (s : string) : bool := truthy s && all_chars isalnum_char s.

(** The line boundaries of [str.splitlines]: LF, VT, FF, CR, FS, GS, RS, NEL. *)
Definition is_linebreak (c : ascii) : bool :=
  between 10 13 c || between 28 30 c || (code c =? 133)%N.

(** [s.splitlines()]: CR LF counts as one boundary; a final boundary opens no
  further line.  [after_cr] tells that the previous character was a CR that
  ended a line. *)
Fixpoint lines_go (after_cr : bool) (s : string) : list string :=
  match s with
  | EmptyString => []
  | String c s' =>
      if after_cr && bool_decide (c = "010"%char) then lines_go false s'
      else if is_linebreak c then
        EmptyString :: lines_go (bool_decide (c = "013"%char)) s'
      else
        match lines_go false s' with
        | h :: t => String c h :: t
        | [] => [String c EmptyString]
        end
  end.

Definition splitlines (s : string) : list string := lines_go false s.

(** [s.split()]: the maximal runs of characters that are not whitespace. *)
Fixpoint split_ws (s : string) : list string :=
  match s with
  | EmptyString => []
  | String c s' =>
      let r := split_ws s' in
      if isspace c then r
      else
        match s' with
        | EmptyString => [String c EmptyString]
        | String c' _ =>
            if isspace c' then String c EmptyString :: r
            else match r with
                 | h :: t => String c h :: t
                 | [] => [String c EmptyString]
                 end
        end
  end.

(** [html.escape(s)] (with [quote=True]): the five characters that are
  special in HTML are replaced by entities. *)
Definition escape_char (c : ascii) : string :=
  if bool_decide (c = "&"%char) then "&amp;"
  else if bool_decide (c = "<"%char) then "&lt;"
  else if bool_decide (c = ">"%char) then "&gt;"
  else if bool_decide (c = "034"%char) then "&quot;"
  else if bool_decide (c = "'"%char) then "&#x27;"
  else String c EmptyString.

Fixpoint html_escape (s : string) : string :=
  match s with
  | EmptyString => EmptyString
  | String c s' => escape_char c +:+ html_escape s'
  end.

(** [l.pop(i)] for an index in range: the element and the rest. *)
Definition pop {A} (l : list A) (i : nat) : result (A * list A) :=
  match l !! i with
  | Some a => Ok (a, firstn i l ++ skipn (S i) l)
  | None => Raise (IndexError "pop index out of range")
  end.

(** [l.insert(i, x)]: an index beyond the end appends. *)
Definition insert_at {A} (l : list A) (i : nat) (x : A) : list A :=
  firstn i l ++ x :: skipn i l.

(** A [for] loop whose body may raise: the loop state after the last
  iteration, or the first exception. *)
Fixpoint for_each {A S} (body : S → A → result S) (st : S) (l : list A) : result S :=
  match l with
  | [] => Ok st
  | x :: l' => bind (body st x) (λ st', for_each body st' l')
  end.

(** A text without line boundaries. *)
Definition break_free (s : string) : bool :=
  all_chars (λ c, negb (is_linebreak c)) s.

End Py.

(** ** Regular expressions

  [re.match] with a pattern anchored at both ends succeeds exactly when the
  subject belongs to the language of the pattern; [Re.accepts] decides that
  language with Brzozowski derivatives. *)

Module Re.

(** An item of a bracket expression. *)
Inductive item :=
| Range (lo hi : ascii)
| OneOf (chars : string).

Definition item_mem (c : ascii) (i : item) : bool :=
  match i with
  | Range lo hi => Py.between (Py.code lo) (Py.code hi) c
  | OneOf chars => Py.has_char c chars
  end.

Definition class_mem (c : ascii) (cls : list item) : bool :=
  existsb (item_mem c) cls.

Inductive regex :=
| Void
| Eps
| Class (cls : list item)          (* [...] *)
| Cat (r1 r2 : regex)              (* r1 r2 *)
| Alt (r1 r2 : regex)              (* r1|r2 *)
| Star (r : regex)                 (* r* *)
| Upto (n : nat) (r : regex).      (* r{0,n} *)

Definition Chr (c : ascii) : regex := Class [OneOf (String c EmptyString)].
Definition Opt (r : regex) : regex := Alt r Eps.      (* r? *)
Definition Plus (r : regex) : regex := Cat r (Star r). (* r+ *)
(** [$]: at the end of the subject, or just before a final newline. *)
Definition Dollar : regex := Opt (Chr "010"%char).

Fixpoint nullable (r : regex) : bool :=
  match r with
  | Void => false
  | Eps => true
  | Class _ => false
  | Cat r1 r2 => nullable r1 && nullable r2
  | Alt r1 r2 => nullable r1 || nullable r2
  | Star _ => true
  | Upto _ _ => true
  end.

Definition cat (r1 r2 : regex) : regex :=
  match r1, r2 with
  | Void, _ => Void
  | _, Void => Void
  | Eps, _ => r2
  | _, _ => Cat r1 r2
  end.

Definition alt (r1 r2 : regex) : regex :=
  match r1, r2 with
  | Void, _ => r2
  | _, Void => r1
  | _, _ => Alt r1 r2
  end.

Fixpoint deriv (c : ascii) (r : regex) : regex :=
  match r with
  | Void => Void
  | Eps => Void
  | Class cls => if class_mem c cls then Eps else Void
  | Cat r1 r2 =>
      alt (cat (deriv c r1) r2) (if nullable r1 then deriv c r2 else Void)
  | Alt r1 r2 => alt (deriv c r1) (deriv c r2)
  | Star r1 => cat (deriv c r1) (Star r1)
  | Upto 0 _ => Void
  | Upto (S n) r1 => cat (deriv c r1) (Upto n r1)
  end.

Fixpoint accepts (r : regex) (s : string) : bool :=
  match s with
  | EmptyString => nullable r
  | String c s' => accepts (deriv c r) s'
  end.

(** The language of a pattern. *)
Inductive matches : regex → string → Prop :=
| MEps : matches Eps EmptyString
| MClass cls c : class_mem c cls = true → matches (Class cls) (String c EmptyString)
| MCat r1 r2 s1 s2 : matches r1 s1 → matches r2 s2 → matches (Cat r1 r2) (s1 +:+ s2)
| MAltL r1 r2 s : matches r1 s → matches (Alt r1 r2) s
| MAltR r1 r2 s : matches r2 s → matches (Alt r1 r2) s
| MStar0 r : matches (Star r) EmptyString
| MStarS r s1 s2 : matches r s1 → matches (Star r) s2 → matches (Star r) (s1 +:+ s2)
| MUpto0 n r : matches (Upto n r) EmptyString
| MUptoS n r s1 s2 :
    matches r s1 → matches (Upto n r) s2 → matches (Upto (S n) r) (s1 +:+ s2).

(** No bracket expression of [r] contains [c]. *)
Fixpoint excludes (c : ascii) (r : regex) : bool :=
  match r with
  | Void | Eps => true
  | Class cls => negb (class_mem c cls)
  | Cat r1 r2 | Alt r1 r2 => excludes c r1 && excludes c r2
  | Star r1 | Upto _ r1 => excludes c r1
  end.

End Re.

(** ** webapp/forms.py *)

Module Forms.

Import Re.

Definition alnum : list item :=
  [Range "a" "z"; Range "A" "Z"; Range "0" "9"].

(** [[a-zA-Z0-9](?:[a-zA-Z0-9-]{0,61}[a-zA-Z0-9])?] *)
Definition label : regex :=
  Cat (Class alnum)
      (Opt (Cat (Upto 61 (Class (alnum ++ [OneOf "-"]))) (Class alnum))).

Definition local_part : regex :=
  Plus (Class (alnum ++ [OneOf ".!#$%&'*+/=?^_`{|}~-"])).

Definition EMAIL_RE : regex :=
  Cat local_part
      (Cat (Chr "@")
           (Cat label (Cat (Star (Cat (Chr ".") label)) Dollar))).

Definition DISPOSABLE_DOMAINS : gset string :=
  {[ "tempmail.com"; "throwaway.email"; "guerrillamail.com";
     "10minutemail.com"; "mailinator.com" ]}.

(** [BaseForm.sanitize_input] *)
Definition sanitize_input (value : string) (max_length : option Z) : string :=
  let sanitized := Py.strip value in
  match max_length with
  | Some n =>
      if negb (n =? 0) && (n <? Py.len sanitized)
      then Py.slice_to n sanitized
      else sanitized
  | None => sanitized
  end.

(** [formdata.get(key, "")] and [bool(formdata.get(key, dflt))] on the
  submitted fields. *)
Definition get_str (formdata : gmap string string) (key : string) : string :=
  default EmptyString (formdata !! key).

Definition get_flag (formdata : gmap string string) (key : string) (dflt : bool) : bool :=
  match formdata !! key with
  | Some v => Py.truthy v
  | None => dflt
  end.

(** *** RecipientForm *)

Record RecipientForm := {
  rf_errors : gmap string string;
  rf_warnings : gmap string string;
  addresses : string;
  block_disposable : bool;
  deduplicate : bool
}.

Definition MAX_ADDRESSES : Z := 1000.
Definition MAX_EMAIL_LENGTH : Z := 254.

(** [RecipientForm.__init__] *)
Definition RecipientForm_init (formdata : option (gmap string string)) : RecipientForm :=
  let formdata := default ∅ formdata in
  {| rf_errors := ∅;
     rf_warnings := ∅;
     addresses := sanitize_input (get_str formdata "addresses") None;
     block_disposable := get_flag formdata "block_disposable" true;
     deduplicate := get_flag formdata "deduplicate" true |}.

(** One iteration of the loop of [flatten_addresses]; the state is the pair
  of the local variables [addresses] and [seen]. *)
Definition flatten_step (dedup : bool) (st : list string * gset string)
    (token : string) : list string * gset string :=
  let token := Py.lower (Py.strip token) in
  if negb (Py.truthy token) then st
  else if dedup then
    if bool_decide (token ∈ st.2) then st
    else (st.1 ++ [token], {[token]} ∪ st.2)
  else (st.1 ++ [token], st.2).

(** [RecipientForm.flatten_addresses] *)
Definition flatten_addresses (self : RecipientForm) : list string :=
  (foldl (flatten_step (deduplicate self)) ([], ∅) (Py.split_seps (addresses self))).1.

(** The disposable-domain check of [validate_email]: [Some r] when it
  returns [r] early. *)
Definition check_disposable (self : RecipientForm) (email : string)
    : Py.result (option (bool * option string)) :=
  if block_disposable self then
    Py.bind (Py.index (Py.split "@" email) 1) (λ d,
      let domain := Py.lower d in
      if bool_decide (domain ∈ DISPOSABLE_DOMAINS)
      then Py.Ok (Some (false, Some ("Disposable email domain not allowed: " +:+ domain)))
      else Py.Ok None)
  else Py.Ok None.

(** [RecipientForm.validate_email] *)
Definition validate_email (self : RecipientForm) (email : string)
    : Py.result (bool * option string) :=
  if MAX_EMAIL_LENGTH <? Py.len email then
    Py.Ok (false, Some ("Email too long (max " +:+ pretty MAX_EMAIL_LENGTH +:+ " chars)"))
  else if negb (accepts EMAIL_RE email) then
    Py.Ok (false, Some "Invalid email format")
  else
    Py.bind (check_disposable self email) (λ early,
      match early with
      | Some r => Py.Ok r
      | None =>
          if Py.contains ".." email then
            Py.Ok (false, Some "Consecutive dots not allowed")
          else
            Py.bind (Py.unpack2 (Py.split "@" email)) (λ '(local, domain),
              if negb (Py.truthy local) || negb (Py.truthy domain) then
                Py.Ok (false, Some "Missing local or domain part")
              else if negb (Py.has_char "." domain) then
                Py.Ok (false, Some "Domain must have a TLD")
              else Py.Ok (true, None))
      end).

(** An address of 255 characters that [EMAIL_RE] accepts. *)
Definition long_address : string := Py.repeat_char "a" 249 +:+ "@b.com".

(** [validate_email_address] *)
Definition validate_email_address (email : string) : bool :=
  accepts EMAIL_RE (Py.lower (Py.strip email)).

(** One iteration of the loop of [parse_email_list]. *)
Definition parse_step (dedup : bool) (st : list string * gset string)
    (token : string) : list string * gset string :=
  let email := Py.lower (Py.strip token) in
  if Py.truthy email && validate_email_address email then
    if negb dedup || negb (bool_decide (email ∈ st.2)) then
      (st.1 ++ [email], if dedup then {[email]} ∪ st.2 else st.2)
    else st
  else st.

(** [parse_email_list] *)
Definition parse_email_list (text : string) (dedup : bool) : list string :=
  (foldl (parse_step dedup) ([], ∅) (Py.split_seps text)).1.

(** *** BroadcastForm *)

Record BroadcastForm := {
  errors : gmap string string;
  warnings : gmap string string;
  subject : string;
  body : string;
  concurrency_raw : string;
  concurrency : Z;
  send_test : bool;
  test_email : string;
  schedule_send : bool
}.

Definition MIN_SUBJECT_LENGTH : Z := 3.
Definition MAX_SUBJECT_LENGTH : Z := 200.
Definition MIN_BODY_LENGTH : Z := 10.
Definition MAX_BODY_LENGTH : Z := 50000.
Definition MIN_CONCURRENCY : Z := 1.
Definition MAX_CONCURRENCY : Z := 500.
Definition DEFAULT_CONCURRENCY : Z := 50.

(** [BroadcastForm.__init__] *)
Definition BroadcastForm_init (formdata : option (gmap string string)) : BroadcastForm :=
  let formdata := default ∅ formdata in
  let raw := sanitize_input (get_str formdata "concurrency") (Some 10) in
  {| errors := ∅;
     warnings := ∅;
     subject := sanitize_input (get_str formdata "subject") (Some MAX_SUBJECT_LENGTH);
     body := sanitize_input (get_str formdata "body") (Some MAX_BODY_LENGTH);
     concurrency_raw := if Py.truthy raw then raw else pretty DEFAULT_CONCURRENCY;
     concurrency := DEFAULT_CONCURRENCY;
     send_test := get_flag formdata "send_test" false;
     test_email := sanitize_input (get_str formdata "test_email") (Some 254);
     schedule_send := get_flag formdata "schedule_send" false |}.

(** [BaseForm.add_error], [BaseForm.add_warning] and the assignment to
  [self.concurrency]. *)
Definition add_error (field message : string) (self : BroadcastForm) : BroadcastForm :=
  {| errors := <[field := message]> (errors self); warnings := warnings self;
     subject := subject self; body := body self;
     concurrency_raw := concurrency_raw self; concurrency := concurrency self;
     send_test := send_test self; test_email := test_email self;
     schedule_send := schedule_send self |}.

Definition add_warning (field message : string) (self : BroadcastForm) : BroadcastForm :=
  {| errors := errors self; warnings := <[field := message]> (warnings self);
     subject := subject self; body := body self;
     concurrency_raw := concurrency_raw self; concurrency := concurrency self;
     send_test := send_test self; test_email := test_email self;
     schedule_send := schedule_send self |}.

Definition set_concurrency (v : Z) (self : BroadcastForm) : BroadcastForm :=
  {| errors := errors self; warnings := warnings self;
     subject := subject self; body := body self;
     concurrency_raw := concurrency_raw self; concurrency := v;
     send_test := send_test self; test_email := test_email self;
     schedule_send := schedule_send self |}.

(** [BaseForm.has_errors] *)
Definition has_errors (self : BroadcastForm) : bool :=
  negb (bool_decide (errors self = ∅)).

Definition spam_words : list string :=
  ["free"; "urgent"; "act now"; "limited time"; "winner"; "congratulations"].

(** The blocks of [BroadcastForm.validate], in source order. *)
Definition validate_subject (self : BroadcastForm) : BroadcastForm :=
  let self :=
    if negb (Py.truthy (subject self)) then
      add_error "subject" "Subject is required." self
    else if Py.len (subject self) <? MIN_SUBJECT_LENGTH then
      add_error "subject"
        ("Subject must be at least " +:+ pretty MIN_SUBJECT_LENGTH +:+ " characters.") self
    else if MAX_SUBJECT_LENGTH <? Py.len (subject self) then
      add_error "subject"
        ("Subject must be less than " +:+ pretty MAX_SUBJECT_LENGTH +:+ " characters.") self
    else self in
  if Py.truthy (subject self) then
    let subject_lower := Py.lower (subject self) in
    let found_spam := filter (λ word, Py.contains word subject_lower = true) spam_words in
    match found_spam with
    | [] => self
    | _ => add_warning "subject"
             ("Subject contains potential spam triggers: " +:+ Py.join ", " found_spam) self
    end
  else self.

Definition validate_body (self : BroadcastForm) : BroadcastForm :=
  let self :=
    if negb (Py.truthy (body self)) then
      add_error "body" "Message body is required." self
    else if Py.len (body self) <? MIN_BODY_LENGTH then
      add_error "body"
        ("Message must be at least " +:+ pretty MIN_BODY_LENGTH +:+ " characters.") self
    else if MAX_BODY_LENGTH <? Py.len (body self) then
      add_error "body"
        ("Message must be less than " +:+ pretty MAX_BODY_LENGTH +:+ " characters.") self
    else self in
  if Py.truthy (body self) && negb (Py.contains "unsubscribe" (Py.lower (body self))) then
    add_warning "body"
      "Consider adding an unsubscribe link to comply with email regulations" self
  else self.

(** The [try]/[except ValueError] block on the concurrency field. *)
Definition validate_concurrency (self : BroadcastForm) : Py.result BroadcastForm :=
  match Py.int (concurrency_raw self) with
  | Py.Ok concurrency_val =>
      if concurrency_val <? MIN_CONCURRENCY then
        Py.Ok (add_warning "concurrency"
                 ("Concurrency set to minimum value: " +:+ pretty MIN_CONCURRENCY)
                 (set_concurrency MIN_CONCURRENCY self))
      else if MAX_CONCURRENCY <? concurrency_val then
        Py.Ok (add_warning "concurrency"
                 ("Concurrency set to maximum value: " +:+ pretty MAX_CONCURRENCY)
                 (set_concurrency MAX_CONCURRENCY self))
      else Py.Ok (set_concurrency concurrency_val self)
  | Py.Raise (Py.ValueError _) =>
      Py.Ok (set_concurrency DEFAULT_CONCURRENCY
               (add_error "concurrency" "Concurrency must be a valid integer." self))
  | Py.Raise e => Py.Raise e
  end.

Definition validate_test_email (self : BroadcastForm) : BroadcastForm :=
  if send_test self then
    if negb (Py.truthy (test_email self)) then
      add_error "test_email" "Test email address is required for test mode." self
    else if negb (accepts EMAIL_RE (test_email self)) then
      add_error "test_email" "Invalid test email address format." self
    else self
  else self.

(** [BroadcastForm.validate]: the returned flag and the form as it is left. *)
Definition validate (self : BroadcastForm) : Py.result (bool * BroadcastForm) :=
  Py.bind (validate_concurrency (validate_body (validate_subject self))) (λ self,
    let self := validate_test_email self in
    Py.Ok (negb (has_errors self), self)).

(** *** LoginForm *)

Record LoginForm := {
  lf_errors : gmap string string;
  lf_warnings : gmap string string;
  username : string;
  password : string;
  remember_me : bool
}.

Definition MAX_USERNAME_LENGTH : Z := 100.
Definition MAX_PASSWORD_LENGTH : Z := 128.
Definition MIN_PASSWORD_LENGTH : Z := 6.

(** [LoginForm.__init__] *)
Definition LoginForm_init (formdata : option (gmap string string)) : LoginForm :=
  let formdata := default ∅ formdata in
  {| lf_errors := ∅;
     lf_warnings := ∅;
     username := sanitize_input (get_str formdata "username") (Some MAX_USERNAME_LENGTH);
     password := sanitize_input (get_str formdata "password") (Some MAX_PASSWORD_LENGTH);
     remember_me := get_flag formdata "remember_me" false |}.

Definition lf_add_error (field message : string) (self : LoginForm) : LoginForm :=
  {| lf_errors := <[field := message]> (lf_errors self);
     lf_warnings := lf_warnings self;
     username := username self; password := password self;
     remember_me := remember_me self |}.

Definition lf_has_errors (self : LoginForm) : bool :=
  negb (bool_decide (lf_errors self = ∅)).

(** [LoginForm.validate]: the returned flag and the form as it is left. *)
Definition LoginForm_validate (self : LoginForm) : bool * LoginForm :=
  let self :=
    if negb (Py.truthy (username self)) then
      lf_add_error "username" "Username is required." self
    else if Py.len (username self) <? 3 then
      lf_add_error "username" "Username must be at least 3 characters." self
    else if MAX_USERNAME_LENGTH <? Py.len (username self) then
      lf_add_error "username"
        ("Username must be less than " +:+ pretty MAX_USERNAME_LENGTH +:+ " characters.") self
    else self in
  let self :=
    if negb (Py.truthy (password self)) then
      lf_add_error "password" "Password is required." self
    else if Py.len (password self) <? MIN_PASSWORD_LENGTH then
      lf_add_error "password"
        ("Password must be at least " +:+ pretty MIN_PASSWORD_LENGTH +:+ " characters.") self
    else if MAX_PASSWORD_LENGTH <? Py.len (password self) then
      lf_add_error "password"
        ("Password must be less than " +:+ pretty MAX_PASSWORD_LENGTH +:+ " characters.") self
    else self in
  (negb (lf_has_errors self), self).

(** *** RecipientForm, continued *)

Definition rf_add_error (field message : string) (self : RecipientForm) : RecipientForm :=
  {| rf_errors := <[field := message]> (rf_errors self);
     rf_warnings := rf_warnings self;
     addresses := addresses self;
     block_disposable := block_disposable self;
     deduplicate := deduplicate self |}.

Definition rf_add_warning (field message : string) (self : RecipientForm) : RecipientForm :=
  {| rf_errors := rf_errors self;
     rf_warnings := <[field := message]> (rf_warnings self);
     addresses := addresses self;
     block_disposable := block_disposable self;
     deduplicate := deduplicate self |}.

Definition rf_has_errors (self : RecipientForm) : bool :=
  negb (bool_decide (rf_errors self = ∅)).

(** [any(d in addr for d in DISPOSABLE_DOMAINS)] *)
Definition mentions_disposable (addr : string) : bool :=
  existsb (λ d, Py.contains d addr) (elements DISPOSABLE_DOMAINS).

(** One iteration of the checking loop of [RecipientForm.validate]; the state
  is the pair of [invalid_addresses] and [warning_addresses]. *)
Definition check_step (self : RecipientForm) (st : list string * list string)
    (addr : string) : Py.result (list string * list string) :=
  Py.bind (validate_email self addr) (λ '(is_valid, error_msg),
    if negb is_valid then
      Py.Ok (st.1 ++ [addr +:+ " (" +:+ default "None" error_msg +:+ ")"], st.2)
    else if block_disposable self && mentions_disposable addr then
      Py.Ok (st.1, st.2 ++ [addr])
    else Py.Ok st).

(** The report of [RecipientForm.validate] once the loop is over. *)
Definition report_invalid (invalid_addresses warning_addresses : list string)
    (self : RecipientForm) : RecipientForm :=
  let self :=
    match invalid_addresses with
    | [] => self
    | _ =>
        let displayed := take 5 invalid_addresses in
        let more_count := Z.of_nat (length invalid_addresses) - 5 in
        let error_msg := "Invalid addresses: " +:+ Py.join "; " displayed in
        let error_msg :=
          if 0 <? more_count
          then error_msg +:+ " (and " +:+ pretty more_count +:+ " more)"
          else error_msg in
        rf_add_error "addresses" error_msg self
    end in
  match warning_addresses, invalid_addresses with
  | _ :: _, [] =>
      rf_add_warning "addresses"
        ("Warning: " +:+ pretty (length warning_addresses)
         +:+ " disposable email(s) detected") self
  | _, _ => self
  end.

(** [RecipientForm.validate]: the returned flag and the form as it is left. *)
Definition RecipientForm_validate (self : RecipientForm)
    : Py.result (bool * RecipientForm) :=
  if negb (Py.truthy (addresses self)) then
    Py.Ok (false, rf_add_error "addresses" "Please provide at least one recipient." self)
  else
    let cleaned := flatten_addresses self in
    match cleaned with
    | [] => Py.Ok (false, rf_add_error "addresses" "No valid email addresses found." self)
    | _ =>
        if MAX_ADDRESSES <? Z.of_nat (length cleaned) then
          Py.Ok (false,
                 rf_add_error "addresses"
                   ("Too many addresses. Maximum allowed: " +:+ pretty MAX_ADDRESSES
                    +:+ ", provided: " +:+ pretty (length cleaned)) self)
        else
          Py.bind (Py.for_each (check_step self) ([], []) cleaned) (λ st,
            let self := report_invalid st.1 st.2 self in
            Py.Ok (negb (rf_has_errors self), self))
    end.

(** One iteration of the loop of [get_valid_addresses]. *)
Definition valid_step (self : RecipientForm) (valid : list string) (addr : string)
    : Py.result (list string) :=
  Py.bind (validate_email self addr) (λ '(is_valid, _),
    Py.Ok (if is_valid then valid ++ [addr] else valid)).

(** [RecipientForm.get_valid_addresses] *)
Definition get_valid_addresses (self : RecipientForm) : Py.result (list string) :=
  Py.for_each (valid_step self) [] (flatten_addresses self).

(** *** RecipientForm.get_statistics *)

(** [domains[domain] = domains.get(domain, 0) + 1] on a dict, kept as the
  list of its items in insertion order. *)
Fixpoint bump (domain : string) (domains : list (string * Z)) : list (string * Z) :=
  match domains with
  | [] => [(domain, 1)]
  | (d, n) :: rest =>
      if bool_decide (d = domain) then (d, n + 1) :: rest
      else (d, n) :: bump domain rest
  end.

(** [sorted(items, key=lambda x: x[1], reverse=True)]: the sort is stable,
  items with the same count stay in their order. *)
Fixpoint insert_desc (x : string * Z) (l : list (string * Z)) : list (string * Z) :=
  match l with
  | [] => [x]
  | y :: l' => if y.2 <=? x.2 then x :: y :: l' else y :: insert_desc x l'
  end.

Definition sorted_desc (l : list (string * Z)) : list (string * Z) :=
  foldr insert_desc [] l.

Record recipient_statistics := {
  total : Z;
  valid : Z;
  invalid : Z;
  unique_domains : Z;
  top_domains : list (string * Z)
}.

(** One iteration of the loop over [valid]. *)
Definition domain_step (domains : list (string * Z)) (addr : string)
    : Py.result (list (string * Z)) :=
  Py.bind (Py.index (Py.split "@" addr) 1) (λ domain, Py.Ok (bump domain domains)).

Definition RecipientForm_get_statistics (self : RecipientForm)
    : Py.result recipient_statistics :=
  let cleaned := flatten_addresses self in
  Py.bind (get_valid_addresses self) (λ valid_addresses,
    Py.bind (Py.for_each domain_step [] valid_addresses) (λ domains,
      Py.Ok {| total := Z.of_nat (length cleaned);
               valid := Z.of_nat (length valid_addresses);
               invalid := Z.of_nat (length cleaned) - Z.of_nat (length valid_addresses);
               unique_domains := Z.of_nat (length domains);
               top_domains := firstn 5 (sorted_desc domains) |})).

(** The sum of the counts of a list of items. *)
Definition count_sum (l : list (string * Z)) : Z := foldr Z.add 0 (snd <$> l).

(** *** BroadcastForm, continued *)

(** [BroadcastForm.get_word_count] and [get_character_count] *)
Definition get_word_count (self : BroadcastForm) : Z :=
  Z.of_nat (length (Py.split_ws (body self))).

Definition get_character_count (self : BroadcastForm) : Z := Py.len (body self).

(** [BroadcastForm.get_statistics] *)
Record broadcast_statistics := {
  subject_length : Z;
  body_length : Z;
  word_count : Z;
  has_html : bool;
  has_links : bool;
  stat_concurrency : Z
}.

Definition BroadcastForm_get_statistics (self : BroadcastForm) : broadcast_statistics :=
  {| subject_length := Py.len (subject self);
     body_length := Py.len (body self);
     word_count := get_word_count self;
     has_html := Py.contains "<" (body self) && Py.contains ">" (body self);
     has_links := Py.contains "http://" (body self) || Py.contains "https://" (body self);
     stat_concurrency := concurrency self |}.

(** *** SettingsForm *)

Record SettingsForm := {
  sf_errors : gmap string string;
  sf_warnings : gmap string string;
  smtp_host : string;
  smtp_port : string;
  smtp_username : string;
  smtp_password : string;
  use_tls : bool;
  use_ssl : bool;
  timeout : string
}.

(** [SettingsForm.__init__]; the password is taken as it is. *)
Definition SettingsForm_init (formdata : option (gmap string string)) : SettingsForm :=
  let formdata := default ∅ formdata in
  {| sf_errors := ∅;
     sf_warnings := ∅;
     smtp_host := sanitize_input (get_str formdata "smtp_host") (Some 255);
     smtp_port := sanitize_input (get_str formdata "smtp_port") (Some 10);
     smtp_username := sanitize_input (get_str formdata "smtp_username") (Some 255);
     smtp_password := get_str formdata "smtp_password";
     use_tls := get_flag formdata "use_tls" true;
     use_ssl := get_flag formdata "use_ssl" false;
     timeout := sanitize_input (default "30" (formdata !! "timeout")) (Some 10) |}.

Definition sf_add_error (field message : string) (self : SettingsForm) : SettingsForm :=
  {| sf_errors := <[field := message]> (sf_errors self);
     sf_warnings := sf_warnings self;
     smtp_host := smtp_host self; smtp_port := smtp_port self;
     smtp_username := smtp_username self; smtp_password := smtp_password self;
     use_tls := use_tls self; use_ssl := use_ssl self; timeout := timeout self |}.

Definition sf_add_warning (field message : string) (self : SettingsForm) : SettingsForm :=
  {| sf_errors := sf_errors self;
     sf_warnings := <[field := message]> (sf_warnings self);
     smtp_host := smtp_host self; smtp_port := smtp_port self;
     smtp_username := smtp_username self; smtp_password := smtp_password self;
     use_tls := use_tls self; use_ssl := use_ssl self; timeout := timeout self |}.

Definition sf_has_errors (self : SettingsForm) : bool :=
  negb (bool_decide (sf_errors self = ∅)).

(** A [try: v = int(text); if v < lo or v > hi: error] / [except ValueError]
  block of [SettingsForm.validate]. *)
Definition check_int_field (text field : string) (lo hi : Z)
    (range_msg parse_msg : string) (self : SettingsForm) : Py.result SettingsForm :=
  if Py.truthy text then
    match Py.int text with
    | Py.Ok v =>
        if (v <? lo) || (hi <? v)
        then Py.Ok (sf_add_error field range_msg self)
        else Py.Ok self
    | Py.Raise (Py.ValueError _) => Py.Ok (sf_add_error field parse_msg self)
    | Py.Raise e => Py.Raise e
    end
  else Py.Ok self.

(** [SettingsForm.validate] *)
Definition SettingsForm_validate (self : SettingsForm) : Py.result (bool * SettingsForm) :=
  let self :=
    if Py.truthy (smtp_host self)
       && negb (Py.isalnum (Py.remove_char "-" (Py.remove_char "." (smtp_host self))))
    then sf_add_error "smtp_host" "Invalid SMTP host format." self
    else self in
  Py.bind (check_int_field (smtp_port self) "smtp_port" 1 65535
             "Port must be between 1 and 65535." "Port must be a valid integer." self)
    (λ self,
      let self :=
        if Py.truthy (smtp_username self) && negb (accepts EMAIL_RE (smtp_username self))
        then sf_add_warning "smtp_username"
               "SMTP username should typically be an email address." self
        else self in
      let self :=
        if use_tls self && use_ssl self
        then sf_add_error "ssl_tls"
               "Cannot use both TLS and SSL simultaneously. Choose one." self
        else self in
      Py.bind (check_int_field (timeout self) "timeout" 5 300
                 "Timeout must be between 5 and 300 seconds."
                 "Timeout must be a valid integer." self)
        (λ self, Py.Ok (negb (sf_has_errors self), self))).

(** [escape_html] *)
Definition escape_html (text : string) : string := Py.html_escape text.

(** Whether [validate_email] accepts an address. *)
Definition accepts_email (self : RecipientForm) (email : string) : bool :=
  match validate_email self email with
  | Py.Ok (true, _) => true
  | _ => false
  end.

(** An entry as [flatten_addresses] produces them: it holds none of the
  separators [,;] newline or whitespace and is not empty. *)
Definition sep_free (t : string) : bool := Py.all_chars (λ c, negb (Py.is_sep c)) t.

Definition canonical (t : string) : Prop :=
  sep_free t = true ∧ t ≠ EmptyString.

(** Two forms agree on everything but errors and warnings. *)
Definition same_input (f g : BroadcastForm) : Prop :=
  subject g = subject f ∧ body g = body f ∧
  concurrency_raw g = concurrency_raw f ∧ concurrency g = concurrency f ∧
  send_test g = send_test f ∧ test_email g = test_email f.

(** What [SettingsForm.validate] asks of the host and of a numeric field. *)
Definition host_ok (host : string) : bool :=
  negb (Py.truthy host)
  || Py.isalnum (Py.remove_char "-" (Py.remove_char "." host)).

Definition int_field_ok (text : string) (lo hi : Z) : bool :=
  negb (Py.truthy text)
  || match Py.parse_int text with
     | Some v => (lo <=? v) && (v <=? hi)
     | None => false
     end.

Definition same_settings (f g : SettingsForm) : Prop :=
  smtp_host g = smtp_host f ∧ smtp_port g = smtp_port f ∧
  smtp_username g = smtp_username f ∧ smtp_password g = smtp_password f ∧
  use_tls g = use_tls f ∧ use_ssl g = use_ssl f ∧ timeout g = timeout f.

(** The characters that [escape_html] replaces, and those that may not show
  up in its result. *)
Definition html_special (c : ascii) : bool :=
  bool_decide (c = "&"%char) || bool_decide (c = "<"%char)
  || bool_decide (c = ">"%char) || bool_decide (c = "034"%char)
  || bool_decide (c = "'"%char).

Definition html_markup (c : ascii) : bool :=
  bool_decide (c = "<"%char) || bool_decide (c = ">"%char)
  || bool_decide (c = "034"%char) || bool_decide (c = "'"%char).

(** The normal form under which tokens are compared. *)
Definition normalize (token : string) : string := Py.lower (Py.strip token).

(** Deduplication as the specification words it: the first occurrence of
  every entry is kept, later ones are dropped, the order is unchanged. *)
Fixpoint keep_first (l : list string) : list string :=
  match l with
  | [] => []
  | x :: l' => x :: filter (λ y, y ≠ x) (keep_first l')
  end.

(** The loop body shared by [flatten_addresses] and [parse_email_list] when
  deduplication is on: tokens that pass [keep] are added unless seen. *)
Definition dedup_step (keep : string → bool) (st : list string * gset string)
    (token : string) : list string * gset string :=
  let t := normalize token in
  if keep t then
    if bool_decide (t ∈ st.2) then st else (st.1 ++ [t], {[t]} ∪ st.2)
  else st.

(** The concurrency the specification words for a field that parses as [n]:
  [n] brought into the range 1..500. *)
Definition clamp_concurrency (n : Z) : Z :=
  if n <? 1 then 1 else if 500 <? n then 500 else n.

End Forms.

(** ** app/config.py *)

Module Config.

(** [DEFAULT_CONCURRENCY = int(os.getenv("DEFAULT_CONCURRENCY", "50"))],
  read from the process environment [env] when the module is loaded. *)
Definition DEFAULT_CONCURRENCY (env : gmap string string) : Py.result Z :=
  Py.int (default "50" (env !! "DEFAULT_CONCURRENCY")).

Record SMTPSettings := {
  server : string;
  port : Z;
  username : string;
  password : string;
  sender_name : string
}.

(** The field defaults of [SMTPSettings], read from the environment [env]
  when the class is defined; [SMTPSettings()] uses them. *)
Definition SMTPSettings_env (env : gmap string string) : Py.result SMTPSettings :=
  Py.bind (Py.int (default "587" (env !! "SMTP_PORT"))) (λ port,
    Py.Ok {| server := default "smtp.gmail.com" (env !! "SMTP_SERVER");
             port := port;
             username := default "your_email@gmail.com" (env !! "SMTP_USERNAME");
             password := default "your_app_password" (env !! "SMTP_PASSWORD");
             sender_name := default "Broadcast Studio" (env !! "SMTP_SENDER_NAME") |}).

(** The two tests of [__post_init__], which the compose route repeats. *)
Definition username_placeholder (self : SMTPSettings) : bool :=
  Py.contains "your_email" (Py.lower (username self))
  || negb (Py.contains "@" (username self)).

Definition password_placeholder (self : SMTPSettings) : bool :=
  Py.contains "your_app_password" (Py.lower (password self))
  || (Py.len (password self) <? 16).

(** [SMTPSettings.__post_init__]: the warnings issued. *)
Definition post_init (self : SMTPSettings) : list string :=
  (if username_placeholder self
   then ["SMTP_USERNAME appears to be a placeholder: '" +:+ username self +:+ "'. "
         +:+ "Please update it in your .env file with your actual Gmail address."]
   else [])
  ++ (if password_placeholder self
      then ["SMTP_PASSWORD appears to be a placeholder or invalid. "
            +:+ "Please update it in your .env file with a Gmail App Password (16 characters). "
            +:+ "Get one at: https://myaccount.google.com/apppasswords"]
      else []).

End Config.

(** ** app/core/message.py *)

Module Message.

Record BroadcastMessage := {
  subject : string;
  body_text : string;
  body_html : string
}.

End Message.

(** ** app/services/mailer.py *)

Module Mailer.

(** *** Logging: each call on [logger] appends one record. *)

Inductive level := INFO | WARNING | ERROR.

Record log_record := {
  log_level : level;
  log_fmt : string;
  log_args : list string
}.

Definition info (fmt : string) (args : list string) : log_record :=
  {| log_level := INFO; log_fmt := fmt; log_args := args |}.
Definition warning (fmt : string) (args : list string) : log_record :=
  {| log_level := WARNING; log_fmt := fmt; log_args := args |}.
Definition error (fmt : string) (args : list string) : log_record :=
  {| log_level := ERROR; log_fmt := fmt; log_args := args |}.

(** *** validate_recipients: the returned list and the records logged. *)

(** [logger.warning("Skipped invalid address: %s", address)] *)
Definition skipped (address : string) : log_record :=
  warning "Skipped invalid address: %s" [address].

Definition validate_recipients_step (st : list string * list log_record)
    (address : string) : list string * list log_record :=
  let trimmed := Py.strip address in
  if Py.contains "@" trimmed then (st.1 ++ [trimmed], st.2)
  else (st.1, st.2 ++ [skipped address]).

Definition validate_recipients (addresses : list string)
    : list string * list log_record :=
  foldl validate_recipients_step ([], []) addresses.

(** *** BulkMailer *)

Record EmailMessage := {
  Subject : string;
  From : string;
  To : string;
  content : string;
  alternative : string
}.

(** [BulkMailer._build_message] *)
Definition build_message (settings : Config.SMTPSettings)
    (message : Message.BroadcastMessage) (recipient : string) : EmailMessage :=
  {| Subject := Message.subject message;
     From := Config.sender_name settings +:+ " <" +:+ Config.username settings +:+ ">";
     To := recipient;
     content := Message.body_text message;
     alternative := Message.body_html message |}.

(** The behaviour of the SMTP transport: what [aiosmtplib.send] does with the
  message handed over by the worker at a given position: [None] when it
  returns, [Some msg] when it raises an exception [e] with [str(e) = msg]. *)
Definition transport := nat → EmailMessage → option string.

(** The test of the [except] branch of [_send_one]. *)
Definition is_auth_failure (error_msg : string) : bool :=
  Py.contains "535" error_msg || Py.contains "BadCredentials" error_msg
  || Py.contains "not accepted" error_msg.

Definition auth_guidance : log_record :=
  error ("SMTP Authentication failed. Please check your SMTP credentials in .env file. "
         +:+ "For Gmail, you need an App Password (not your regular password). "
         +:+ "Get one at: https://myaccount.google.com/apppasswords") [].

(** [BulkMailer._send_one] once [aiosmtplib.send] has answered with [answer]:
  the records logged, and the exception that leaves the coroutine, if any. *)
Definition send_one (answer : option string) (recipient : string)
    : list log_record * option string :=
  match answer with
  | None => ([info "Delivered to %s" [recipient]], None)
  | Some error_msg =>
      (if is_auth_failure error_msg then [auth_guidance] else [], Some error_msg)
  end.

(** *** The event loop running send_async *)

(** A worker coroutine is blocked on the semaphore, awaits the transport, or
  is finished, normally or with an exception. *)
Inductive wstate :=
| Waiting
| Sending
| Done
| Failed (e : string).

Record worker := {
  address : string;
  state : wstate
}.

(** What the caller awaiting [send_async] has observed so far. *)
Inductive outcome :=
| Pending
| Returned                (* [send_async] returned [None] *)
| Raised (e : string).    (* [send_async] raised *)

Record loop := {
  workers : list worker;          (* one per recipient, in gather order *)
  sem : nat;                      (* the value of the semaphore *)
  calls : list EmailMessage;      (* messages handed to the transport *)
  progress : list string;         (* arguments of the progress_hook calls *)
  log : list log_record;
  result : outcome
}.

(** [limit = max(1, concurrency or DEFAULT_CONCURRENCY)] *)
Definition effective_limit (default_concurrency : Z) (concurrency : option Z) : Z :=
  Z.max 1 (match concurrency with
           | Some c => if c =? 0 then default_concurrency else c
           | None => default_concurrency
           end).

(** Workers blocked in [semaphore.acquire] proceed in FIFO order while the
  value is positive; each one that proceeds builds its message and calls the
  transport.  Returns the new value, the workers and the calls started. *)
Fixpoint wake (build : string → EmailMessage) (value : nat) (ws : list worker)
    : nat * list worker * list EmailMessage :=
  match ws with
  | [] => (value, [], [])
  | w :: ws' =>
      match state w, value with
      | Waiting, S v =>
          let '(v', r, started) := wake build v ws' in
          (v', {| address := address w; state := Sending |} :: r,
           build (address w) :: started)
      | _, _ =>
          let '(v', r, started) := wake build value ws' in
          (v', w :: r, started)
      end
  end.

Definition is_done (w : worker) : bool :=
  match state w with Done => true | _ => false end.

Definition is_sending (w : worker) : bool :=
  match state w with Sending => true | _ => false end.

Definition is_waiting (w : worker) : bool :=
  match state w with Waiting => true | _ => false end.

Definition is_failed (w : worker) : bool :=
  match state w with Failed _ => true | _ => false end.

Definition is_terminal (w : worker) : bool := is_done w || is_failed w.

Definition completed : log_record := info "Broadcast completed." [].

Section Run.

Variable settings : Config.SMTPSettings.
Variable default_concurrency : Z.
Variable message : Message.BroadcastMessage.
Variable tr : transport.
Variable progress_hook : bool.    (* whether a hook was supplied *)

(** [BulkMailer.send_async] up to its [await asyncio.gather(...)]: every
  worker has been created and has tried to take the semaphore.  With no
  recipient the gather is already finished and the call returns. *)
Definition send_async (recipients : list string) (concurrency : option Z) : loop :=
  let limit := effective_limit default_concurrency concurrency in
  let starting :=
    info "Starting broadcast to %d recipients (concurrency=%d)"
         [pretty (length recipients); pretty limit] in
  let '(v, ws, started) :=
    wake (build_message settings message) (Z.to_nat limit)
         ((λ a, {| address := a; state := Waiting |}) <$> recipients) in
  {| workers := ws;
     sem := v;
     calls := started;
     progress := [];
     log := starting :: (if forallb is_done ws then [completed] else []);
     result := if forallb is_done ws then Returned else Pending |}.

(** The transport answers the call of worker [i].  The worker finishes
  [_send_one], calls the hook after a delivery, leaves [async with] (which
  releases the semaphore and wakes the next blocked worker).  [gather]
  passes the first exception of a worker on to [send_async] at once and
  resolves once every worker has returned. *)
Definition complete (i : nat) (s : loop) : option loop :=
  match workers s !! i with
  | Some w =>
      if is_sending w then
        let '(records, exc) :=
          send_one (tr i (build_message settings message (address w))) (address w) in
        let w' := {| address := address w;
                     state := match exc with None => Done | Some e => Failed e end |} in
        let '(v, ws, started) :=
          wake (build_message settings message) (S (sem s)) (<[i := w']> (workers s)) in
        let result' :=
          match result s, exc with
          | Pending, Some e => Raised e
          | Pending, None => if forallb is_done ws then Returned else Pending
          | o, _ => o
          end in
        Some {| workers := ws;
                sem := v;
                calls := calls s ++ started;
                progress := match exc with
                            | None => if progress_hook then progress s ++ [address w]
                                      else progress s
                            | Some _ => progress s
                            end;
                log := log s ++ records ++
                       match result s, result' with
                       | Pending, Returned => [completed]
                       | _, _ => []
                       end;
                result := result' |}
      else None
  | None => None
  end.

(** One step of the event loop.  The loop is followed for as long as it keeps
  running: [gather] leaves the remaining workers alone when one has failed.
  ([send_blocking] runs the call under [asyncio.run], which tears the loop
  down once the call has ended; the teardown is not part of [send_async].) *)
Inductive step : loop → loop → Prop :=
| step_complete i s s' : complete i s = Some s' → step s s'.

(** The loop states of a call [send_async(recipients, message,
  concurrency=..)]. *)
Inductive reachable (recipients : list string) (concurrency : option Z) : loop → Prop :=
| reach_start : reachable recipients concurrency (send_async recipients concurrency)
| reach_step s s' :
    reachable recipients concurrency s → step s s' →
    reachable recipients concurrency s'.

(** The run in which the transport answers the calls of the workers listed
  in [order], one after the other. *)
Fixpoint run (order : list nat) (s : loop) : option loop :=
  match order with
  | [] => Some s
  | i :: rest =>
      match complete i s with
      | Some s' => run rest s'
      | None => None
      end
  end.

End Run.

(** The number of workers that await the transport. *)
Definition sending (ws : list worker) : nat :=
  length (filter (λ w, is_sending w = true) ws).

Definition in_flight (s : loop) : nat := sending (workers s).

Definition delivered (s : loop) : list string :=
  address <$> filter (λ w, is_done w = true) (workers s).

Definition all_terminal (s : loop) : bool := forallb is_terminal (workers s).

(** The number of workers that have not finished. *)
Definition unfinished (ws : list worker) : nat :=
  length (filter (λ w, is_terminal w = false) ws).

(** The recipients whose worker has left the semaphore queue. *)
Definition attempted (ws : list worker) : list string :=
  address <$> filter (λ w, is_waiting w = false) ws.

(** What [wake] may do to one worker: nothing, or start it. *)
Definition woke (w w' : worker) : Prop :=
  address w' = address w ∧ (w' = w ∨ (state w = Waiting ∧ state w' = Sending)).

(** What the transport has answered to a finished worker. *)
Definition answered (build : string → EmailMessage) (tr : transport)
    (i : nat) (w : worker) : Prop :=
  match state w with
  | Done => tr i (build (address w)) = None
  | Failed e => tr i (build (address w)) = Some e
  | _ => True
  end.

(** The invariant of the event loop of one [send_async] call with semaphore
  size [limit]. *)
Record loop_inv (build : string → EmailMessage) (tr : transport) (hook : bool)
    (recipients : list string) (limit : nat) (s : loop) : Prop := {
  inv_addresses : address <$> workers s = recipients;
  inv_sem : (sem s + in_flight s = limit)%nat;
  inv_queue : (0 < sem s)%nat → Forall (λ w, is_waiting w = false) (workers s);
  inv_calls : calls s ≡ₚ build <$> attempted (workers s);
  inv_progress : progress s ≡ₚ (if hook then delivered s else []);
  inv_answers : ∀ i w, workers s !! i = Some w → answered build tr i w;
  inv_result :
    match result s with
    | Pending =>
        Forall (λ w, is_failed w = false) (workers s) ∧
        forallb is_done (workers s) = false
    | Returned => forallb is_done (workers s) = true
    | Raised e => ∃ i w, workers s !! i = Some w ∧ state w = Failed e
    end
}.

(** *** A concrete broadcast *)

Definition demo_settings : Config.SMTPSettings :=
  {| Config.server := "smtp.gmail.com";
     Config.port := 587;
     Config.username := "studio@gmail.com";
     Config.password := "abcdefghijklmnop";
     Config.sender_name := "Broadcast Studio" |}.

Definition demo_message : Message.BroadcastMessage :=
  {| Message.subject := "Broadcast Studio Demo";
     Message.body_text := "Hello";
     Message.body_html := "<p>Hello</p>" |}.

Definition ten_recipients : list string :=
  ["r1@x.com"; "r2@x.com"; "r3@x.com"; "r4@x.com"; "r5@x.com";
   "r6@x.com"; "r7@x.com"; "r8@x.com"; "r9@x.com"; "r10@x.com"].

(** A transport that refuses, with [reason], exactly the message of the
  worker at position [k]. *)
Definition fails_at (k : nat) (reason : string) : transport :=
  λ i _, if (i =? k)%nat then Some reason else None.

(** A transport that refuses every message with [reason]. *)
Definition always_fails (reason : string) : transport := λ _ _, Some reason.

(** The transport refuses recipient #5 of ten; three sends at a time. *)
Definition refuse_fifth : transport := fails_at 4 "550 mailbox unavailable".

Definition demo_start : loop :=
  send_async demo_settings 50 demo_message ten_recipients (Some 3).

(** The loop after the transport has answered the given workers in turn. *)
Definition demo_run (hook : bool) (order : list nat) : option loop :=
  run demo_settings demo_message refuse_fifth hook order demo_start.

(** *** send_bulk_email *)

(** The HTML alternative that [send_bulk_email] derives from the text:
  ["<br/>".join(message.splitlines()) or message]. *)
Definition bulk_html (message : string) : string :=
  let joined := Py.join "<br/>" (Py.splitlines message) in
  if Py.truthy joined then joined else message.

(** The message that [send_bulk_email] broadcasts. *)
Definition bulk_message (subject message : string) : Message.BroadcastMessage :=
  {| Message.subject := subject;
     Message.body_text := message;
     Message.body_html := bulk_html message |}.

(** [send_bulk_email]: the call of [send_async] that [send_blocking] runs, with
  no progress hook. *)
Definition send_bulk_email (settings : Config.SMTPSettings) (default_concurrency : Z)
    (subject message : string) (recipients : list string) (concurrency : option Z) : loop :=
  send_async settings default_concurrency (bulk_message subject message)
             recipients concurrency.

(** The first [n] workers have left the semaphore queue, in which the others
  are still blocked. *)
Definition queue_at (n : nat) (ws : list worker) : Prop :=
  Forall (λ w, is_waiting w = false) (firstn n ws) ∧
  Forall (λ w, state w = Waiting) (skipn n ws) ∧
  (n ≤ length ws)%nat.

(** With one send at a time: besides, the workers before the last one that
  left the queue have finished. *)
Definition serial_at (n : nat) (ws : list worker) : Prop :=
  queue_at n ws ∧ Forall (λ w, is_terminal w = true) (firstn (pred n) ws).

End Mailer.

(** ** webapp/app.py *)

Module App.

(** *** Login rate limiting

  [login_attempts] maps an address to the number of failed attempts and the
  time of the first one.  Times are [datetime] values, counted in
  microseconds; [(a - b).total_seconds() > n] compares [a - b] with [n]
  seconds. *)

Record attempts := {
  count : Z;
  first_attempt : Z
}.

Definition RATE_LIMIT_WINDOW : Z := 300.

Definition seconds (n : Z) : Z := n * 1000000.

(** [clean_old_attempts], run at time [now]. *)
Definition clean_old_attempts (now : Z) (login_attempts : gmap string attempts)
    : gmap string attempts :=
  let expired :=
    filter (λ entry : string * attempts,
              seconds RATE_LIMIT_WINDOW < now - first_attempt entry.2)
           login_attempts in
  login_attempts ∖ expired.

(** [is_rate_limited]: the clock is read at [now1] by [clean_old_attempts] and
  at [now2] for [time_passed]. *)
Definition is_rate_limited (MAX_LOGIN_ATTEMPTS : Z) (now1 now2 : Z) (ip : string)
    (login_attempts : gmap string attempts) : bool * gmap string attempts :=
  let login_attempts := clean_old_attempts now1 login_attempts in
  match login_attempts !! ip with
  | Some a =>
      if MAX_LOGIN_ATTEMPTS <=? count a then
        let time_passed := now2 - first_attempt a in
        if time_passed <? seconds RATE_LIMIT_WINDOW
        then (true, login_attempts)
        else (false, delete ip login_attempts)
      else (false, login_attempts)
  | None => (false, login_attempts)
  end.

(** [record_failed_attempt], run at time [now]. *)
Definition record_failed_attempt (now : Z) (ip : string)
    (login_attempts : gmap string attempts) : gmap string attempts :=
  match login_attempts !! ip with
  | None => <[ip := {| count := 1; first_attempt := now |}]> login_attempts
  | Some a =>
      <[ip := {| count := count a + 1; first_attempt := first_attempt a |}]> login_attempts
  end.

(** [clear_failed_attempts] *)
Definition clear_failed_attempts (ip : string) (login_attempts : gmap string attempts)
    : gmap string attempts :=
  delete ip login_attempts.

(** *** The recipient list *)

(** The key under which [_merge_recipients] compares addresses. *)
Definition merge_key (address : string) : string := Py.strip (Py.lower address).

(** One iteration of the loop of [_merge_recipients]; the state is
  [RECEIVER_EMAILS], [seen] and [added]. *)
Definition merge_step (st : list string * gset string * Z) (address : string)
    : list string * gset string * Z :=
  let key := merge_key address in
  if Py.truthy key && negb (bool_decide (key ∈ st.1.2))
  then (st.1.1 ++ [Py.strip address], {[key]} ∪ st.1.2, st.2 + 1)
  else st.

(** [_merge_recipients]: the returned count and [RECEIVER_EMAILS] afterwards. *)
Definition merge_recipients (addresses : list string) (RECEIVER_EMAILS : list string)
    : Z * list string :=
  let seen : gset string := list_to_set (merge_key <$> RECEIVER_EMAILS) in
  let st := foldl merge_step (RECEIVER_EMAILS, seen, 0) addresses in
  (st.2, st.1.1).

(** What a route leaves behind: the recipient list, the messages flashed
  (text and category) and the records logged. *)
Record effects := {
  emails : list string;
  flashed : list (string * string);
  logged : list Mailer.log_record
}.

(** [delete_recipient(index)]; [persist] stands for [_persist_recipients] on
  the given list: whether it manages to write it, and what it logs. *)
Definition delete_recipient (persist : list string → bool * list Mailer.log_record)
    (index : Z) (RECEIVER_EMAILS : list string) : Py.result effects :=
  if (0 <=? index) && (index <? Z.of_nat (length RECEIVER_EMAILS)) then
    Py.bind (Py.pop RECEIVER_EMAILS (Z.to_nat index)) (λ '(removed_email, rest),
      let '(persisted, records) := persist rest in
      if persisted then
        Py.Ok {| emails := rest;
                 flashed := [("Removed recipient: " +:+ removed_email, "success")];
                 logged := records
                           ++ [Mailer.info ("Removed recipient: " +:+ removed_email) []] |}
      else
        Py.Ok {| emails := Py.insert_at rest (Z.to_nat index) removed_email;
                 flashed := [("Failed to persist changes.", "danger")];
                 logged := records |})
  else
    Py.Ok {| emails := RECEIVER_EMAILS;
             flashed := [("Invalid recipient index.", "danger")];
             logged := [] |}.

(** [clear_recipients] *)
Definition clear_recipients (persist : list string → bool * list Mailer.log_record)
    (RECEIVER_EMAILS : list string) : effects :=
  let count := length RECEIVER_EMAILS in
  let '(persisted, records) := persist [] in
  if persisted then
    {| emails := [];
       flashed := [("Cleared all " +:+ pretty count +:+ " recipients.", "success")];
       logged := records
                 ++ [Mailer.info ("Cleared all " +:+ pretty count +:+ " recipients") []] |}
  else
    {| emails := [];
       flashed := [("Failed to persist changes.", "danger")];
       logged := records |}.

(** *** The compose route

  A POST request to [compose], up to the call of [send_bulk_email]: what the
  route decides to do. *)
Inductive compose_outcome :=
| NoRecipients                              (* redirect to the recipients page *)
| FormErrors (form : Forms.BroadcastForm)   (* the form is shown again *)
| SmtpNotConfigured
| PasswordNotConfigured
| Broadcast (start : Mailer.loop).          (* [send_bulk_email] is called *)

Definition compose_post (smtp_settings : Config.SMTPSettings) (default_concurrency : Z)
    (RECEIVER_EMAILS : list string) (form_data : gmap string string)
    : Py.result compose_outcome :=
  match RECEIVER_EMAILS with
  | [] => Py.Ok NoRecipients
  | _ =>
      let form := Forms.BroadcastForm_init (Some form_data) in
      Py.bind (Forms.validate form) (λ '(ok, form),
        if ok then
          if Config.username_placeholder smtp_settings then Py.Ok SmtpNotConfigured
          else if Config.password_placeholder smtp_settings
          then Py.Ok PasswordNotConfigured
          else
            let subject := Py.strip (Forms.subject form) in
            let body := Py.strip (Forms.body form) in
            Py.Ok (Broadcast
                     (Mailer.send_bulk_email smtp_settings default_concurrency
                        subject body RECEIVER_EMAILS (Some (Forms.concurrency form))))
        else Py.Ok (FormErrors form))
  end.

(** The line that [_persist_recipients] writes for one address, and the
  block of lines it puts into the generated module. *)
Definition quote : string := String "034" EmptyString.

Definition persist_line (addr : string) : string :=
  "                " +:+ quote +:+ addr +:+ quote +:+ ",".

Definition persist_block (RECEIVER_EMAILS : list string) : string :=
  Py.join (String "010" EmptyString) (persist_line <$> RECEIVER_EMAILS).

(** An address that can stand between the double quotes of a Python string
  literal as it is: it holds no double quote, no backslash and no line
  boundary. *)
Definition literal_safe (addr : string) : bool :=
  Py.all_chars (λ c, negb (bool_decide (c = "034"%char) || bool_decide (c = "\"%char)
                           || Py.is_linebreak c)) addr.

(** *** The recipients route

  A POST request to [recipients]; [persist] stands for [_persist_recipients]
  as in [delete_recipient]. *)
Definition recipients_post (persist : list string → bool * list Mailer.log_record)
    (RECEIVER_EMAILS : list string) (form_data : gmap string string)
    : Py.result effects :=
  let form := Forms.RecipientForm_init (Some form_data) in
  Py.bind (Forms.RecipientForm_validate form) (λ '(ok, form),
    if ok then
      let new_addresses := Forms.flatten_addresses form in
      let '(added, RECEIVER_EMAILS) := merge_recipients new_addresses RECEIVER_EMAILS in
      if negb (added =? 0) then
        let '(persisted, records) := persist RECEIVER_EMAILS in
        if persisted then
          Py.Ok {| emails := RECEIVER_EMAILS;
                   flashed := [("Successfully added " +:+ pretty added +:+ " recipient(s).",
                                "success")];
                   logged := records
                             ++ [Mailer.info ("Added " +:+ pretty added
                                              +:+ " new recipients. Total: "
                                              +:+ pretty (length RECEIVER_EMAILS)) []] |}
        else
          Py.Ok {| emails := RECEIVER_EMAILS;
                   flashed := [("Added " +:+ pretty added
                                +:+ " recipient(s) but failed to persist to file.",
                                "warning")];
                   logged := records |}
      else
        Py.Ok {| emails := RECEIVER_EMAILS;
                 flashed := [("No new recipients were added (all duplicates).", "info")];
                 logged := [] |}
    else
      Py.Ok {| emails := RECEIVER_EMAILS;
               flashed := [("Please fix the highlighted errors.", "danger")];
               logged := [] |}).

(** *** The session and the login route *)

(** [(os.getenv(NAME, dflt) or dflt).strip()], as for [ADMIN_USERNAME] and
  [ADMIN_PASSWORD]. *)
Definition admin_setting (value : option string) (dflt : string) : string :=
  let v := default dflt value in
  Py.strip (if Py.truthy v then v else dflt).

(** What the routes keep in the session. *)
Record session_data := {
  logged_in : bool;
  login_time : option Z;
  ip_address : string;
  session_username : string
}.

(** [is_logged_in] at time [now]: the answer and the session afterwards
  ([None] is the empty session). *)
Definition is_logged_in (SESSION_LIFETIME now : Z) (session : option session_data)
    : bool * option session_data :=
  match session with
  | None => (false, None)
  | Some s =>
      if negb (logged_in s) then (false, session)
      else
        match login_time s with
        | Some t =>
            if seconds SESSION_LIFETIME <? now - t then (false, None)
            else (true, session)
        | None => (true, session)
        end
  end.

Inductive http_method := GET | POST.

Inductive response :=
| RedirectDashboard
| RedirectTo (path : string)
| RenderLogin (form : Forms.LoginForm) (status : Z).

(** The readings of the clock along one request, by the place that reads. *)
Record login_clock := {
  at_session : Z;      (* [is_logged_in] *)
  at_clean : Z;        (* [clean_old_attempts] *)
  at_check : Z;        (* [time_passed] in [is_rate_limited] *)
  at_remaining : Z;    (* [remaining_time] *)
  at_login : Z;        (* [session["login_time"]] *)
  at_failure : Z       (* [record_failed_attempt] *)
}.

Record login_effects := {
  sent : response;
  attempts_table : gmap string attempts;
  session_after : option session_data;
  login_flashed : list (string * string);
  login_logged : list Mailer.log_record
}.

Definition log_info (message : string) : Mailer.log_record := Mailer.info message [].

Definition py_bool (b : bool) : string := if b then "True" else "False".

(** [int(x)] for a duration [x] counted in microseconds and shown in
  seconds: the fraction is dropped. *)
Definition whole_seconds (microseconds : Z) : Z := Z.quot microseconds 1000000.

(** The view function [login]; [None] stands for a [KeyError] on
  [login_attempts[ip_address]]. *)
Definition login (ADMIN_USERNAME ADMIN_PASSWORD : string)
    (SESSION_LIFETIME MAX_LOGIN_ATTEMPTS : Z) (clock : login_clock)
    (method : http_method) (remote_addr : string) (next_page : option string)
    (form_data : gmap string string)
    (session : option session_data) (login_attempts : gmap string attempts)
    : option login_effects :=
  let '(already, session) := is_logged_in SESSION_LIFETIME (at_session clock) session in
  if already then
    Some {| sent := RedirectDashboard; attempts_table := login_attempts;
            session_after := session; login_flashed := []; login_logged := [] |}
  else
    match method with
    | GET =>
        Some {| sent := RenderLogin (Forms.LoginForm_init None) 200;
                attempts_table := clear_failed_attempts remote_addr login_attempts;
                session_after := session; login_flashed := []; login_logged := [] |}
    | POST =>
        let form := Forms.LoginForm_init (Some form_data) in
        let '(limited, login_attempts) :=
          is_rate_limited MAX_LOGIN_ATTEMPTS (at_clean clock) (at_check clock)
                          remote_addr login_attempts in
        if limited then
          match login_attempts !! remote_addr with
          | Some a =>
              let remaining_time :=
                seconds RATE_LIMIT_WINDOW - (at_remaining clock - first_attempt a) in
              Some {| sent := RenderLogin form 429;
                      attempts_table := login_attempts;
                      session_after := session;
                      login_flashed :=
                        [("Too many failed attempts. Please try again in "
                          +:+ pretty (whole_seconds remaining_time) +:+ " seconds.",
                          "danger")];
                      login_logged :=
                        [log_info ("Rate limited login attempt from " +:+ remote_addr)] |}
          | None => None
          end
        else
          let '(ok, form) := Forms.LoginForm_validate form in
          if ok then
            let username := Py.strip (Forms.username form) in
            let password := Py.strip (Forms.password form) in
            let username_match := bool_decide (username = ADMIN_USERNAME) in
            let password_match := bool_decide (password = ADMIN_PASSWORD) in
            let attempt_log :=
              [log_info ("Login attempt - Username: '" +:+ username +:+ "' (expected: '"
                         +:+ ADMIN_USERNAME +:+ "'), Match: " +:+ py_bool username_match);
               log_info ("Password provided: '" +:+ password +:+ "' (length: "
                         +:+ pretty (Py.len password) +:+ ")");
               log_info ("Password expected: '" +:+ ADMIN_PASSWORD +:+ "' (length: "
                         +:+ pretty (Py.len ADMIN_PASSWORD) +:+ ")");
               log_info ("Password match: " +:+ py_bool password_match);
               log_info ("Password bytes comparison: " +:+ py_bool password_match)] in
            if username_match && password_match then
              Some
              {| sent := match next_page with
                         | Some p => if Py.truthy p && String.prefix "/" p
                                     then RedirectTo p else RedirectDashboard
                         | None => RedirectDashboard
                         end;
                 attempts_table := clear_failed_attempts remote_addr login_attempts;
                 session_after :=
                   Some {| logged_in := true; login_time := Some (at_login clock);
                           ip_address := remote_addr; session_username := username |};
                 login_flashed := [("Logged in successfully.", "success")];
                 login_logged :=
                   attempt_log
                   ++ [log_info ("Successful login from " +:+ remote_addr +:+ " as "
                                 +:+ username)] |}
            else
              let login_attempts :=
                record_failed_attempt (at_failure clock) remote_addr login_attempts in
              let attempts_left :=
                MAX_LOGIN_ATTEMPTS
                - default 0 (count <$> login_attempts !! remote_addr) in
              Some
              {| sent := RenderLogin
                           (Forms.lf_add_error "password"
                              "Incorrect username or password." form) 200;
                 attempts_table := login_attempts;
                 session_after := session;
                 login_flashed :=
                   [("Invalid credentials. " +:+ pretty (Z.max 0 attempts_left)
                     +:+ " attempt(s) remaining.", "danger")];
                 login_logged :=
                   attempt_log
                   ++ [log_info ("Failed login attempt from " +:+ remote_addr
                                 +:+ " (user: " +:+ username +:+ ")")] |}
          else
            Some
            {| sent := RenderLogin form 200;
               attempts_table := login_attempts;
               session_after := session;
               login_flashed := [("Please fix the highlighted errors.", "danger")];
               login_logged := [] |}
    end.

(** *** The recipient list over a sequence of requests *)

(** [RecipientList.demo().addresses], the list the application starts with
  (app/core/recipients.py). *)
Definition RecipientList_demo : list string :=
  ["meerhamzagujjar6@gmail.com"; "hamzaiqbalrajpoot35@gmail.com"].

(** A request that edits the list. *)
Inductive request :=
| AddRecipients (form_data : gmap string string)
| DeleteRecipient (index : Z)
| ClearRecipients.

(** [RECEIVER_EMAILS] after one request; [persist] is what
  [_persist_recipients] does during that request. *)
Definition handle (RECEIVER_EMAILS : list string)
    (req : (list string → bool * list Mailer.log_record) * request)
    : Py.result (list string) :=
  match req.2 with
  | AddRecipients form_data =>
      Py.bind (recipients_post req.1 RECEIVER_EMAILS form_data) (λ eff, Py.Ok (emails eff))
  | DeleteRecipient index =>
      Py.bind (delete_recipient req.1 index RECEIVER_EMAILS) (λ eff, Py.Ok (emails eff))
  | ClearRecipients => Py.Ok (emails (clear_recipients req.1 RECEIVER_EMAILS))
  end.

Definition serve (reqs : list ((list string → bool * list Mailer.log_record) * request))
    (RECEIVER_EMAILS : list string) : Py.result (list string) :=
  Py.for_each handle RECEIVER_EMAILS reqs.

(** Every entry matches [EMAIL_RE] and can be written between double quotes
  as it is, and no two entries have the same key. *)
Definition store_ok (RECEIVER_EMAILS : list string) : Prop :=
  Forall (λ a, Re.accepts Forms.EMAIL_RE a = true ∧ literal_safe a = true)
         RECEIVER_EMAILS ∧
  NoDup (merge_key <$> RECEIVER_EMAILS).

End App.

(** * Properties *)

(** ** Strings *)

Section StringFacts.

Lemma app_cons c (s t : string) : String c s +:+ t = String c (s +:+ t).
Proof. reflexivity. Qed.

Lemma app_empty_l (s : string) : EmptyString +:+ s = s.
Proof. reflexivity. Qed.

Lemma app_empty_r (s : string) : s +:+ EmptyString = s.
Proof. induction s as [|c s IH]; [done | by rewrite app_cons, IH]. Qed.

Lemma app_assoc_str (s1 s2 s3 : string) : (s1 +:+ s2) +:+ s3 = s1 +:+ (s2 +:+ s3).
Proof. induction s1 as [|c s1 IH]; [done | by rewrite !app_cons, IH]. Qed.

Lemma app_eq_empty (s1 s2 : string) :
  s1 +:+ s2 = EmptyString → s1 = EmptyString ∧ s2 = EmptyString.
Proof. destruct s1; [done | rewrite app_cons; discriminate]. Qed.

Lemma has_char_app c (s1 s2 : string) :
  Py.has_char c (s1 +:+ s2) = Py.has_char c s1 || Py.has_char c s2.
Proof.
  induction s1 as [|d s1 IH]; [done |].
  rewrite app_cons. simpl. by rewrite IH, orb_assoc.
Qed.

(** Splitting on a separator that occurs nowhere leaves the string whole. *)
Lemma split_absent sep (s : string) :
  Py.has_char sep s = false → Py.split sep s = [s].
Proof.
  induction s as [|c s IH]; simpl; [done |].
  intros [Hc Hs]%orb_false_elim. rewrite Hc, (IH Hs). done.
Qed.

Lemma split_app sep (s1 s2 : string) :
  Py.has_char sep s1 = false →
  Py.split sep (s1 +:+ String sep s2) = s1 :: Py.split sep s2.
Proof.
  induction s1 as [|c s1 IH].
  - intros _. rewrite app_empty_l. simpl. by rewrite bool_decide_eq_true_2.
  - rewrite app_cons. simpl.
    intros [Hc Hs]%orb_false_elim. rewrite Hc, (IH Hs). done.
Qed.

(** ["@" in s] looks for the character. *)
Lemma contains_char c (s : string) :
  Py.contains (String c EmptyString) s = Py.has_char c s.
Proof.
  induction s as [|d s IH]; simpl; [done |].
  rewrite IH. f_equal.
  destruct (Ascii.ascii_dec c d) as [->|Hne].
  - rewrite bool_decide_eq_true_2 by done. by destruct s.
  - by rewrite bool_decide_eq_false_2 by congruence.
Qed.

Lemma has_char_lstrip c (s : string) :
  Py.isspace c = false → Py.has_char c (Py.lstrip s) = Py.has_char c s.
Proof.
  intros Hc. induction s as [|d s IH]; simpl; [done |].
  destruct (Py.isspace d) eqn:Hd; [|done].
  rewrite IH. rewrite bool_decide_eq_false_2; [done | congruence].
Qed.

Lemma has_char_rstrip c (s : string) :
  Py.isspace c = false → Py.has_char c (Py.rstrip s) = Py.has_char c s.
Proof.
  intros Hc. induction s as [|d s IH]; simpl; [done |].
  destruct (Py.rstrip s) as [|e r] eqn:Hr.
  - simpl in IH. rewrite <- IH.
    destruct (Py.isspace d) eqn:Hd; simpl; [|by rewrite orb_false_r].
    rewrite bool_decide_eq_false_2; [done | congruence].
  - simpl. simpl in IH. by rewrite IH.
Qed.

Lemma has_char_strip c (s : string) :
  Py.isspace c = false → Py.has_char c (Py.strip s) = Py.has_char c s.
Proof.
  intros Hc. unfold Py.strip. by rewrite has_char_lstrip, has_char_rstrip.
Qed.

End StringFacts.

(** ** The matcher decides the language of the pattern *)

Section RegexFacts.

Import Re.

Lemma matches_nullable r : nullable r = true ↔ matches r EmptyString.
Proof.
  split.
  - induction r; simpl; intros H; try discriminate.
    + constructor.
    + apply andb_true_iff in H as [H1 H2].
      rewrite <- (app_empty_l EmptyString). constructor; auto.
    + apply orb_true_iff in H as [H|H]; [apply MAltL | apply MAltR]; auto.
    + constructor.
    + constructor.
  - intros H. remember EmptyString as s eqn:Hs.
    induction H; simpl; try done.
    + apply app_eq_empty in Hs as [-> ->]. by rewrite IHmatches1, IHmatches2.
    + by rewrite IHmatches.
    + rewrite IHmatches by done. by rewrite orb_true_r.
Qed.

Lemma matches_cat r1 r2 s : matches (cat r1 r2) s ↔ matches (Cat r1 r2) s.
Proof.
  split.
  - destruct r1, r2; simpl; intros H; try done; try (by inversion H);
      by (rewrite <- (app_empty_l s); constructor; [constructor | done]).
  - intros H. inversion H as [| |? ? s1 s2 H1 H2| | | | | |]; subst.
    destruct r1, r2; simpl; try done; try (by inversion H1); by inversion H2.
Qed.

Lemma matches_alt r1 r2 s : matches (alt r1 r2) s ↔ matches (Alt r1 r2) s.
Proof.
  split.
  - destruct r1, r2; simpl; intros H; try done; try (by inversion H);
      first [ by apply MAltL | by apply MAltR ].
  - intros H. inversion H; subst;
      destruct r1, r2; simpl; try done;
      match goal with H : matches Void _ |- _ => inversion H end.
Qed.

Lemma matches_deriv_sound c r : ∀ s, matches (deriv c r) s → matches r (String c s).
Proof.
  induction r as [| |cls|r1 IH1 r2 IH2|r1 IH1 r2 IH2|r IH|n r IH]; simpl; intros s H.
  - inversion H.
  - inversion H.
  - destruct (class_mem c cls) eqn:Hc; inversion H; subst. by constructor.
  - apply matches_alt in H. inversion H as [| | |? ? ? H'|? ? ? H'| | | |]; subst.
    + apply matches_cat in H'. inversion H'; subst.
      rewrite <- app_cons. constructor; auto.
    + destruct (nullable r1) eqn:Hn; [|inversion H'].
      rewrite <- (app_empty_l (String c s)).
      constructor; [by apply matches_nullable | auto].
  - apply matches_alt in H. inversion H; subst; [apply MAltL | apply MAltR]; auto.
  - apply matches_cat in H. inversion H; subst.
    rewrite <- app_cons. constructor; auto.
  - destruct n; [inversion H |].
    apply matches_cat in H. inversion H; subst.
    rewrite <- app_cons. constructor; auto.
Qed.

Lemma matches_upto_mono r : ∀ n s, matches (Upto n r) s → matches (Upto (S n) r) s.
Proof.
  induction n as [|n IH]; intros s H; inversion H; subst; constructor; auto.
Qed.

Lemma matches_deriv_complete c r s : matches r (String c s) → matches (deriv c r) s.
Proof.
  intros H. remember (String c s) as w eqn:Hw. revert s Hw.
  induction H as [|cls d Hd|r1 r2 s1 s2 H1 IH1 H2 IH2|r1 r2 w H IH|r1 r2 w H IH
                 | r |r s1 s2 H1 IH1 H2 IH2| n r |n r s1 s2 H1 IH1 H2 IH2];
    intros s Hw; simpl; try discriminate.
  - injection Hw as ? ?; subst. rewrite Hd. constructor.
  - apply matches_alt. destruct s1 as [|d s1].
    + rewrite app_empty_l in Hw. subst s2. apply MAltR.
      apply matches_nullable in H1. rewrite H1. by apply IH2.
    + rewrite app_cons in Hw. injection Hw as -> <-.
      apply MAltL, matches_cat. constructor; auto.
  - apply matches_alt, MAltL. by apply IH.
  - apply matches_alt, MAltR. by apply IH.
  - destruct s1 as [|d s1].
    + rewrite app_empty_l in Hw. subst s2. by apply IH2.
    + rewrite app_cons in Hw. injection Hw as -> <-.
      apply matches_cat. constructor; auto.
  - destruct s1 as [|d s1].
    + rewrite app_empty_l in Hw. subst s2. specialize (IH2 s eq_refl). simpl in IH2.
      destruct n; [inversion IH2 |].
      apply matches_cat in IH2. inversion IH2; subst.
      apply matches_cat. constructor; [done |]. by apply matches_upto_mono.
    + rewrite app_cons in Hw. injection Hw as -> <-.
      apply matches_cat. constructor; auto.
Qed.

(** [accepts] is membership in the language. *)
Lemma accepts_matches r s : accepts r s = true ↔ matches r s.
Proof.
  revert r. induction s as [|c s IH]; intros r; simpl.
  - apply matches_nullable.
  - rewrite IH. split; [apply matches_deriv_sound | apply matches_deriv_complete].
Qed.

(** A word of a pattern that excludes [c] does not contain [c]. *)
Lemma matches_excludes c r s :
  matches r s → excludes c r = true → Py.has_char c s = false.
Proof.
  induction 1 as [|cls d Hd|r1 r2 s1 s2 H1 IH1 H2 IH2|r1 r2 w H IH|r1 r2 w H IH
                 | r |r s1 s2 H1 IH1 H2 IH2| n r |n r s1 s2 H1 IH1 H2 IH2];
    simpl; intros Hx; try done.
  - apply negb_true_iff in Hx. rewrite orb_false_r.
    apply bool_decide_eq_false_2. intros ->. congruence.
  - apply andb_true_iff in Hx as [Hx1 Hx2].
    by rewrite has_char_app, IH1, IH2.
  - apply andb_true_iff in Hx as [Hx1 Hx2]. auto.
  - apply andb_true_iff in Hx as [Hx1 Hx2]. auto.
  - by rewrite has_char_app, IH1, IH2.
  - by rewrite has_char_app, IH1, IH2.
Qed.

End RegexFacts.

(** ** RecipientForm.validate_email *)

Section ValidateEmail.

Import Re Forms.

(** An address accepted by [EMAIL_RE] has the shape local@domain with no
  further [@] on either side. *)
Lemma email_re_shape (email : string) :
  accepts EMAIL_RE email = true →
  ∃ local domain,
    email = local +:+ String "@" domain ∧
    Py.has_char "@" local = false ∧ Py.has_char "@" domain = false.
Proof.
  intros H%accepts_matches. unfold EMAIL_RE in H.
  inversion H as [| |? ? local rest Hl Hr| | | | | |]; subst.
  inversion Hr as [| |? ? at_ domain Ha Hd| | | | | |]; subst.
  inversion Ha as [|? c Hc| | | | | | |]; subst.
  assert (c = "@"%char) as ->.
  { unfold class_mem in Hc. simpl in Hc. rewrite !orb_false_r in Hc.
    by apply bool_decide_eq_true in Hc. }
  exists local, domain. split; [by rewrite app_cons, app_empty_l |].
  split; eapply matches_excludes; eauto.
Qed.

Lemma email_re_split (email : string) :
  accepts EMAIL_RE email = true →
  ∃ local domain, Py.split "@" email = [local; domain].
Proof.
  intros (local & domain & -> & Hl & Hd)%email_re_shape.
  exists local, domain. by rewrite split_app, split_absent.
Qed.

(** C9: [validate_email] never raises: on every string it returns a pair of a
  flag and an optional reason.  Whenever [EMAIL_RE] has matched, splitting on
  [@] gives exactly two parts, so neither the indexing [split('@')[1]] nor
  the two-element unpacking can fail. *)
Theorem validate_email_total (self : RecipientForm) (email : string) :
  (∃ is_valid reason, validate_email self email = Py.Ok (is_valid, reason)) ∧
  (accepts EMAIL_RE email = true →
   ∃ local domain,
     Py.split "@" email = [local; domain] ∧
     Py.index (Py.split "@" email) 1 = Py.Ok domain ∧
     Py.unpack2 (Py.split "@" email) = Py.Ok (local, domain)).
Proof.
  assert (accepts EMAIL_RE email = true →
          ∃ local domain,
            Py.split "@" email = [local; domain] ∧
            Py.index (Py.split "@" email) 1 = Py.Ok domain ∧
            Py.unpack2 (Py.split "@" email) = Py.Ok (local, domain)) as Hsplit.
  { intros (local & domain & E)%email_re_split.
    exists local, domain. by rewrite E. }
  split; [|done].
  unfold validate_email.
  destruct (MAX_EMAIL_LENGTH <? Py.len email); [eauto |].
  destruct (accepts EMAIL_RE email) eqn:Hre; simpl; [|eauto].
  destruct (Hsplit eq_refl) as (local & domain & _ & Hidx & Hunpack).
  unfold check_disposable. rewrite Hidx, Hunpack.
  destruct (block_disposable self); simpl.
  - destruct (bool_decide (Py.lower domain ∈ DISPOSABLE_DOMAINS)); simpl; [eauto |].
    destruct (Py.contains ".." email); [eauto |].
    destruct (negb (Py.truthy local) || negb (Py.truthy domain)); [eauto |].
    destruct (negb (Py.has_char "." domain)); eauto.
  - destruct (Py.contains ".." email); [eauto |].
    destruct (negb (Py.truthy local) || negb (Py.truthy domain)); [eauto |].
    destruct (negb (Py.has_char "." domain)); eauto.
Qed.

Lemma validate_email_total_witness :
  (∃ is_valid reason,
     validate_email (RecipientForm_init None) "a@b.com" = Py.Ok (is_valid, reason)) ∧
  ∃ local domain, Py.split "@" "a@b.com" = [local; domain].
Proof.
  destruct (validate_email_total (RecipientForm_init None) "a@b.com") as [Htot Hsplit].
  split; [exact Htot |].
  destruct (Hsplit eq_refl) as (local & domain & E & _).
  exists local, domain. exact E.
Defined.

(** C8: for either setting of the form, the syntax check rejects
  [not-an-email], [a@@b.com], [a..b@c.com] and every address longer than 254
  characters, each with a reason. *)
Theorem validate_email_rejects (self : RecipientForm) :
  validate_email self "not-an-email" = Py.Ok (false, Some "Invalid email format") ∧
  validate_email self "a@@b.com" = Py.Ok (false, Some "Invalid email format") ∧
  validate_email self "a..b@c.com" = Py.Ok (false, Some "Consecutive dots not allowed") ∧
  ∀ email, 254 < Py.len email →
    validate_email self email = Py.Ok (false, Some "Email too long (max 254 chars)").
Proof.
  split; [|split; [|split]].
  - destruct self as [? ? ? [] ?]; vm_compute; reflexivity.
  - destruct self as [? ? ? [] ?]; vm_compute; reflexivity.
  - destruct self as [? ? ? [] ?]; vm_compute; reflexivity.
  - intros email Hlen. unfold validate_email.
    assert ((MAX_EMAIL_LENGTH <? Py.len email) = true) as ->.
    { apply Z.ltb_lt. unfold MAX_EMAIL_LENGTH. lia. }
    reflexivity.
Qed.

Lemma validate_email_rejects_witness :
  Py.len long_address = 255 ∧
  validate_email (RecipientForm_init None) long_address
  = Py.Ok (false, Some "Email too long (max 254 chars)").
Proof.
  split; [reflexivity |].
  apply (validate_email_rejects (RecipientForm_init None)).
  vm_compute. reflexivity.
Defined.

End ValidateEmail.

(** ** Normalisation of a recipient list *)

Section Flatten.

Import Forms.

Lemma keep_first_filter (P : string → Prop) `{!∀ x, Decision (P x)} (l : list string) :
  filter P (keep_first l) = keep_first (filter P l).
Proof.
  induction l as [|x l IH]; simpl; [done |].
  rewrite !filter_cons. destruct (decide (P x)) as [HP|HP]; simpl.
  - rewrite <- IH. f_equal.
    rewrite !list_filter_filter. apply list_filter_iff. tauto.
  - rewrite <- IH. rewrite list_filter_filter. apply list_filter_iff.
    intros y. split; [tauto |]. intros Hy. split; [done |]. by intros ->.
Qed.

Lemma elem_of_keep_first (l : list string) x : x ∈ keep_first l ↔ x ∈ l.
Proof.
  induction l as [|y l IH]; simpl; [done |].
  rewrite !elem_of_cons, list_elem_of_filter, IH.
  destruct (decide (x = y)); tauto.
Qed.

Lemma NoDup_keep_first (l : list string) : NoDup (keep_first l).
Proof.
  induction l as [|y l IH]; simpl; [constructor |].
  constructor; [|by apply NoDup_filter].
  rewrite list_elem_of_filter. tauto.
Qed.

Lemma filter_eq_absent (l : list string) x :
  x ∉ l → filter (λ y, y = x) l = [].
Proof.
  induction l as [|y l IH]; [done |].
  rewrite not_elem_of_cons. intros [Hne Hx].
  rewrite filter_cons, decide_False by done. auto.
Qed.

Lemma NoDup_occurs_once (l : list string) x :
  NoDup l → x ∈ l → length (filter (λ y, y = x) l) = 1%nat.
Proof.
  induction 1 as [|y l Hy Hl IH]; [by intros ?%elem_of_nil |].
  rewrite filter_cons. intros [->|Hx]%elem_of_cons.
  - rewrite decide_True by done. simpl. by rewrite filter_eq_absent.
  - rewrite decide_False by (intros ->; done). auto.
Qed.

Lemma flatten_step_dedup st token :
  flatten_step true st token = dedup_step Py.truthy st token.
Proof.
  unfold flatten_step, dedup_step, normalize.
  by destruct (Py.truthy _).
Qed.

Lemma parse_step_dedup st token :
  parse_step true st token
  = dedup_step (λ t, Py.truthy t && validate_email_address t) st token.
Proof.
  unfold parse_step, dedup_step, normalize. simpl.
  destruct (_ && _); [|done].
  by destruct (bool_decide _).
Qed.

Lemma foldl_ext_fun {A B} (f g : A → B → A) (l : list B) (a : A) :
  (∀ a b, f a b = g a b) → foldl f a l = foldl g a l.
Proof.
  intros Hfg. revert a. induction l as [|b l IH]; intros a; simpl; [done |].
  by rewrite Hfg, IH.
Qed.

Lemma dedup_fold keep (tokens : list string) :
  ∀ (acc : list string) (seen : gset string),
    (∀ x, x ∈ seen ↔ x ∈ acc) →
    (foldl (dedup_step keep) (acc, seen) tokens).1
    = acc ++ keep_first (filter (λ x, x ∉ acc)
                           (filter (λ x, keep x = true) (normalize <$> tokens))).
Proof.
  induction tokens as [|t tokens IH]; intros acc seen Hseen; simpl.
  - by rewrite app_nil_r.
  - unfold dedup_step at 2. simpl. rewrite (filter_cons _ (normalize t)).
    destruct (keep (normalize t)) eqn:Hk.
    + rewrite decide_True by done. rewrite filter_cons.
      destruct (decide (normalize t ∈ seen)) as [Hin|Hin].
      * rewrite bool_decide_eq_true_2 by done.
        rewrite decide_False by (rewrite <- Hseen; tauto).
        by apply IH.
      * rewrite bool_decide_eq_false_2 by done.
        rewrite decide_True by (by rewrite <- Hseen).
        rewrite IH by (intros x; rewrite elem_of_union, elem_of_singleton,
                         elem_of_app, list_elem_of_singleton, Hseen; tauto).
        rewrite <- app_assoc. simpl. do 2 f_equal.
        rewrite keep_first_filter, !list_filter_filter.
        apply (f_equal keep_first), list_filter_iff. intros x.
        rewrite elem_of_app, list_elem_of_singleton. tauto.
    + rewrite decide_False by congruence. by apply IH.
Qed.

Lemma flatten_addresses_keep_first (self : RecipientForm) :
  deduplicate self = true →
  flatten_addresses self
  = keep_first (filter (λ x, Py.truthy x = true)
                  (normalize <$> Py.split_seps (addresses self))).
Proof.
  intros Hd. unfold flatten_addresses. rewrite Hd.
  rewrite (foldl_ext_fun _ (dedup_step Py.truthy)) by apply flatten_step_dedup.
  rewrite dedup_fold by set_solver. simpl.
  f_equal. apply list_filter_filter_r. intros x _. apply not_elem_of_nil.
Qed.

Lemma parse_email_list_keep_first (text : string) :
  parse_email_list text true
  = keep_first (filter (λ x, (Py.truthy x && validate_email_address x) = true)
                  (normalize <$> Py.split_seps text)).
Proof.
  unfold parse_email_list.
  rewrite (foldl_ext_fun _ (dedup_step (λ t, Py.truthy t && validate_email_address t)))
    by apply parse_step_dedup.
  rewrite dedup_fold by set_solver. simpl.
  f_equal. apply list_filter_filter_r. intros x _. apply not_elem_of_nil.
Qed.

(** C7: with deduplication on, [flatten_addresses] yields the trimmed
  lower-case forms of the non-empty tokens, each once, at the place of its
  first occurrence.  [a@x.com] and [A@X.com ] have the same normal form, so a
  text with such tokens yields exactly one entry [a@x.com]; no entry is
  empty.  [parse_email_list] does the same on the tokens that pass
  [EMAIL_RE]. *)
Theorem flatten_addresses_dedup (self : RecipientForm) (t1 t2 : string) :
  deduplicate self = true →
  t1 ∈ Py.split_seps (addresses self) →
  t2 ∈ Py.split_seps (addresses self) →
  normalize t1 = normalize "a@x.com" →
  normalize t2 = normalize "A@X.com " →
  let result := flatten_addresses self in
  result = keep_first (filter (λ x, x ≠ EmptyString)
                         (normalize <$> Py.split_seps (addresses self))) ∧
  NoDup result ∧
  (EmptyString ∉ result) ∧
  length (filter (λ x, x = "a@x.com") result) = 1%nat ∧
  length (filter (λ x, x = "a@x.com") (parse_email_list (addresses self) true)) = 1%nat.
Proof.
  intros Hd Ht1 Ht2 Hn1 Hn2 result.
  assert (result = keep_first (filter (λ x, Py.truthy x = true)
                     (normalize <$> Py.split_seps (addresses self)))) as Hres
    by (by apply flatten_addresses_keep_first).
  assert (∀ x, Py.truthy x = true ↔ x ≠ EmptyString) as Htruthy.
  { intros x. unfold Py.truthy. rewrite negb_true_iff, bool_decide_eq_false. done. }
  split; [|split; [|split; [|split]]].
  - rewrite Hres. f_equal. by apply list_filter_iff.
  - rewrite Hres. apply NoDup_keep_first.
  - rewrite Hres, elem_of_keep_first, list_elem_of_filter. by intros [? _].
  - apply NoDup_occurs_once; [rewrite Hres; apply NoDup_keep_first |].
    rewrite Hres, elem_of_keep_first, list_elem_of_filter. split; [done |].
    apply list_elem_of_fmap. exists t1. by rewrite Hn1.
  - rewrite parse_email_list_keep_first.
    apply NoDup_occurs_once; [apply NoDup_keep_first |].
    rewrite elem_of_keep_first, list_elem_of_filter. split; [done |].
    apply list_elem_of_fmap. exists t1. by rewrite Hn1.
Qed.

Lemma flatten_addresses_dedup_witness :
  flatten_addresses
    (RecipientForm_init (Some {[ "addresses" := "a@x.com, b@y.org; A@X.com " ]}))
  = ["a@x.com"; "b@y.org"].
Proof.
  pose proof (flatten_addresses_dedup
    (RecipientForm_init (Some {[ "addresses" := "a@x.com, b@y.org; A@X.com " ]}))
    "a@x.com" "A@X.com") as H.
  destruct H as (H & _).
  - reflexivity.
  - vm_compute. set_solver.
  - vm_compute. set_solver.
  - reflexivity.
  - reflexivity.
  - rewrite H. vm_compute. reflexivity.
Defined.

End Flatten.

(** ** BroadcastForm: the concurrency field *)

Section BroadcastFormFacts.

Import Forms.

Lemma take_all (n : nat) (s : string) :
  (String.length s ≤ n)%nat → Py.take n s = s.
Proof.
  revert n. induction s as [|c s IH]; intros n Hn; destruct n; simpl in *;
    try done; try lia.
  rewrite IH; [done | lia].
Qed.

(** [sanitize_input] with a positive bound trims, then keeps at most that
  many leading characters. *)
Lemma sanitize_input_bound (value : string) (n : Z) :
  0 < n → sanitize_input value (Some n) = Py.take (Z.to_nat n) (Py.strip value).
Proof.
  intros Hn. unfold sanitize_input, Py.slice_to.
  assert ((n =? 0) = false) as -> by lia. simpl.
  destruct (n <? Py.len (Py.strip value)) eqn:Hlt.
  - by assert ((0 <=? n) = true) as -> by lia.
  - rewrite take_all; [done |]. unfold Py.len in Hlt. lia.
Qed.

Lemma concurrency_raw_validate_subject f :
  concurrency_raw (validate_subject f) = concurrency_raw f.
Proof. unfold validate_subject; repeat case_match; reflexivity. Qed.

Lemma concurrency_raw_validate_body f :
  concurrency_raw (validate_body f) = concurrency_raw f.
Proof. unfold validate_body; repeat case_match; reflexivity. Qed.

Lemma concurrency_validate_test_email f :
  concurrency (validate_test_email f) = concurrency f.
Proof. unfold validate_test_email; repeat case_match; reflexivity. Qed.

(** The [try] block never lets an exception escape. *)
Lemma validate_concurrency_spec f :
  ∃ f', validate_concurrency f = Py.Ok f' ∧
    concurrency f' = match Py.parse_int (concurrency_raw f) with
                     | Some n => clamp_concurrency n
                     | None => DEFAULT_CONCURRENCY
                     end.
Proof.
  unfold validate_concurrency, Py.int, clamp_concurrency.
  destruct (Py.parse_int (concurrency_raw f)) as [n|]; [|eauto].
  unfold MIN_CONCURRENCY, MAX_CONCURRENCY.
  destruct (n <? 1); [eauto |]. destruct (500 <? n); eauto.
Qed.




End BroadcastFormFacts.

(** ** validate_recipients *)

Section ValidateRecipients.

Import Forms Mailer.

Lemma validate_recipients_fold (addresses : list string) :
  ∀ valid records,
    foldl validate_recipients_step (valid, records) addresses
    = (valid ++ (Py.strip <$> filter (λ a, Py.has_char "@" a = true) addresses),
       records ++ (skipped <$> filter (λ a, Py.has_char "@" a ≠ true) addresses)).
Proof.
  induction addresses as [|a addresses IH]; intros valid records; simpl.
  - by rewrite !app_nil_r.
  - unfold validate_recipients_step at 2. simpl.
    rewrite contains_char, has_char_strip by done.
    rewrite !filter_cons.
    destruct (Py.has_char "@" a) eqn:Ha.
    + rewrite decide_True, decide_False by congruence.
      rewrite IH. by rewrite <- app_assoc.
    + rewrite decide_False, decide_True by congruence.
      rewrite IH. by rewrite <- app_assoc.
Qed.


End ValidateRecipients.

(** ** The semaphore queue *)

Section Wake.

Import Mailer.

Variable build : string → EmailMessage.

Lemma wake_zero (ws : list worker) : wake build 0 ws = (0%nat, ws, []).
Proof.
  induction ws as [|w ws IH]; simpl; [done |].
  rewrite IH. by destruct (state w).
Qed.

Lemma wake_woke (ws : list worker) :
  ∀ v v' ws' st, wake build v ws = (v', ws', st) → Forall2 woke ws ws'.
Proof.
  induction ws as [|w ws IH]; simpl; intros v v' ws' st E.
  - simplify_eq. constructor.
  - destruct (state w) eqn:Hw, v as [|v];
      destruct (wake build _ ws) as [[v1 ws1] st1] eqn:E1; simplify_eq;
      (constructor; [|by eapply IH]); split; simpl; auto.
Qed.

Lemma wake_budget (ws : list worker) :
  ∀ v v' ws' st, wake build v ws = (v', ws', st) →
    (v' + sending ws' = v + sending ws)%nat.
Proof.
  induction ws as [|w ws IH]; simpl; intros v v' ws' st E.
  - by simplify_eq.
  - destruct (state w) eqn:Hw, v as [|v];
      destruct (wake build _ ws) as [[v1 ws1] st1] eqn:E1; simplify_eq;
      apply IH in E1; unfold sending, is_sending in *; rewrite !filter_cons;
      simpl; rewrite ?Hw; repeat case_decide; simpl; try done; lia.
Qed.

Lemma wake_queue (ws : list worker) :
  ∀ v v' ws' st, wake build v ws = (v', ws', st) →
    (0 < v')%nat → Forall (λ w, is_waiting w = false) ws'.
Proof.
  induction ws as [|w ws IH]; simpl; intros v v' ws' st E Hv.
  - simplify_eq. constructor.
  - destruct (state w) eqn:Hw, v as [|v];
      try (rewrite wake_zero in E; simplify_eq; lia);
      destruct (wake build _ ws) as [[v1 ws1] st1] eqn:E1; simplify_eq;
      (constructor; [|by eapply IH]); unfold is_waiting; simpl; by rewrite ?Hw.
Qed.

Lemma wake_calls (ws : list worker) :
  ∀ v v' ws' st, wake build v ws = (v', ws', st) →
    build <$> attempted ws' ≡ₚ (build <$> attempted ws) ++ st.
Proof.
  unfold attempted.
  induction ws as [|w ws IH]; simpl; intros v v' ws' st E.
  - by simplify_eq.
  - destruct (state w) eqn:Hw, v as [|v];
      destruct (wake build _ ws) as [[v1 ws1] st1] eqn:E1; simplify_eq;
      apply IH in E1; unfold is_waiting in *; rewrite !filter_cons;
      simpl; rewrite ?Hw; repeat case_decide; simpl; try done; try (by rewrite E1).
    rewrite E1. apply Permutation_middle.
Qed.

(** Waking changes no finished worker. *)
Lemma woke_is_done w w' : woke w w' → is_done w' = is_done w.
Proof.
  intros [_ [->|[H1 H2]]]; [done |]. unfold is_done. by rewrite H1, H2.
Qed.

Lemma woke_is_failed w w' : woke w w' → is_failed w' = is_failed w.
Proof.
  intros [_ [->|[H1 H2]]]; [done |]. unfold is_failed. by rewrite H1, H2.
Qed.

Lemma woke_terminal w w' : woke w w' → is_terminal w = true → w' = w.
Proof.
  intros [_ [->|[H1 H2]]]; [done |]. unfold is_terminal, is_done, is_failed.
  by rewrite H1.
Qed.

Lemma woke_terminal_r w w' : woke w w' → is_terminal w' = true → w' = w.
Proof.
  intros [_ [->|[H1 H2]]]; [done |]. unfold is_terminal, is_done, is_failed.
  by rewrite H2.
Qed.

Lemma woke_forallb_done ws ws' :
  Forall2 woke ws ws' → forallb is_done ws' = forallb is_done ws.
Proof.
  induction 1 as [|w w' ws ws' Hw _ IH]; simpl; [done |].
  by rewrite IH, (woke_is_done w w').
Qed.

Lemma woke_forallb_terminal ws ws' :
  Forall2 woke ws ws' → forallb is_terminal ws' = forallb is_terminal ws.
Proof.
  induction 1 as [|w w' ws ws' Hw _ IH]; simpl; [done |].
  rewrite IH. unfold is_terminal.
  by rewrite (woke_is_done w w'), (woke_is_failed w w').
Qed.

Lemma woke_no_failed ws ws' :
  Forall2 woke ws ws' →
  Forall (λ w, is_failed w = false) ws → Forall (λ w, is_failed w = false) ws'.
Proof.
  induction 1 as [|w w' ws ws' Hw _ IH]; [done |].
  intros [H1 H2]%Forall_cons. constructor; [|auto].
  by rewrite (woke_is_failed w w').
Qed.

Lemma woke_addresses ws ws' :
  Forall2 woke ws ws' → address <$> ws' = address <$> ws.
Proof.
  induction 1 as [|w w' ws ws' [Hw _] _ IH]; csimpl; [done |].
  by rewrite IH, Hw.
Qed.

Lemma woke_delivered ws ws' :
  Forall2 woke ws ws' →
  address <$> filter (λ w, is_done w = true) ws'
  = address <$> filter (λ w, is_done w = true) ws.
Proof.
  induction 1 as [|w w' ws ws' Hw _ IH]; [done |].
  rewrite !filter_cons, (woke_is_done w w') by done.
  destruct Hw as [Ha _]. case_decide; csimpl; by rewrite IH, ?Ha.
Qed.

End Wake.

(** ** The invariant of the event loop *)

Section Finish.

Import Mailer.

Lemma lookup_split {A} (l : list A) (i : nat) (x : A) :
  l !! i = Some x →
  ∃ l1 l2, l = l1 ++ x :: l2 ∧ length l1 = i ∧ ∀ y, <[i:=y]> l = l1 ++ y :: l2.
Proof.
  intros Hi. exists (take i l), (drop (S i) l).
  pose proof (lookup_lt_Some _ _ _ Hi) as Hlt.
  split; [by rewrite take_drop_middle |].
  split; [rewrite length_take; lia |].
  intros y. by apply insert_take_drop.
Qed.

Lemma sending_state w : is_sending w = true → state w = Sending.
Proof. unfold is_sending. by destruct (state w). Qed.

(** A worker that finishes leaves the transport; it was and stays attempted. *)
Lemma finish_sending l1 l2 w w' :
  is_sending w = true → is_sending w' = false →
  S (sending (l1 ++ w' :: l2)) = sending (l1 ++ w :: l2).
Proof.
  intros Hw Hw'. unfold sending.
  rewrite !filter_app, !filter_cons, !length_app.
  rewrite (decide_True (P := is_sending w = true)) by done.
  rewrite (decide_False (P := is_sending w' = true)) by congruence.
  simpl. lia.
Qed.

Lemma finish_attempted l1 l2 w w' :
  is_sending w = true → is_waiting w' = false → address w' = address w →
  attempted (l1 ++ w' :: l2) = attempted (l1 ++ w :: l2).
Proof.
  intros Hw Hw' Ha. unfold attempted.
  assert (is_waiting w = false) as Hnw
    by (unfold is_waiting; by rewrite (sending_state w)).
  rewrite !filter_app, !filter_cons, !decide_True by done.
  rewrite !fmap_app, !fmap_cons. by rewrite Ha.
Qed.

Lemma finish_delivered l1 l2 w w' :
  is_sending w = true → address w' = address w →
  address <$> filter (λ x, is_done x = true) (l1 ++ w' :: l2)
  ≡ₚ (if is_done w' then [address w] else [])
     ++ (address <$> filter (λ x, is_done x = true) (l1 ++ w :: l2)).
Proof.
  intros Hw Ha.
  assert (is_done w = false) as Hnd
    by (unfold is_done; by rewrite (sending_state w)).
  rewrite !filter_app, !filter_cons, !fmap_app.
  rewrite (decide_False (P := is_done w = true)) by congruence.
  destruct (is_done w') eqn:Hd.
  - rewrite decide_True by done. rewrite fmap_cons, Ha. simpl.
    symmetry. apply Permutation_middle.
  - by rewrite decide_False by congruence.
Qed.

Lemma forallb_lookup (f : worker → bool) ws i (w : worker) :
  forallb f ws = true → ws !! i = Some w → f w = true.
Proof.
  revert i. induction ws as [|x ws IH]; intros [|i]; simpl; try done;
    intros [H1 H2]%andb_true_iff Hi; simplify_eq; eauto.
Qed.

Lemma forallb_terminal_no_failed ws :
  forallb is_terminal ws = true →
  Forall (λ w, is_failed w = false) ws → forallb is_done ws = true.
Proof.
  induction ws as [|w ws IH]; simpl; [done |].
  intros [Hw Hws]%andb_true_iff [Hf Hfs]%Forall_cons.
  unfold is_terminal in Hw. rewrite Hf, orb_false_r in Hw.
  by rewrite Hw, IH.
Qed.

End Finish.

Section EventLoop.

Import Mailer.

Variable settings : Config.SMTPSettings.
Variable default_concurrency : Z.
Variable message : Message.BroadcastMessage.
Variable tr : transport.
Variable progress_hook : bool.
Variable recipients : list string.
Variable concurrency : option Z.

Local Abbreviation build := (build_message settings message).
Local Abbreviation limit := (Z.to_nat (effective_limit default_concurrency concurrency)).
Local Abbreviation start := (send_async settings default_concurrency message recipients concurrency).
Local Abbreviation Inv := (loop_inv build tr progress_hook recipients limit).
Local Abbreviation Reachable :=
  (reachable settings default_concurrency message tr progress_hook recipients concurrency).

Lemma limit_positive : (1 ≤ limit)%nat.
Proof. unfold effective_limit. lia. Qed.

Lemma queue_fresh (l : list string) :
  let ws := (λ a, {| address := a; state := Waiting |}) <$> l in
  address <$> ws = l ∧ sending ws = 0%nat ∧ attempted ws = [] ∧
  filter (λ w, is_done w = true) ws = [] ∧
  Forall (λ w, state w = Waiting) ws.
Proof.
  induction l as [|a l (IH1 & IH2 & IH3 & IH4 & IH5)]; [done |].
  unfold sending, attempted in *. csimpl.
  rewrite !filter_cons. simpl. rewrite IH1, IH2, IH3, IH4.
  repeat split; try done. by constructor.
Qed.

Lemma send_async_inv : Inv start.
Proof.
  unfold send_async.
  destruct (queue_fresh recipients) as (Ha & Hs & Hat & Hd & Hst).
  destruct (wake _ _ _) as [[v ws] st] eqn:E.
  pose proof (wake_woke _ _ _ _ _ _ E) as Hwoke.
  split; simpl.
  - by rewrite (woke_addresses _ _ Hwoke).
  - unfold in_flight. simpl. apply wake_budget in E. rewrite Hs in E. lia.
  - by eapply wake_queue.
  - apply wake_calls in E. rewrite Hat in E. by rewrite E.
  - unfold delivered. simpl. rewrite (woke_delivered _ _ Hwoke), Hd.
    by destruct progress_hook.
  - intros i w' Hi.
    destruct (Forall2_lookup_r _ _ _ _ _ Hwoke Hi) as (w & Hw & Hww').
    rewrite Forall_lookup in Hst. specialize (Hst _ _ Hw).
    unfold answered. destruct Hww' as [_ [->|[_ ->]]]; [by rewrite Hst | done].
  - destruct (forallb is_done ws) eqn:Hall; [done |]. split; [|done].
    apply (woke_no_failed _ _ Hwoke).
    eapply Forall_impl; [exact Hst |]. intros w Hw. unfold is_failed. by rewrite Hw.
Qed.

Lemma complete_inv i s s' :
  Inv s → complete settings message tr progress_hook i s = Some s' → Inv s'.
Proof.
  intros [Ha Hs Hq Hc Hp Han Hr]. unfold complete.
  destruct (workers s !! i) as [w|] eqn:Hi; [|done].
  destruct (is_sending w) eqn:Hw; [|done].
  destruct (lookup_split _ _ _ Hi) as (l1 & l2 & Hws & Hlen & Hins).
  set (answer := tr i (build (address w))) in *.
  assert (answered build tr i
            {| address := address w;
               state := match answer with None => Done | Some e => Failed e end |})
    as Hanswer by (unfold answered; simpl; fold answer; by destruct answer).
  unfold send_one. fold answer.
  set (w' := {| address := address w;
                state := match answer with None => Done | Some e => Failed e end |}) in *.
  assert (is_sending w' = false ∧ is_waiting w' = false ∧ is_terminal w' = true ∧
          is_done w' = match answer with Some _ => false | None => true end)
    as (Hs' & Hw' & Ht' & Hd')
    by (unfold w'; by destruct answer).
  assert (∃ v ws st, wake build (S (sem s)) (<[i:=w']> (workers s)) = (v, ws, st))
    as (v & ws & st & E) by (destruct (wake _ _ _) as [[? ?] ?]; eauto).
  pose proof (wake_woke _ _ _ _ _ _ E) as Hwoke.
  intros Hs'eq.
  assert (workers s' = ws ∧ sem s' = v ∧ calls s' = calls s ++ st ∧
          progress s' = (if is_done w' then
                           if progress_hook then progress s ++ [address w] else progress s
                         else progress s) ∧
          result s' = match result s, answer with
                      | Pending, Some e => Raised e
                      | Pending, None => if forallb is_done ws then Returned else Pending
                      | o, _ => o
                      end) as (Ews & Esem & Ecalls & Eprog & Eres).
  { destruct answer; fold w' in Hs'eq; rewrite E in Hs'eq; simplify_eq; by rewrite ?Hd'. }
  clear Hs'eq.
  split.
  - rewrite Ews, (woke_addresses _ _ Hwoke), Hins, <- Ha, Hws.
    by rewrite !fmap_app, !fmap_cons.
  - unfold in_flight in *. rewrite Ews, Esem.
    apply wake_budget in E. rewrite Hins in E.
    pose proof (finish_sending l1 l2 w w' Hw Hs') as Hfin.
    rewrite Hws in Hs. lia.
  - rewrite Ews, Esem. by eapply wake_queue.
  - rewrite Ews, Ecalls. apply wake_calls in E. rewrite E, Hc.
    by rewrite Hins, Hws, (finish_attempted l1 l2 w w').
  - rewrite Eprog. unfold delivered in *. rewrite Ews.
    rewrite (woke_delivered _ _ Hwoke), Hins.
    destruct progress_hook; [|by destruct (is_done w')].
    rewrite (finish_delivered l1 l2 w w') by done. rewrite <- Hws.
    destruct (is_done w'); simpl; [|done].
    rewrite Hp. symmetry. apply Permutation_cons_append.
  - intros j x Hj. rewrite Ews in Hj.
    destruct (Forall2_lookup_r _ _ _ _ _ Hwoke Hj) as (y & Hy & Hyx).
    destruct (is_terminal x) eqn:Hx.
    + rewrite (woke_terminal_r _ _ Hyx Hx).
      destruct (decide (i = j)) as [<-|Hne].
      * rewrite list_lookup_insert_eq in Hy by (by eapply lookup_lt_Some).
        by simplify_eq.
      * rewrite list_lookup_insert_ne in Hy by done. by apply Han.
    + unfold answered. unfold is_terminal, is_done, is_failed in Hx.
      by destruct (state x).
  - rewrite Eres, Ews.
    assert (<[i:=w']> (workers s) !! i = Some w') as Hiw'
      by (apply list_lookup_insert_eq; by eapply lookup_lt_Some).
    destruct (result s) as [| |e0] eqn:Hres.
    + destruct Hr as [Hnf Hnd]. destruct answer as [e|] eqn:Hans.
      * destruct (Forall2_lookup_l _ _ _ _ _ Hwoke Hiw') as (x & Hx & Hw'x).
        exists i, x. split; [done |].
        rewrite (woke_terminal _ _ Hw'x Ht'). done.
      * destruct (forallb is_done ws) eqn:Hall; [done |]. split; [|done].
        apply (woke_no_failed _ _ Hwoke). rewrite Hins.
        rewrite Hws in Hnf. apply Forall_app in Hnf as [Hnf1 Hnf2].
        apply Forall_cons in Hnf2 as [_ Hnf2].
        apply Forall_app. split; [done |]. by constructor.
    + pose proof (forallb_lookup _ _ _ _ Hr Hi) as Hdone.
      unfold is_done in Hdone. by rewrite (sending_state w) in Hdone.
    + destruct Hr as (j & x & Hj & Hx).
      assert (i ≠ j) as Hne.
      { intros <-. assert (x = w) as -> by congruence.
        by rewrite (sending_state w) in Hx. }
      assert (<[i:=w']> (workers s) !! j = Some x) as Hj'
        by (by rewrite list_lookup_insert_ne).
      destruct (Forall2_lookup_l _ _ _ _ _ Hwoke Hj') as (y & Hy & Hxy).
      exists j, y. split; [done |].
      rewrite (woke_terminal _ _ Hxy); [done |].
      unfold is_terminal, is_failed. by rewrite Hx, orb_true_r.
Qed.

(** Every state of the loop satisfies the invariant. *)
Lemma reachable_inv s : Reachable s → Inv s.
Proof.
  induction 1 as [|s s' _ IH Hstep]; [apply send_async_inv |].
  destruct Hstep as [i s s' Hc]. by eapply complete_inv.
Qed.

End EventLoop.

(** ** Progress of the event loop *)

Section Liveness.

Import Mailer.

Variable settings : Config.SMTPSettings.
Variable default_concurrency : Z.
Variable message : Message.BroadcastMessage.
Variable tr : transport.
Variable progress_hook : bool.
Variable recipients : list string.
Variable concurrency : option Z.

Local Abbreviation build := (build_message settings message).
Local Abbreviation limit := (Z.to_nat (effective_limit default_concurrency concurrency)).
Local Abbreviation Inv := (loop_inv build tr progress_hook recipients limit).
Local Abbreviation Reachable :=
  (reachable settings default_concurrency message tr progress_hook recipients concurrency).
Local Abbreviation complete := (Mailer.complete settings message tr progress_hook).
Local Abbreviation run := (Mailer.run settings message tr progress_hook).

Lemma sending_pick (ws : list worker) :
  sending ws = 0%nat ∨ ∃ i w, ws !! i = Some w ∧ is_sending w = true.
Proof.
  induction ws as [|w ws [IH|(i & x & Hi & Hx)]].
  - by left.
  - destruct (is_sending w) eqn:Hw.
    + right. by exists 0%nat, w.
    + left. unfold sending in *. by rewrite filter_cons, decide_False by congruence.
  - right. by exists (S i), x.
Qed.

Lemma idle_terminal (ws : list worker) :
  Forall (λ w, is_waiting w = false) ws → sending ws = 0%nat →
  forallb is_terminal ws = true.
Proof.
  induction 1 as [|w ws Hw _ IH]; [done |].
  unfold sending in *. rewrite filter_cons. simpl.
  destruct (decide (is_sending w = true)) as [|Hs]; [done |].
  intros H0. rewrite IH by done.
  unfold is_terminal, is_done, is_failed, is_waiting, is_sending in *.
  by destruct (state w).
Qed.

Lemma complete_sending i s w :
  workers s !! i = Some w → is_sending w = true → ∃ s', complete i s = Some s'.
Proof.
  intros Hi Hw. unfold Mailer.complete. rewrite Hi, Hw.
  destruct (send_one _ _) as [records exc].
  destruct (wake _ _ _) as [[v ws] st]. eauto.
Qed.

(** While a worker is unfinished, some transport call is outstanding: the
  loop is never stuck. *)
Lemma can_step s :
  Inv s → all_terminal s = false → ∃ i s', complete i s = Some s'.
Proof.
  intros HI Hnt.
  destruct (sending_pick (workers s)) as [H0|(i & w & Hi & Hw)].
  - exfalso. pose proof (inv_sem _ _ _ _ _ _ HI) as Hsem.
    unfold in_flight in Hsem. rewrite H0 in Hsem.
    assert (0 < sem s)%nat as Hpos by (unfold effective_limit in Hsem; lia).
    pose proof (inv_queue _ _ _ _ _ _ HI Hpos) as Hq.
    unfold all_terminal in Hnt. by rewrite idle_terminal in Hnt.
  - exists i. by eapply complete_sending.
Qed.

Lemma woke_unfinished ws ws' :
  Forall2 woke ws ws' → unfinished ws' = unfinished ws.
Proof.
  unfold unfinished.
  induction 1 as [|w w' ws ws' Hw _ IH]; [done |].
  rewrite !filter_cons.
  assert (is_terminal w' = is_terminal w) as ->
    by (unfold is_terminal; by rewrite (woke_is_done w w'), (woke_is_failed w w')).
  case_decide; simpl; by rewrite IH.
Qed.

(** Every step finishes exactly one worker. *)
Lemma complete_unfinished i s s' :
  complete i s = Some s' → S (unfinished (workers s')) = unfinished (workers s).
Proof.
  unfold Mailer.complete.
  destruct (workers s !! i) as [w|] eqn:Hi; [|done].
  destruct (is_sending w) eqn:Hw; [|done].
  destruct (lookup_split _ _ _ Hi) as (l1 & l2 & Hws & Hlen & Hins).
  destruct (send_one _ _) as [records exc].
  destruct (wake _ _ _) as [[v ws] st] eqn:E.
  intros ?; simplify_eq. simpl.
  apply wake_woke in E. rewrite (woke_unfinished _ _ E), Hins, Hws.
  unfold unfinished. rewrite !filter_app, !filter_cons, !length_app.
  rewrite (decide_True (P := is_terminal w = false))
    by (unfold is_terminal, is_done, is_failed; by rewrite (sending_state w)).
  destruct exc; simpl; lia.
Qed.

Lemma unfinished_zero ws : unfinished ws = 0%nat ↔ forallb is_terminal ws = true.
Proof.
  unfold unfinished. induction ws as [|w ws IH]; [done |].
  rewrite filter_cons. cbn [forallb]. destruct (is_terminal w) eqn:Hw.
  - by rewrite decide_False by congruence.
  - rewrite decide_True by done. simpl. split; [lia | done].
Qed.

Lemma run_reachable order : ∀ s s',
  Reachable s → run order s = Some s' → Reachable s'.
Proof.
  induction order as [|i order IH]; simpl; intros s s' Hs Hrun.
  - by simplify_eq.
  - destruct (complete i s) as [s1|] eqn:Hc; [|done].
    eapply IH; [|exact Hrun]. eapply reach_step; [exact Hs |]. by econstructor.
Qed.

Lemma run_inv order : ∀ s s', Inv s → run order s = Some s' → Inv s'.
Proof.
  induction order as [|i order IH]; simpl; intros s s' Hs Hrun.
  - by simplify_eq.
  - destruct (complete i s) as [s1|] eqn:Hc; [|done].
    eapply IH; [|exact Hrun]. by eapply complete_inv.
Qed.

(** From every state the loop can be run until all workers have finished,
  and it takes exactly as many steps as workers are unfinished. *)
Lemma run_to_end s :
  Inv s → ∃ order s',
    run order s = Some s' ∧ all_terminal s' = true ∧
    length order = unfinished (workers s).
Proof.
  remember (unfinished (workers s)) as n eqn:Hn. revert s Hn.
  induction n as [|n IH]; intros s Hn HI.
  - exists [], s. split; [done |]. split; [|done]. by apply unfinished_zero.
  - destruct (can_step s HI) as (i & s1 & Hc).
    { destruct (all_terminal s) eqn:Ht; [|done].
      apply unfinished_zero in Ht. lia. }
    destruct (IH s1) as (order & s' & Hrun & Ht & Hlen).
    + apply complete_unfinished in Hc. lia.
    + by eapply complete_inv.
    + exists (i :: order), s'. simpl. rewrite Hc. split; [done |]. split; [done | lia].
Qed.

End Liveness.

(** ** The bulk mailer *)

Section BulkMailer.

Import Mailer.

Variable settings : Config.SMTPSettings.
Variable default_concurrency : Z.
Variable message : Message.BroadcastMessage.

Local Abbreviation build := (build_message settings message).

Lemma To_build (l : list string) : To <$> (build <$> l) = l.
Proof. induction l as [|a l IH]; csimpl; [done | by rewrite IH]. Qed.

Lemma attempted_terminal ws :
  forallb is_terminal ws = true → attempted ws = address <$> ws.
Proof.
  unfold attempted. induction ws as [|w ws IH]; [done |].
  cbn [forallb]. intros [Hw Hws]%andb_true_iff.
  rewrite filter_cons, decide_True.
  - csimpl. by rewrite IH.
  - unfold is_terminal, is_done, is_failed, is_waiting in *. by destruct (state w).
Qed.

Lemma terminal_state w :
  is_terminal w = true → state w = Done ∨ ∃ e, state w = Failed e.
Proof.
  unfold is_terminal, is_done, is_failed. destruct (state w); eauto; done.
Qed.

(** Once every worker has finished, the state of each one is what the
  transport answered to it. *)
Lemma final_states tr hook recipients limit s :
  loop_inv build tr hook recipients limit s → all_terminal s = true →
  ∀ i w, workers s !! i = Some w →
    state w = match tr i (build (address w)) with
              | None => Done
              | Some e => Failed e
              end.
Proof.
  intros HI Ht i w Hi.
  pose proof (inv_answers _ _ _ _ _ _ HI i w Hi) as Ha. unfold answered in Ha.
  destruct (terminal_state w (forallb_lookup _ _ _ _ Ht Hi)) as [Hw|[e Hw]];
    rewrite Hw in *; by rewrite Ha.
Qed.

(** A worker that failed makes the call raise. *)
Lemma failed_raises tr hook recipients limit s i w e :
  loop_inv build tr hook recipients limit s →
  workers s !! i = Some w → state w = Failed e → ∃ e', result s = Raised e'.
Proof.
  intros HI Hi Hw. pose proof (inv_result _ _ _ _ _ _ HI) as Hr.
  destruct (result s) as [| |e']; [| |eauto].
  - destruct Hr as [Hnf _]. rewrite Forall_lookup in Hnf.
    specialize (Hnf _ _ Hi). unfold is_failed in Hnf. by rewrite Hw in Hnf.
  - pose proof (forallb_lookup _ _ _ _ Hr Hi) as Hd.
    unfold is_done in Hd. by rewrite Hw in Hd.
Qed.

(** The number of deliveries when exactly position [k] is refused. *)
Lemma delivered_all_but_one (k : nat) (ws : list worker) :
  ∀ off,
    (∀ i w, ws !! i = Some w → is_done w = negb (off + i =? k)%nat) →
    (length (filter (λ w, is_done w = true) ws)
     + (if decide (off ≤ k < off + length ws)%nat then 1 else 0)
     = length ws)%nat.
Proof.
  induction ws as [|w ws IH]; intros off Hws.
  - simpl. case_decide; lia.
  - rewrite filter_cons. cbn [length].
    pose proof (Hws 0%nat w eq_refl) as Hw. rewrite Nat.add_0_r in Hw.
    assert (∀ i x, ws !! i = Some x → is_done x = negb (S off + i =? k)%nat) as Hws'.
    { intros i x Hx. replace (S off + i)%nat with (off + S i)%nat by lia.
      by apply (Hws (S i)). }
    specialize (IH _ Hws').
    destruct (off =? k)%nat eqn:Hk; simpl in Hw.
    + apply Nat.eqb_eq in Hk. rewrite decide_False by congruence.
      repeat case_decide; lia.
    + apply Nat.eqb_neq in Hk. rewrite decide_True by done. simpl.
      repeat case_decide; lia.
Qed.

Lemma wake_fresh_sending (l : list string) :
  ∀ v v' ws st,
    wake build v ((λ a, {| address := a; state := Waiting |}) <$> l) = (v', ws, st) →
    sending ws = (v `min` length l)%nat.
Proof.
  induction l as [|a l IH]; intros v v' ws st E.
  - simpl in E. simplify_eq. unfold sending. simpl. lia.
  - destruct v as [|v].
    + rewrite wake_zero in E. simplify_eq.
      by destruct (queue_fresh (a :: l)) as (_ & -> & _).
    + csimpl in E. destruct (wake build v _) as [[v1 ws1] st1] eqn:E1.
      simplify_eq. apply IH in E1. unfold sending in *.
      rewrite filter_cons, decide_True by done. simpl. by rewrite E1.
Qed.

Variable tr : transport.
Variable recipients : list string.
Variable concurrency : option Z.

Local Abbreviation limit := (Z.to_nat (effective_limit default_concurrency concurrency)).
Local Abbreviation start :=
  (send_async settings default_concurrency message recipients concurrency).
Local Abbreviation Reachable hook :=
  (reachable settings default_concurrency message tr hook recipients concurrency).

(** What a step does to the outcome of the call. *)
Lemma complete_result hook i s s' :
  complete settings message tr hook i s = Some s' →
  ∃ w, workers s !! i = Some w ∧ is_sending w = true ∧
       result s' = match result s, tr i (build (address w)) with
                   | Pending, Some e => Raised e
                   | Pending, None =>
                       if forallb is_done (workers s') then Returned else Pending
                   | o, _ => o
                   end.
Proof.
  unfold complete.
  destruct (workers s !! i) as [w|] eqn:Hi; [|done].
  destruct (is_sending w) eqn:Hw; [|done].
  destruct (send_one _ _) as [records exc] eqn:Hsend.
  destruct (wake _ _ _) as [[v ws] st] eqn:E.
  intros ?; simplify_eq. exists w. split; [done |]. split; [done |]. simpl.
  unfold send_one in Hsend.
  destruct (tr i (build (address w))); by simplify_eq.
Qed.




Lemma terminal_not_pending hook limit' (s : loop) :
  loop_inv build tr hook recipients limit' s → all_terminal s = true →
  result s ≠ Pending.
Proof.
  intros HI Ht Hp. pose proof (inv_result _ _ _ _ _ _ HI) as Hr.
  rewrite Hp in Hr. destruct Hr as [Hnf Hnd].
  by rewrite (forallb_terminal_no_failed _ Ht Hnf) in Hnd.
Qed.


(** C3, as the code has it: [_send_one] tells two kinds of transport error
  apart, by the text of the error: an authentication failure, for which it
  logs guidance, and anything else, for which it logs nothing.  In both cases
  it raises the error again.  Nothing is recorded next to the address; the
  worker fails, and [send_async] raises that error if it had not finished. *)
Theorem send_one_reraises (hook : bool) (error_msg : string) :
  (∀ recipient,
     send_one (Some error_msg) recipient
     = (if is_auth_failure error_msg then [auth_guidance] else [], Some error_msg)) ∧
  (is_auth_failure error_msg = true ↔
   Py.contains "535" error_msg = true ∨
   Py.contains "BadCredentials" error_msg = true ∨
   Py.contains "not accepted" error_msg = true) ∧
  (∀ i s s' w,
     workers s !! i = Some w → is_sending w = true →
     tr i (build (address w)) = Some error_msg →
     complete settings message tr hook i s = Some s' →
     result s' = match result s with Pending => Raised error_msg | o => o end ∧
     log s' = log s ++ (if is_auth_failure error_msg then [auth_guidance] else []) ∧
     progress s' = progress s ∧
     ∃ w', workers s' !! i = Some w' ∧ state w' = Failed error_msg ∧
           address w' = address w).
Proof.
  split; [done |]. split.
  - unfold is_auth_failure. rewrite !orb_true_iff. tauto.
  - intros i s s' w Hi Hw Htr. unfold complete. rewrite Hi, Hw, Htr. simpl.
    destruct (wake _ _ _) as [[v ws] st] eqn:E. intros ?; simplify_eq. simpl.
    split; [by destruct (result s) |].
    split; [by destruct (result s); rewrite ?app_nil_r |].
    split; [done |].
    apply wake_woke in E.
    assert (<[i:={| address := address w; state := Failed error_msg |}]> (workers s) !! i
            = Some {| address := address w; state := Failed error_msg |}) as Hins
      by (apply list_lookup_insert_eq; by eapply lookup_lt_Some).
    destruct (Forall2_lookup_l _ _ _ _ _ E Hins) as (x & Hx & Hwx).
    exists x. split; [done |]. by rewrite (woke_terminal _ _ Hwx).
Qed.

End BulkMailer.

(** ** The broadcast to ten recipients of which the fifth is refused *)

Section TenRecipients.

Import Mailer.

Lemma demo_reachable hook order s :
  demo_run hook order = Some s →
  reachable demo_settings 50 demo_message refuse_fifth hook ten_recipients (Some 3) s.
Proof.
  intros Hrun. eapply run_reachable; [apply reach_start | exact Hrun].
Defined.








Lemma send_one_reraises_witness :
  ∃ s, demo_run true [0; 1; 2; 3; 4]%nat = Some s ∧
       result s = Raised "550 mailbox unavailable" ∧
       ∃ w', workers s !! 4%nat = Some w' ∧ state w' = Failed "550 mailbox unavailable".
Proof.
  destruct (demo_run true [0; 1; 2; 3]%nat) as [s4|] eqn:H4; [|vm_compute in H4; discriminate H4].
  destruct (send_one_reraises demo_settings demo_message refuse_fifth true
              "550 mailbox unavailable") as (_ & _ & Hstep).
  assert (∃ w, workers s4 !! 4%nat = Some w ∧ is_sending w = true ∧
               address w = "r5@x.com" ∧ result s4 = Pending) as (w & Hw & Hs & Ha & Hp).
  { vm_compute in H4. injection H4 as <-. eexists. repeat split; reflexivity. }
  destruct (complete_sending demo_settings demo_message refuse_fifth true 4%nat s4 w Hw Hs)
    as [s5 Hc].
  destruct (Hstep 4%nat s4 s5 w Hw Hs eq_refl Hc) as (Hres & _ & _ & w' & Hw' & Hst & _).
  exists s5. split.
  - change (demo_run true [0; 1; 2; 3; 4]%nat)
      with (demo_run true ([0; 1; 2; 3] ++ [4])%nat).
    unfold demo_run in *. revert H4 Hc. generalize demo_start.
    generalize [0; 1; 2; 3]%nat. intros order. induction order as [|i order IH];
      simpl; intros s0 H0 Hc.
    + simplify_eq. by rewrite Hc.
    + destruct (complete _ _ _ _ i s0); [by apply IH | done].
  - split; [by rewrite Hres, Hp |]. eauto.
Defined.

(** C3 as stated fails: a timeout and a rejected recipient are not told
  apart (neither is logged nor classified), no reason is stored with the
  address, and the error of the first attempt ends the call of [send_async]
  while the second recipient is still being sent to. *)
Lemma send_one_reraises_counterexample :
  send_one (Some "Timed out connecting to smtp.gmail.com") "a@x.com"
  = ([], Some "Timed out connecting to smtp.gmail.com") ∧
  send_one (Some "550 5.1.1 user unknown") "a@x.com"
  = ([], Some "550 5.1.1 user unknown") ∧
  ∃ s, run demo_settings demo_message
           (fails_at 0 "Timed out connecting to smtp.gmail.com") false [0%nat]
           (send_async demo_settings 50 demo_message ["a@x.com"; "b@x.com"] (Some 1))
       = Some s ∧
       result s = Raised "Timed out connecting to smtp.gmail.com" ∧
       state <$> workers s = [Failed "Timed out connecting to smtp.gmail.com"; Sending] ∧
       length (log s) = 1%nat.
Proof.
  split; [vm_compute; reflexivity |]. split; [vm_compute; reflexivity |].
  eexists. split; [vm_compute; reflexivity |].
  split; [vm_compute; reflexivity |]. split; vm_compute; reflexivity.
Qed.

End TenRecipients.

(** * Further properties *)

(** ** Trimming and lower-casing *)

Section Normalisation.

Lemma isspace_lower_char c : Py.isspace (Py.lower_char c) = Py.isspace c.
Proof. by destruct c as [[] [] [] [] [] [] [] []]. Qed.

Lemma is_sep_lower_char c : Py.is_sep (Py.lower_char c) = Py.is_sep c.
Proof. by destruct c as [[] [] [] [] [] [] [] []]. Qed.

Lemma lower_char_idem c : Py.lower_char (Py.lower_char c) = Py.lower_char c.
Proof. by destruct c as [[] [] [] [] [] [] [] []]. Qed.

Lemma lower_idem s : Py.lower (Py.lower s) = Py.lower s.
Proof. induction s as [|c s IH]; simpl; [done |]. by rewrite lower_char_idem, IH. Qed.

Lemma lstrip_lower s : Py.lstrip (Py.lower s) = Py.lower (Py.lstrip s).
Proof.
  induction s as [|c s IH]; simpl; [done |].
  rewrite isspace_lower_char. by destruct (Py.isspace c).
Qed.

Lemma rstrip_lower s : Py.rstrip (Py.lower s) = Py.lower (Py.rstrip s).
Proof.
  induction s as [|c s IH]; simpl; [done |].
  rewrite IH, isspace_lower_char.
  destruct (Py.rstrip s); simpl; [by destruct (Py.isspace c) | done].
Qed.

Lemma strip_lower s : Py.strip (Py.lower s) = Py.lower (Py.strip s).
Proof. unfold Py.strip. by rewrite rstrip_lower, lstrip_lower. Qed.

Lemma lstrip_idem s : Py.lstrip (Py.lstrip s) = Py.lstrip s.
Proof.
  induction s as [|c s IH]; simpl; [done |].
  destruct (Py.isspace c) eqn:Hc; [done | simpl; by rewrite Hc].
Qed.

Lemma rstrip_idem s : Py.rstrip (Py.rstrip s) = Py.rstrip s.
Proof.
  induction s as [|c s IH]; simpl; [done |].
  destruct (Py.rstrip s) as [|d r] eqn:Hr.
  - destruct (Py.isspace c) eqn:Hc; simpl; [done | by rewrite Hc].
  - simpl in *. by rewrite IH.
Qed.

(** Trimming on the left keeps a string that has nothing to trim on the
  right that way. *)
Lemma rstrip_lstrip s : Py.rstrip s = s → Py.rstrip (Py.lstrip s) = Py.lstrip s.
Proof.
  induction s as [|c s IH]; [done |]. intros Hs.
  cbn [Py.lstrip]. destruct (Py.isspace c) eqn:Hc; [|exact Hs].
  apply IH. simpl in Hs. rewrite Hc in Hs.
  destruct (Py.rstrip s); [discriminate | congruence].
Qed.

Lemma strip_idem s : Py.strip (Py.strip s) = Py.strip s.
Proof.
  unfold Py.strip.
  rewrite (rstrip_lstrip (Py.rstrip s)) by apply rstrip_idem.
  apply lstrip_idem.
Qed.

Lemma normalize_idem t : Forms.normalize (Forms.normalize t) = Forms.normalize t.
Proof.
  unfold Forms.normalize. by rewrite strip_lower, lower_idem, strip_idem.
Qed.

Lemma lstrip_head s c r : Py.lstrip s = String c r → Py.isspace c = false.
Proof.
  induction s as [|d s IH]; simpl; [done |].
  destruct (Py.isspace d) eqn:Hd; [done |]. intros ?; by simplify_eq.
Qed.

Lemma len_take n s : Py.len (Py.take n s) = Z.min (Z.of_nat n) (Py.len s).
Proof.
  unfold Py.len. revert n. induction s as [|c s IH]; intros [|n]; simpl; try lia.
  specialize (IH n). lia.
Qed.

Lemma len_zero s : Py.len s = 0 ↔ s = EmptyString.
Proof. unfold Py.len. destruct s; simpl; split; intros; (done || lia). Qed.

Lemma truthy_len s : Py.truthy s = true ↔ 0 < Py.len s.
Proof.
  unfold Py.truthy, Py.len. destruct s; simpl; split; intros; (done || lia).
Qed.

End Normalisation.

(** ** BaseForm.sanitize_input *)

Section Sanitize.

Import Forms.

(** Whatever the bound, the result is a leading part of the trimmed value. *)
Lemma sanitize_input_prefix value max_length :
  ∃ k, sanitize_input value max_length = Py.take k (Py.strip value).
Proof.
  unfold sanitize_input, Py.slice_to.
  destruct max_length as [n|]; [|exists (String.length (Py.strip value)); by rewrite take_all].
  destruct (negb (n =? 0) && (n <? Py.len (Py.strip value)));
    [|exists (String.length (Py.strip value)); by rewrite take_all].
  destruct (0 <=? n); eauto.
Qed.

(** [sanitize_input] trims the value and then cuts it to at most [max_length]
  characters: the result is a leading part of the trimmed value, it never
  starts with whitespace, and under a positive bound it is never longer than
  the bound.  A bound of 0 is no bound at all, like [None]. *)
Theorem sanitize_input_bounds (value : string) :
  (∀ max_length c r,
     sanitize_input value max_length = String c r → Py.isspace c = false) ∧
  (∀ n, 0 < n →
     sanitize_input value (Some n) = Py.take (Z.to_nat n) (Py.strip value) ∧
     Py.len (sanitize_input value (Some n)) ≤ n) ∧
  sanitize_input value (Some 0) = Py.strip value ∧
  sanitize_input value None = Py.strip value.
Proof.
  split; [|split; [|done]].
  - intros max_length c r.
    destruct (sanitize_input_prefix value max_length) as [k ->].
    destruct k as [|k]; [done |].
    unfold Py.strip. destruct (Py.lstrip (Py.rstrip value)) as [|d t] eqn:Hl; [done |].
    simpl. intros ?; simplify_eq. by eapply lstrip_head.
  - intros n Hn. rewrite sanitize_input_bound by done.
    split; [done |]. rewrite len_take. lia.
Qed.

Lemma sanitize_input_bounds_witness :
  sanitize_input "  hello world  " (Some 7) = "hello w" ∧
  Py.len (sanitize_input "  hello world  " (Some 7)) ≤ 7.
Proof.
  destruct (sanitize_input_bounds "  hello world  ") as (_ & Hb & _).
  destruct (Hb 7) as [Heq Hlen]; [lia |].
  split; [rewrite Heq; vm_compute; reflexivity | exact Hlen].
Defined.

End Sanitize.

(** ** LoginForm *)

Section Login.

Import Forms.

Lemma truthy_ltb s : Py.truthy s = (0 <? Py.len s).
Proof. unfold Py.truthy, Py.len. by destruct s. Qed.

(** A form built by [__init__] validates exactly when the trimmed user name
  has at least 3 characters and the trimmed password at least 6.  The fields
  were cut to 100 and 128 characters on the way in, so the two
  [must be less than] errors can never be reported; a form either validates
  or carries an error, and validation changes neither field. *)
Theorem login_form_validate (formdata : option (gmap string string)) :
  let form := LoginForm_init formdata in
  let user := Py.strip (get_str (default ∅ formdata) "username") in
  let pass := Py.strip (get_str (default ∅ formdata) "password") in
  let result := LoginForm_validate form in
  username form = Py.take 100 user ∧
  password form = Py.take 128 pass ∧
  (result.1 = true ↔ 3 ≤ Py.len user ∧ 6 ≤ Py.len pass) ∧
  (result.1 = true ↔ lf_errors result.2 = ∅) ∧
  username result.2 = username form ∧
  password result.2 = password form ∧
  lf_errors result.2 !! "username"
    ≠ Some "Username must be less than 100 characters." ∧
  lf_errors result.2 !! "password"
    ≠ Some "Password must be less than 128 characters.".
Proof.
  intros form user pass result.
  assert (username form = Py.take 100 user) as Hu
    by (apply (sanitize_input_bound _ 100); lia).
  assert (password form = Py.take 128 pass) as Hp
    by (apply (sanitize_input_bound _ 128); lia).
  assert (Py.len (username form) = Z.min 100 (Py.len user)) as Hlu
    by (rewrite Hu, len_take; lia).
  assert (Py.len (password form) = Z.min 128 (Py.len pass)) as Hlp
    by (rewrite Hp, len_take; lia).
  split; [done |]. split; [done |].
  unfold result, LoginForm_validate, lf_has_errors.
  rewrite !truthy_ltb.
  unfold MAX_USERNAME_LENGTH, MAX_PASSWORD_LENGTH, MIN_PASSWORD_LENGTH.
  assert ((100 <? Py.len (username form)) = false) as -> by lia.
  set (m1 := "Username is required."). set (m2 := "Username must be at least 3 characters.").
  destruct (Z.ltb_spec 0 (Py.len (username form))) as [U0|U0];
    destruct (Z.ltb_spec (Py.len (username form)) 3) as [U3|U3]; try lia;
    cbv zeta; cbn [negb lf_add_error lf_errors username password];
    (assert ((128 <? Py.len (password form)) = false) as -> by lia);
    destruct (Z.ltb_spec 0 (Py.len (password form))) as [P0|P0];
    destruct (Z.ltb_spec (Py.len (password form)) 6) as [P6|P6]; try lia;
    cbn [negb fst snd lf_add_error lf_errors username password];
    change (lf_errors form) with (∅ : gmap string string);
    (first [ rewrite (bool_decide_eq_true_2 (∅ = ∅)) by done
           | rewrite bool_decide_eq_false_2 by apply insert_non_empty ]);
    cbn [negb];
    (split; [split; [intros; first [done | lia] | intros; first [done | lia]] |]);
    (split; [split; [done | intros Hm; first [done | by apply insert_non_empty in Hm]] |]);
    (split; [done |]); (split; [done |]);
    (split; rewrite ?lookup_insert_ne by done; rewrite ?lookup_insert_eq, ?lookup_empty; done).
Qed.

End Login.

(** ** RecipientForm.validate and get_valid_addresses *)

Section RecipientValidate.

Import Forms.

Lemma validate_email_returns (self : RecipientForm) (email : string) :
  ∃ is_valid reason, validate_email self email = Py.Ok (is_valid, reason).
Proof.
  unfold validate_email.
  destruct (MAX_EMAIL_LENGTH <? Py.len email); [eauto |].
  destruct (Re.accepts EMAIL_RE email) eqn:Hre; simpl; [|eauto].
  destruct (email_re_split email Hre) as (local & domain & Hsplit).
  unfold check_disposable. rewrite Hsplit. simpl.
  destruct (block_disposable self); simpl;
    repeat (match goal with |- context [if ?b then _ else _] => destruct b end; simpl);
    eauto.
Qed.

Lemma check_step_spec (self : RecipientForm) st a :
  ∃ msg,
    check_step self st a
    = Py.Ok (if accepts_email self a
             then if block_disposable self && mentions_disposable a
                  then (st.1, st.2 ++ [a]) else st
             else (st.1 ++ [msg], st.2)).
Proof.
  unfold check_step, accepts_email.
  destruct (validate_email_returns self a) as (ok & reason & ->). simpl.
  destruct ok; simpl; [|eauto].
  exists EmptyString. by destruct (block_disposable self && mentions_disposable a).
Qed.

(** The checking loop never raises and collects one entry for each address
  that [validate_email] refuses. *)
Lemma check_loop (self : RecipientForm) (l : list string) :
  ∀ st, ∃ st',
    Py.for_each (check_step self) st l = Py.Ok st' ∧
    length st'.1
    = (length st.1 + length (filter (λ a, accepts_email self a = false) l))%nat.
Proof.
  induction l as [|a l IH]; intros st; simpl.
  - exists st. split; [done |]. lia.
  - destruct (check_step_spec self st a) as [msg ->]. simpl.
    rewrite filter_cons.
    destruct (accepts_email self a) eqn:Ha.
    + rewrite decide_False by done.
      destruct (IH (if block_disposable self && mentions_disposable a
                    then (st.1, st.2 ++ [a]) else st)) as (st' & -> & Hlen).
      exists st'. split; [done |]. rewrite Hlen.
      by destruct (block_disposable self && mentions_disposable a).
    + rewrite decide_True by done.
      destruct (IH (st.1 ++ [msg], st.2)) as (st' & -> & Hlen).
      exists st'. split; [done |]. rewrite Hlen. simpl. rewrite length_app. simpl. lia.
Qed.

Lemma valid_step_spec (self : RecipientForm) valid a :
  valid_step self valid a
  = Py.Ok (if accepts_email self a then valid ++ [a] else valid).
Proof.
  unfold valid_step, accepts_email.
  destruct (validate_email_returns self a) as (ok & reason & ->). by destruct ok.
Qed.

Lemma valid_loop (self : RecipientForm) (l : list string) :
  ∀ valid,
    Py.for_each (valid_step self) valid l
    = Py.Ok (valid ++ filter (λ a, accepts_email self a = true) l).
Proof.
  induction l as [|a l IH]; intros valid; simpl.
  - by rewrite app_nil_r.
  - rewrite valid_step_spec. simpl. rewrite IH, filter_cons.
    destruct (accepts_email self a).
    + rewrite decide_True by done. by rewrite <- app_assoc.
    + by rewrite decide_False by done.
Qed.

Lemma filter_none_all (self : RecipientForm) (l : list string) :
  length (filter (λ a, accepts_email self a = false) l) = 0%nat ↔
  Forall (λ a, accepts_email self a = true) l.
Proof.
  induction l as [|a l IH]; [done |].
  rewrite filter_cons, Forall_cons. destruct (accepts_email self a).
  - rewrite decide_False by done. rewrite IH. tauto.
  - rewrite decide_True by done. simpl. split; [lia | intros [? _]; done].
Qed.

Lemma filter_all (self : RecipientForm) (l : list string) :
  Forall (λ a, accepts_email self a = true) l →
  filter (λ a, accepts_email self a = true) l = l.
Proof.
  induction 1 as [|a l Ha _ IH]; [done |].
  by rewrite filter_cons, decide_True, IH.
Qed.

Lemma report_invalid_spec invalid warning (self : RecipientForm) :
  rf_errors self = ∅ →
  let form := report_invalid invalid warning self in
  addresses form = addresses self ∧
  block_disposable form = block_disposable self ∧
  deduplicate form = deduplicate self ∧
  (rf_errors form = ∅ ↔ invalid = []).
Proof.
  intros He. unfold report_invalid.
  destruct invalid as [|i invalid].
  - destruct warning; simpl; by rewrite He.
  - destruct warning; cbn -[take Py.join pretty];
      (repeat split; try done; [by intros ?%insert_non_empty]).
Qed.

(** The form fields that [flatten_addresses] and [validate_email] read. *)
Lemma same_fields (f g : RecipientForm) :
  addresses g = addresses f → block_disposable g = block_disposable f →
  deduplicate g = deduplicate f →
  flatten_addresses g = flatten_addresses f ∧
  (∀ a, accepts_email g a = accepts_email f a) ∧
  get_valid_addresses g = get_valid_addresses f.
Proof.
  intros Ha Hb Hd.
  assert (flatten_addresses g = flatten_addresses f) as Hf
    by (unfold flatten_addresses; by rewrite Ha, Hd).
  assert (∀ a, validate_email g a = validate_email f a) as Hv
    by (intros a; unfold validate_email, check_disposable; by rewrite Hb).
  assert (∀ a, accepts_email g a = accepts_email f a) as Hacc
    by (intros a; unfold accepts_email; by rewrite Hv).
  split; [done |]. split; [done |].
  unfold get_valid_addresses. rewrite !valid_loop, Hf. simpl.
  f_equal. apply list_filter_iff. intros a. by rewrite Hacc.
Qed.

(** A form without errors validates exactly when it has between 1 and 1000
  addresses after flattening and [validate_email] accepts every one of
  them; warnings about disposable domains never make it fail.  Validation
  never raises and leaves the address fields alone, so that afterwards
  [flatten_addresses] still gives the same list and, when the form has
  validated, [get_valid_addresses] drops nothing from it.  A form that does
  not validate carries an error on the [addresses] field. *)
Theorem recipient_form_validate (self : RecipientForm) :
  rf_errors self = ∅ →
  let cleaned := flatten_addresses self in
  ∃ ok form,
    RecipientForm_validate self = Py.Ok (ok, form) ∧
    flatten_addresses form = cleaned ∧
    (ok = true ↔
     (1 ≤ length cleaned ≤ 1000)%nat ∧
     Forall (λ a, accepts_email self a = true) cleaned) ∧
    (ok = true → get_valid_addresses form = Py.Ok cleaned) ∧
    (ok = false → is_Some (rf_errors form !! "addresses")).
Proof.
  intros He cleaned. unfold RecipientForm_validate. fold cleaned.
  destruct (Py.truthy (addresses self)) eqn:Hta; simpl.
  2: { assert (cleaned = []) as Hc.
       { unfold cleaned, flatten_addresses.
         unfold Py.truthy in Hta. apply negb_false_iff, bool_decide_eq_true in Hta.
         rewrite Hta. simpl. unfold flatten_step. simpl. by destruct (deduplicate self). }
       eexists _, _. split; [done |]. rewrite Hc.
       split; [done |]. split; [split; [done | simpl; lia] |]. split; [done |].
       intros _. simpl. rewrite lookup_insert_eq. eauto. }
  destruct cleaned as [|a0 rest] eqn:Hcl.
  { eexists _, _. split; [done |]. split; [done |].
    split; [split; [done | simpl; lia] |]. split; [done |].
    intros _. simpl. rewrite lookup_insert_eq. eauto. }
  rewrite <- Hcl. 
  destruct (Z.ltb_spec MAX_ADDRESSES (Z.of_nat (length cleaned))) as [Hmax|Hmax];
    unfold MAX_ADDRESSES in Hmax.
  { eexists _, _. split; [done |]. split; [done |].
    split; [split; [done | lia] |]. split; [done |].
    intros _. simpl. rewrite lookup_insert_eq. eauto. }
  destruct (check_loop self cleaned ([], [])) as (st & -> & Hlen). simpl.
  destruct (report_invalid_spec st.1 st.2 self He) as (Ha & Hb & Hd & Herr).
  destruct (same_fields self (report_invalid st.1 st.2 self) Ha Hb Hd)
    as (Hflat & Hacc & Hvalid).
  eexists _, _. split; [done |]. split; [done |].
  assert (length cleaned ≠ 0)%nat as Hne by (rewrite Hcl; simpl; lia).
  assert (st.1 = [] ↔ Forall (λ a, accepts_email self a = true) cleaned) as Hall.
  { rewrite <- filter_none_all. simpl in Hlen. rewrite <- Hlen.
    by rewrite length_zero_iff_nil. }
  unfold rf_has_errors.
  split; [|split].
  - rewrite negb_involutive, bool_decide_eq_true, Herr, Hall.
    split; [intros ?; split; [lia | done] | tauto].
  - rewrite negb_involutive, bool_decide_eq_true, Herr, Hall. intros Hok.
    rewrite Hvalid. unfold get_valid_addresses. rewrite valid_loop. simpl.
    fold cleaned. by rewrite filter_all.
  - rewrite negb_involutive, bool_decide_eq_false. intros Hnok.
    unfold report_invalid in *. destruct st.1 as [|i inv]; [by destruct st.2 |].
    destruct st.2; cbn -[take Py.join pretty]; rewrite lookup_insert_eq; eauto.
Qed.

Lemma recipient_form_validate_witness :
  ∃ form,
    RecipientForm_validate
      (RecipientForm_init (Some {[ "addresses" := "a@x.com, B@y.org" ]}))
    = Py.Ok (true, form) ∧
    get_valid_addresses form = Py.Ok ["a@x.com"; "b@y.org"].
Proof.
  destruct (recipient_form_validate
              (RecipientForm_init (Some {[ "addresses" := "a@x.com, B@y.org" ]})))
    as (ok & form & Hv & _ & Hiff & Hget & _); [reflexivity |].
  assert (flatten_addresses
            (RecipientForm_init (Some {[ "addresses" := "a@x.com, B@y.org" ]}))
          = ["a@x.com"; "b@y.org"]) as Hflat by (vm_compute; reflexivity).
  rewrite Hflat in Hiff, Hget.
  assert (ok = true) as ->.
  { apply Hiff. split; [simpl; lia |].
    repeat constructor; vm_compute; reflexivity. }
  exists form. split; [exact Hv | by apply Hget].
Defined.

Lemma accepts_email_inv (self : RecipientForm) a :
  accepts_email self a = true →
  Py.len a ≤ 254 ∧ Re.accepts EMAIL_RE a = true ∧ Py.contains ".." a = false.
Proof.
  unfold accepts_email, validate_email, MAX_EMAIL_LENGTH.
  destruct (Z.ltb_spec 254 (Py.len a)); [done |].
  destruct (Re.accepts EMAIL_RE a) eqn:Hre; simpl; [|done].
  destruct (email_re_split a Hre) as (local & domain & Hsplit).
  unfold check_disposable. rewrite Hsplit. simpl.
  destruct (block_disposable self); simpl;
    repeat (match goal with |- context [if ?b then _ else _] => destruct b eqn:? end; simpl);
    intros; try done; repeat split; try done; lia.
Qed.

Lemma flatten_addresses_NoDup (self : RecipientForm) :
  deduplicate self = true → NoDup (flatten_addresses self).
Proof.
  intros Hd. rewrite flatten_addresses_keep_first by done. apply NoDup_keep_first.
Qed.

(** [get_valid_addresses] never raises.  It returns, in their order, exactly
  the flattened addresses that [validate_email] accepts: each of them has at
  most 254 characters, matches [EMAIL_RE] and has no two dots in a row, and
  with deduplication on none occurs twice. *)
Theorem get_valid_addresses_spec (self : RecipientForm) :
  ∃ valid,
    get_valid_addresses self = Py.Ok valid ∧
    valid = filter (λ a, accepts_email self a = true) (flatten_addresses self) ∧
    Forall (λ a, validate_email self a = Py.Ok (true, None) ∧
                 Py.len a ≤ 254 ∧ Re.accepts EMAIL_RE a = true ∧
                 Py.contains ".." a = false) valid ∧
    (deduplicate self = true → NoDup valid).
Proof.
  unfold get_valid_addresses. rewrite valid_loop. simpl.
  eexists. split; [done |]. split; [done |]. split.
  - apply Forall_forall. intros a [Ha _]%list_elem_of_filter.
    split; [|by apply (accepts_email_inv self)].
    unfold accepts_email in Ha.
    destruct (validate_email self a) as [[[] reason]|] eqn:E; try done.
    revert E. unfold validate_email.
    destruct (MAX_EMAIL_LENGTH <? Py.len a); [done |].
    destruct (Re.accepts EMAIL_RE a) eqn:Hre; simpl; [|done].
    destruct (email_re_split a Hre) as (local & domain & Hsplit).
    unfold check_disposable. rewrite Hsplit. simpl.
    destruct (block_disposable self); simpl;
      repeat (match goal with |- context [if ?b then _ else _] => destruct b eqn:? end; simpl);
      intros; by simplify_eq.
  - intros Hd. apply NoDup_filter. by apply flatten_addresses_NoDup.
Qed.

End RecipientValidate.

(** ** Flattening is idempotent *)

Section FlattenAgain.

Import Forms.

Lemma split_seps_nonempty s : Py.split_seps s ≠ [].
Proof.
  induction s as [|c s IH]; simpl; [done |].
  destruct (Py.is_sep c).
  - destruct s as [|d s]; [done |]. by destruct (Py.is_sep d).
  - by destruct (Py.split_seps s).
Qed.

(** The pieces between separators hold no separator. *)
Lemma split_seps_sep_free s : Forall (λ t, sep_free t = true) (Py.split_seps s).
Proof.
  induction s as [|c s IH]; simpl; [by repeat constructor |].
  destruct (Py.is_sep c) eqn:Hc.
  - destruct s as [|d s]; [by repeat constructor |].
    destruct (Py.is_sep d); [done | by constructor].
  - destruct (Py.split_seps s) as [|h t]; [by repeat constructor; unfold sep_free; simpl; rewrite Hc |].
    apply Forall_cons in IH as [Hh Ht]. constructor; [|done].
    unfold sep_free in *. simpl. by rewrite Hc.
Qed.

Lemma is_sep_space c : Py.isspace c = true → Py.is_sep c = true.
Proof. unfold Py.is_sep. intros ->. by rewrite orb_true_r. Qed.

Lemma sep_free_rstrip t : sep_free t = true → Py.rstrip t = t.
Proof.
  unfold sep_free. induction t as [|c t IH]; simpl; [done |].
  intros [Hc Ht]%andb_true_iff. rewrite (IH Ht).
  destruct t; [|done].
  destruct (Py.isspace c) eqn:Hs; [|done].
  by rewrite (is_sep_space c Hs) in Hc.
Qed.

Lemma sep_free_lstrip t : sep_free t = true → Py.lstrip t = t.
Proof.
  unfold sep_free. destruct t as [|c t]; simpl; [done |].
  intros [Hc Ht]%andb_true_iff.
  destruct (Py.isspace c) eqn:Hs; [|done].
  by rewrite (is_sep_space c Hs) in Hc.
Qed.

Lemma sep_free_lower t : sep_free (Py.lower t) = sep_free t.
Proof.
  unfold sep_free. induction t as [|c t IH]; simpl; [done |].
  by rewrite is_sep_lower_char, IH.
Qed.

Lemma sep_free_normalize t :
  sep_free t = true → normalize t = Py.lower t ∧ sep_free (normalize t) = true.
Proof.
  intros Ht. unfold normalize, Py.strip.
  rewrite sep_free_rstrip, sep_free_lstrip by done.
  split; [done |]. by rewrite sep_free_lower.
Qed.

(** A string without separators in front of other text extends its first
  piece. *)
Lemma split_seps_app p s :
  sep_free p = true →
  Py.split_seps (p +:+ s)
  = match Py.split_seps s with
    | h :: t => (p +:+ h) :: t
    | [] => [p]
    end.
Proof.
  unfold sep_free. induction p as [|c p IH]; intros Hp.
  - rewrite app_empty_l. destruct (Py.split_seps s) eqn:E; [|done].
    by apply split_seps_nonempty in E.
  - simpl in Hp. apply andb_true_iff in Hp as [Hc Hp]. apply negb_true_iff in Hc.
    rewrite app_cons. simpl. rewrite Hc, (IH Hp).
    destruct (Py.split_seps s); by rewrite ?app_cons.
Qed.

Lemma split_seps_sep_free_id p : sep_free p = true → Py.split_seps p = [p].
Proof.
  intros Hp. rewrite <- (app_empty_r p) at 1.
  rewrite split_seps_app by done. simpl. by rewrite app_empty_r.
Qed.

Lemma split_seps_sep c s :
  Py.is_sep c = true →
  Py.split_seps (String c s)
  = match s with
    | String d _ => if Py.is_sep d then Py.split_seps s else EmptyString :: Py.split_seps s
    | EmptyString => EmptyString :: Py.split_seps s
    end.
Proof. intros Hc. cbn [Py.split_seps]. by rewrite Hc. Qed.

(** Joining canonical entries with a comma and a space and splitting again
  gives the entries back. *)
Lemma split_seps_join (l : list string) :
  Forall canonical l → l ≠ [] → Py.split_seps (Py.join ", " l) = l.
Proof.
  induction l as [|p l IH]; [done |]. intros [[Hp Hne] Hl]%Forall_cons _.
  destruct l as [|q l].
  - simpl. by apply split_seps_sep_free_id.
  - change (Py.join ", " (p :: q :: l)) with (p +:+ ", " +:+ Py.join ", " (q :: l)).
    rewrite split_seps_app by done.
    assert (Py.split_seps (", " +:+ Py.join ", " (q :: l)) = EmptyString :: q :: l) as ->.
    { assert (∃ x r, Py.join ", " (q :: l) = String x r ∧ Py.is_sep x = false)
        as (x & r & Hj & Hx).
      { apply Forall_cons in Hl as [[Hq Hqne] _].
        destruct q as [|x q]; [done |].
        unfold sep_free in Hq. simpl in Hq.
        apply andb_true_iff in Hq as [Hx _]. apply negb_true_iff in Hx.
        destruct l; [by exists x, q |].
        eexists x, _. split; [|done].
        change (Py.join ", " (String x q :: s :: l))
          with (String x q +:+ ", " +:+ Py.join ", " (s :: l)).
        by rewrite app_cons. }
      rewrite Hj, !app_cons, app_empty_l.
      rewrite (split_seps_sep ","%char) by done.
      rewrite (split_seps_sep " "%char) by done.
      change (Py.is_sep " ") with true. cbv iota. rewrite Hx.
      rewrite <- Hj. by rewrite IH. }
    by rewrite app_empty_r.
Qed.

Lemma filter_ne_absent (l : list string) x : x ∉ l → filter (λ y, y ≠ x) l = l.
Proof.
  induction l as [|y l IH]; [done |].
  rewrite not_elem_of_cons. intros [Hne Hx].
  rewrite filter_cons, decide_True by done. by rewrite IH.
Qed.

Lemma keep_first_NoDup (l : list string) : NoDup l → keep_first l = l.
Proof.
  induction 1 as [|x l Hx _ IH]; simpl; [done |].
  by rewrite IH, filter_ne_absent.
Qed.

Lemma filter_ext_elem {A} (P Q : A → Prop) `{!∀ x, Decision (P x)} `{!∀ x, Decision (Q x)}
    (l : list A) :
  (∀ x, x ∈ l → P x ↔ Q x) → filter P l = filter Q l.
Proof.
  induction l as [|x l IH]; [done |]. intros Hext.
  rewrite !filter_cons.
  rewrite IH by (intros y Hy; apply Hext; by right).
  pose proof (Hext x (list_elem_of_here _ _)) as Hx.
  destruct (decide (P x)) as [HP|HP], (decide (Q x)) as [HQ|HQ]; tauto || done.
Qed.

(** The loop of [flatten_addresses] without deduplication. *)
Lemma flatten_fold_plain (tokens : list string) :
  ∀ acc seen,
    (foldl (flatten_step false) (acc, seen) tokens).1
    = acc ++ filter (λ x, Py.truthy x = true) (normalize <$> tokens).
Proof.
  induction tokens as [|t tokens IH]; intros acc seen.
  - simpl. by rewrite app_nil_r.
  - cbn [foldl]. rewrite fmap_cons, filter_cons.
    assert (flatten_step false (acc, seen) t
            = if Py.truthy (normalize t) then (acc ++ [normalize t], seen)
              else (acc, seen)) as ->.
    { unfold flatten_step, normalize. simpl. by destruct (Py.truthy _). }
    destruct (Py.truthy (normalize t)) eqn:Ht.
    + rewrite decide_True by done. rewrite IH. by rewrite <- app_assoc.
    + rewrite decide_False by congruence. apply IH.
Qed.

Lemma parse_fold_plain (tokens : list string) :
  ∀ acc seen,
    (foldl (parse_step false) (acc, seen) tokens).1
    = acc ++ filter (λ x, (Py.truthy x && validate_email_address x) = true)
               (normalize <$> tokens).
Proof.
  induction tokens as [|t tokens IH]; intros acc seen.
  - simpl. by rewrite app_nil_r.
  - cbn [foldl]. rewrite fmap_cons, filter_cons.
    assert (parse_step false (acc, seen) t
            = if Py.truthy (normalize t) && validate_email_address (normalize t)
              then (acc ++ [normalize t], seen) else (acc, seen)) as ->.
    { unfold parse_step, normalize. simpl. by destruct (_ && _). }
    destruct (Py.truthy (normalize t) && validate_email_address (normalize t)) eqn:Ht.
    + rewrite decide_True by done. rewrite IH. by rewrite <- app_assoc.
    + rewrite decide_False by congruence. apply IH.
Qed.

(** [flatten_addresses] in closed form, for either setting. *)
Lemma flatten_addresses_closed (self : RecipientForm) :
  flatten_addresses self
  = (if deduplicate self then keep_first else id)
      (filter (λ x, Py.truthy x = true) (normalize <$> Py.split_seps (addresses self))).
Proof.
  destruct (deduplicate self) eqn:Hd; [by apply flatten_addresses_keep_first |].
  unfold flatten_addresses. rewrite Hd. by rewrite flatten_fold_plain.
Qed.

(** Every entry is canonical: it holds no separator and no whitespace, is
  not empty, and is its own normal form. *)
Lemma flatten_addresses_canonical (self : RecipientForm) :
  Forall (λ a, canonical a ∧ normalize a = a) (flatten_addresses self).
Proof.
  assert (Forall (λ a, canonical a ∧ normalize a = a)
            (filter (λ x, Py.truthy x = true)
               (normalize <$> Py.split_seps (addresses self)))) as H.
  { apply Forall_forall. intros a [Ht Ha]%list_elem_of_filter.
    apply list_elem_of_fmap in Ha as (t & -> & Hin).
    pose proof (split_seps_sep_free (addresses self)) as Hfree.
    rewrite Forall_forall in Hfree. specialize (Hfree t Hin).
    destruct (sep_free_normalize t Hfree) as [_ Hn].
    split; [split; [done |] | apply normalize_idem].
    intros E. by rewrite E in Ht. }
  rewrite flatten_addresses_closed. destruct (deduplicate self); [|done].
  apply Forall_forall. intros a Ha. apply (proj1 (elem_of_keep_first _ _)) in Ha.
  rewrite Forall_forall in H. by apply H.
Qed.

(** Flattening is idempotent: the flattened list, written out with [", "]
  between the entries and flattened again under the same setting, is the
  same list.  Its entries hold no separator or whitespace, are not empty and
  are in normal form. *)
Theorem flatten_addresses_again (self other : RecipientForm) :
  addresses other = Py.join ", " (flatten_addresses self) →
  deduplicate other = deduplicate self →
  flatten_addresses other = flatten_addresses self ∧
  Forall (λ a, a ≠ EmptyString ∧ Py.all_chars (λ c, negb (Py.is_sep c)) a = true ∧
               Py.lower (Py.strip a) = a) (flatten_addresses self).
Proof.
  intros Ha Hd.
  pose proof (flatten_addresses_canonical self) as Hcan.
  split.
  2: { eapply Forall_impl; [exact Hcan |]. intros a [[? ?] ?]. done. }
  rewrite (flatten_addresses_closed other), Ha, Hd.
  set (l := flatten_addresses self) in *.
  assert (filter (λ x, Py.truthy x = true) (normalize <$> Py.split_seps (Py.join ", " l)) = l)
    as ->.
  { destruct l as [|a l0] eqn:El; [done |]. rewrite <- El in *.
    rewrite split_seps_join; [| |by rewrite El].
    2: { eapply Forall_impl; [exact Hcan |]. by intros ? [? ?]. }
    assert (normalize <$> l = l) as ->.
    { clear -Hcan. induction Hcan as [|x l [_ Hx] _ IH]; csimpl; [done |].
      by rewrite Hx, IH. }
    clear -Hcan. induction Hcan as [|x l [[_ Hx] _] _ IH]; [done |].
    rewrite filter_cons, decide_True, IH; [done |].
    unfold Py.truthy. by rewrite bool_decide_eq_false_2. }
  destruct (deduplicate self) eqn:Hds; [|done].
  apply keep_first_NoDup. unfold l. rewrite flatten_addresses_keep_first by done.
  apply NoDup_keep_first.
Qed.

Lemma flatten_addresses_again_witness :
  flatten_addresses
    (RecipientForm_init (Some {[ "addresses" := "a@x.com, b@y.org" ]}))
  = flatten_addresses
      (RecipientForm_init (Some {[ "addresses" := " A@x.com;;b@y.org a@X.com" ]})).
Proof.
  apply flatten_addresses_again; vm_compute; reflexivity.
Defined.

(** [parse_email_list] returns exactly the entries of the flattened list
  that [EMAIL_RE] accepts, in the same order, for either setting of
  [deduplicate]. *)
Theorem parse_email_list_flatten (text : string) (dedup block : bool) :
  parse_email_list text dedup
  = filter (λ a, Re.accepts EMAIL_RE a = true)
      (flatten_addresses {| rf_errors := ∅; rf_warnings := ∅; addresses := text;
                            block_disposable := block; deduplicate := dedup |}).
Proof.
  rewrite flatten_addresses_closed. simpl.
  set (N := normalize <$> Py.split_seps text).
  assert (filter (λ x, (Py.truthy x && validate_email_address x) = true) N
          = filter (λ a, Re.accepts EMAIL_RE a = true)
              (filter (λ x, Py.truthy x = true) N)) as Hf.
  { rewrite list_filter_filter. apply filter_ext_elem.
    intros x (t & -> & _)%list_elem_of_fmap.
    unfold validate_email_address. fold (normalize (normalize t)).
    rewrite normalize_idem, andb_true_iff. tauto. }
  destruct dedup.
  - rewrite parse_email_list_keep_first. fold N. by rewrite Hf, keep_first_filter.
  - unfold parse_email_list. rewrite parse_fold_plain. simpl. by fold N.
Qed.

End FlattenAgain.

(** ** BroadcastForm.validate *)

Section BroadcastValidate.

Import Forms.

Lemma validate_subject_errors f :
  same_input f (validate_subject f) ∧
  ∃ m, errors (validate_subject f)
       = if (3 <=? Py.len (subject f)) && (Py.len (subject f) <=? 200)
         then errors f else <["subject" := m]> (errors f).
Proof.
  unfold validate_subject, MIN_SUBJECT_LENGTH, MAX_SUBJECT_LENGTH.
  rewrite !truthy_ltb.
  destruct (Z.ltb_spec 0 (Py.len (subject f))) as [H0|H0]; cbn [negb].
  - destruct (Z.ltb_spec (Py.len (subject f)) 3) as [H3|H3].
    + assert (((3 <=? Py.len (subject f)) && (Py.len (subject f) <=? 200)) = false)
        as -> by lia.
      cbv zeta. cbn [subject add_error]. rewrite ?truthy_ltb.
      assert ((0 <? Py.len (subject f)) = true) as -> by lia.
      destruct (filter _ spam_words); split; try done; eauto.
    + destruct (Z.ltb_spec 200 (Py.len (subject f))) as [H2|H2].
      * assert (((3 <=? Py.len (subject f)) && (Py.len (subject f) <=? 200)) = false)
          as -> by lia.
        cbv zeta. cbn [subject add_error]. rewrite ?truthy_ltb.
        assert ((0 <? Py.len (subject f)) = true) as -> by lia.
        destruct (filter _ spam_words); split; try done; eauto.
      * assert (((3 <=? Py.len (subject f)) && (Py.len (subject f) <=? 200)) = true)
          as -> by lia.
        cbv zeta. rewrite ?truthy_ltb.
        assert ((0 <? Py.len (subject f)) = true) as -> by lia.
        destruct (filter _ spam_words); split; try done; by exists EmptyString.
  - assert (((3 <=? Py.len (subject f)) && (Py.len (subject f) <=? 200)) = false)
      as -> by lia.
    cbv zeta. cbn [subject add_error]. rewrite ?truthy_ltb.
    assert ((0 <? Py.len (subject f)) = false) as -> by lia.
    split; [done | eauto].
Qed.

Lemma validate_body_errors f :
  same_input f (validate_body f) ∧
  ∃ m, errors (validate_body f)
       = if (10 <=? Py.len (body f)) && (Py.len (body f) <=? 50000)
         then errors f else <["body" := m]> (errors f).
Proof.
  unfold validate_body, MIN_BODY_LENGTH, MAX_BODY_LENGTH.
  rewrite !truthy_ltb.
  destruct (Z.ltb_spec 0 (Py.len (body f))) as [H0|H0]; cbn [negb].
  - destruct (Z.ltb_spec (Py.len (body f)) 10) as [H3|H3].
    + assert (((10 <=? Py.len (body f)) && (Py.len (body f) <=? 50000)) = false)
        as -> by lia.
      cbv zeta. cbn [body add_error]. rewrite ?truthy_ltb.
      destruct (_ && _); split; try done; eauto.
    + destruct (Z.ltb_spec 50000 (Py.len (body f))) as [H2|H2].
      * assert (((10 <=? Py.len (body f)) && (Py.len (body f) <=? 50000)) = false)
          as -> by lia.
        cbv zeta. cbn [body add_error]. rewrite ?truthy_ltb.
        destruct (_ && _); split; try done; eauto.
      * assert (((10 <=? Py.len (body f)) && (Py.len (body f) <=? 50000)) = true)
          as -> by lia.
        cbv zeta. rewrite ?truthy_ltb.
        destruct (_ && _); split; try done; by exists EmptyString.
  - assert (((10 <=? Py.len (body f)) && (Py.len (body f) <=? 50000)) = false)
      as -> by lia.
    cbv zeta. cbn [body add_error]. rewrite ?truthy_ltb.
    destruct (_ && _); split; try done; eauto.
Qed.

Lemma validate_concurrency_errors f :
  ∃ f' m,
    validate_concurrency f = Py.Ok f' ∧
    subject f' = subject f ∧ body f' = body f ∧
    send_test f' = send_test f ∧ test_email f' = test_email f ∧
    1 ≤ concurrency f' ≤ 500 ∧
    errors f' = match Py.parse_int (concurrency_raw f) with
                | Some _ => errors f
                | None => <["concurrency" := m]> (errors f)
                end.
Proof.
  unfold validate_concurrency, Py.int, MIN_CONCURRENCY, MAX_CONCURRENCY,
    DEFAULT_CONCURRENCY.
  destruct (Py.parse_int (concurrency_raw f)) as [n|].
  - destruct (Z.ltb_spec n 1); [|destruct (Z.ltb_spec 500 n)];
      eexists _, EmptyString; (split; [done |]); cbn -[pretty]; repeat split; (done || lia).
  - eexists _, _. split; [done |]. cbn. repeat split; (done || lia).
Qed.

Lemma validate_test_email_errors f :
  subject (validate_test_email f) = subject f ∧
  body (validate_test_email f) = body f ∧
  concurrency (validate_test_email f) = concurrency f ∧
  ∃ m, errors (validate_test_email f)
       = if negb (send_test f)
            || (Py.truthy (test_email f) && Re.accepts EMAIL_RE (test_email f))
         then errors f else <["test_email" := m]> (errors f).
Proof.
  unfold validate_test_email.
  destruct (send_test f); simpl;
    [|split; [done | split; [done | split; [done | by exists EmptyString]]]].
  destruct (Py.truthy (test_email f)); simpl;
    [|split; [done | split; [done | split; [done | eauto]]]].
  destruct (Re.accepts EMAIL_RE (test_email f)); simpl;
    (split; [done | split; [done | split; [done |]]]); eauto.
  by exists EmptyString.
Qed.


End BroadcastValidate.

(** ** SettingsForm.validate *)

Section SettingsValidate.

Import Forms.

Lemma check_int_field_spec text field lo hi range_msg parse_msg self :
  ∃ self' m,
    check_int_field text field lo hi range_msg parse_msg self = Py.Ok self' ∧
    same_settings self self' ∧
    sf_errors self' = if int_field_ok text lo hi then sf_errors self
                      else <[field := m]> (sf_errors self).
Proof.
  unfold check_int_field, int_field_ok, Py.int.
  destruct (Py.truthy text); cbn [negb orb].
  2: { by exists self, EmptyString. }
  destruct (Py.parse_int text) as [v|].
  2: { eexists _, _. split; [done |]. split; [by repeat split | done]. }
  destruct (Z.ltb_spec v lo); cbn [orb].
  { assert ((lo <=? v) = false) as -> by lia. cbn [andb].
    eexists _, _. split; [done |]. split; [by repeat split | done]. }
  assert ((lo <=? v) = true) as -> by lia. cbn [andb].
  destruct (Z.ltb_spec hi v).
  { assert ((v <=? hi) = false) as -> by lia.
    eexists _, _. split; [done |]. split; [by repeat split | done]. }
  assert ((v <=? hi) = true) as -> by lia.
  by exists self, EmptyString.
Qed.

Lemma settings_validate_spec (self : SettingsForm) :
  sf_errors self = ∅ →
  ∃ ok self',
    SettingsForm_validate self = Py.Ok (ok, self') ∧
    same_settings self self' ∧
    (ok = true ↔ sf_errors self' = ∅) ∧
    (ok = true ↔
     host_ok (smtp_host self) = true ∧
     int_field_ok (smtp_port self) 1 65535 = true ∧
     use_tls self && use_ssl self = false ∧
     int_field_ok (timeout self) 5 300 = true).
Proof.
  intros He. unfold SettingsForm_validate.
  set (f1 := if Py.truthy (smtp_host self) && negb _
             then sf_add_error "smtp_host" _ self else self).
  assert (same_settings self f1 ∧
          sf_errors f1 = if host_ok (smtp_host self) then ∅
                         else <["smtp_host" := "Invalid SMTP host format."]> ∅)
    as [(A1 & A2 & A3 & A4 & A5 & A6 & A7) E1].
  { unfold f1, host_ok.
    destruct (Py.truthy (smtp_host self)); cbn [andb negb orb].
    - destruct (Py.isalnum _); cbn [negb];
        (split; [by repeat split |]); [done | by cbn; rewrite He].
    - split; [by repeat split | done]. }
  clearbody f1. cbv zeta.
  destruct (check_int_field_spec (smtp_port f1) "smtp_port" 1 65535
              "Port must be between 1 and 65535." "Port must be a valid integer." f1)
    as (f2 & m2 & -> & (B1 & B2 & B3 & B4 & B5 & B6 & B7) & E2).
  cbn [Py.bind].
  set (f3 := if Py.truthy (smtp_username f2) && negb _
             then sf_add_warning _ _ f2 else f2).
  assert (same_settings f2 f3 ∧ sf_errors f3 = sf_errors f2)
    as [(C1 & C2 & C3 & C4 & C5 & C6 & C7) E3].
  { unfold f3. destruct (_ && _); by repeat split. }
  clearbody f3.
  set (f4 := if use_tls f3 && use_ssl f3 then sf_add_error _ _ f3 else f3).
  assert (same_settings f3 f4 ∧
          ∃ m, sf_errors f4 = if use_tls f3 && use_ssl f3
                              then <["ssl_tls" := m]> (sf_errors f3)
                              else sf_errors f3)
    as [(D1 & D2 & D3 & D4 & D5 & D6 & D7) [m4 E4]].
  { unfold f4. destruct (_ && _); (split; [by repeat split |]); eauto. }
  clearbody f4.
  destruct (check_int_field_spec (timeout f4) "timeout" 5 300
              "Timeout must be between 5 and 300 seconds."
              "Timeout must be a valid integer." f4)
    as (f5 & m5 & -> & (F1 & F2 & F3 & F4 & F5 & F6 & F7) & E5).
  cbn [Py.bind].
  eexists _, _. split; [done |].
  split. { repeat split; congruence. }
  unfold sf_has_errors. rewrite negb_involutive, bool_decide_eq_true.
  split; [done |].
  rewrite E5. clear E5.
  replace (timeout f4) with (timeout self) by congruence.
  destruct (int_field_ok (timeout self) 5 300).
  2: { split; [by intros ?%insert_non_empty | by intros (_ & _ & _ & ?)]. }
  rewrite E4. clear E4.
  replace (use_tls f3) with (use_tls self) by congruence.
  replace (use_ssl f3) with (use_ssl self) by congruence.
  destruct (use_tls self && use_ssl self).
  { split; [by intros ?%insert_non_empty | by intros (_ & _ & ? & _)]. }
  rewrite E3, E2. clear E3 E2.
  replace (smtp_port f1) with (smtp_port self) by congruence.
  destruct (int_field_ok (smtp_port self) 1 65535).
  2: { split; [by intros ?%insert_non_empty | by intros (_ & ? & _)]. }
  rewrite E1.
  destruct (host_ok (smtp_host self)).
  - done.
  - split; [by intros ?%insert_non_empty | by intros (? & _)].
Qed.


End SettingsValidate.

(** ** escape_html *)

Section EscapeHtml.

Import Forms.

Lemma escape_char_cases (c : ascii) :
  (html_special c = false ∧ c ≠ "&"%char ∧ Py.escape_char c = String c EmptyString) ∨
  (c = "&"%char ∧ Py.escape_char c = "&amp;") ∨
  (c = "<"%char ∧ Py.escape_char c = "&lt;") ∨
  (c = ">"%char ∧ Py.escape_char c = "&gt;") ∨
  (c = "034"%char ∧ Py.escape_char c = "&quot;") ∨
  (c = "'"%char ∧ Py.escape_char c = "&#x27;").
Proof.
  unfold Py.escape_char, html_special.
  repeat case_bool_decide; subst; try (left; done); naive_solver.
Qed.

Lemma all_chars_app p (s t : string) :
  Py.all_chars p (s +:+ t) = Py.all_chars p s && Py.all_chars p t.
Proof.
  induction s as [|c s IH]; [done |].
  rewrite app_cons. cbn [Py.all_chars]. by rewrite IH, andb_assoc.
Qed.

Lemma html_escape_inj (s t : string) :
  Py.html_escape s = Py.html_escape t → s = t.
Proof.
  revert t. induction s as [|c s IH]; intros [|d t]; cbn [Py.html_escape].
  - done.
  - destruct (escape_char_cases d) as [(_ & _ & ->)|[(_ & ->)|[(_ & ->)|[(_ & ->)|[(_ & ->)|(_ & ->)]]]]];
      by rewrite ?app_cons.
  - destruct (escape_char_cases c) as [(_ & _ & ->)|[(_ & ->)|[(_ & ->)|[(_ & ->)|[(_ & ->)|(_ & ->)]]]]];
      by rewrite ?app_cons.
  - destruct (escape_char_cases c) as [(_ & Hc & ->)|[(-> & ->)|[(-> & ->)|[(-> & ->)|[(-> & ->)|(-> & ->)]]]]];
    destruct (escape_char_cases d) as [(_ & Hd & ->)|[(-> & ->)|[(-> & ->)|[(-> & ->)|[(-> & ->)|(-> & ->)]]]]];
      rewrite ?app_cons, ?app_empty_l; intros Heq;
      try (injection Heq as Heq); try congruence;
      try (f_equal; [congruence | apply IH; congruence]);
      try (f_equal; apply IH; congruence).
Qed.

(** The result of [escape_html] holds none of the characters [<], [>], the
  double and the single quote; a text without these and without [&] is
  returned as it is; escaping never shortens a text; and two different
  texts are never escaped to the same result. *)
Theorem escape_html_safe (text : string) :
  Py.all_chars (λ c, negb (html_markup c)) (escape_html text) = true ∧
  (Py.all_chars (λ c, negb (html_special c)) text = true → escape_html text = text) ∧
  Py.len text ≤ Py.len (escape_html text) ∧
  (∀ other, escape_html other = escape_html text → other = text).
Proof.
  unfold escape_html. split; [|split; [|split]].
  - induction text as [|c text IH]; [done |].
    cbn [Py.html_escape]. rewrite all_chars_app, IH, andb_true_r.
    destruct (escape_char_cases c) as [(Hs & _ & ->)|[(_ & ->)|[(_ & ->)|[(_ & ->)|[(_ & ->)|(_ & ->)]]]]];
      try done.
    cbn [Py.all_chars]. rewrite andb_true_r. apply negb_true_iff.
    unfold html_special in Hs. unfold html_markup.
    repeat (apply orb_false_iff in Hs as [Hs ?]).
    repeat (apply orb_false_iff; split); done.
  - induction text as [|c text IH]; [done |].
    cbn [Py.all_chars Py.html_escape]. intros [Hc Ht]%andb_true_iff.
    rewrite (IH Ht).
    destruct (escape_char_cases c) as [(_ & _ & ->)|Hsp]; [done |].
    apply negb_true_iff in Hc. exfalso.
    destruct Hsp as [(-> & _)|[(-> & _)|[(-> & _)|[(-> & _)|(-> & _)]]]]; done.
  - induction text as [|c text IH]; [done |].
    cbn [Py.html_escape].
    assert (∀ s t, Py.len (s +:+ t) = Py.len s + Py.len t) as Happ.
    { intros s t. unfold Py.len. induction s as [|x s IHs]; [done |].
      rewrite app_cons. cbn [String.length]. lia. }
    rewrite Happ.
    assert (Py.len (String c text) = 1 + Py.len text) as ->.
    { unfold Py.len. cbn [String.length]. lia. }
    destruct (escape_char_cases c) as [(_ & _ & ->)|[(_ & ->)|[(_ & ->)|[(_ & ->)|[(_ & ->)|(_ & ->)]]]]];
      unfold Py.len in *; cbn [String.length]; lia.
  - intros other. apply html_escape_inj.
Qed.

End EscapeHtml.

(** ** The order of the transport calls *)

Section Fifo.

Import Mailer.

Variable settings : Config.SMTPSettings.
Variable default_concurrency : Z.
Variable message : Message.BroadcastMessage.
Variable tr : transport.
Variable progress_hook : bool.
Variable recipients : list string.
Variable concurrency : option Z.

Local Abbreviation build := (build_message settings message).
Local Abbreviation limit := (Z.to_nat (effective_limit default_concurrency concurrency)).
Local Abbreviation Inv := (loop_inv build tr progress_hook recipients limit).
Local Abbreviation Reachable :=
  (reachable settings default_concurrency message tr progress_hook recipients concurrency).

Lemma wake_prefix (v : nat) (pre post : list worker) :
  Forall (λ w, is_waiting w = false) pre →
  wake build v (pre ++ post) =
  ((wake build v post).1.1, pre ++ (wake build v post).1.2, (wake build v post).2).
Proof.
  induction 1 as [|w pre Hw _ IH]; simpl.
  - by destruct (wake build v post) as [[? ?] ?].
  - rewrite IH. unfold is_waiting in Hw.
    destruct (state w); try done; by destruct v.
Qed.

Lemma wake_waiting (v : nat) (post : list worker) :
  Forall (λ w, state w = Waiting) post →
  wake build v post =
  ((v - length post)%nat,
   ((λ w, {| address := address w; state := Sending |}) <$> firstn v post)
     ++ skipn v post,
   (λ w, build (address w)) <$> firstn v post).
Proof.
  intros H. revert v. induction H as [|w post Hw _ IH]; intros v.
  - simpl. rewrite firstn_nil, skipn_nil. simpl. f_equal. f_equal. lia.
  - simpl. rewrite Hw. destruct v as [|v].
    + rewrite wake_zero. done.
    + rewrite IH. done.
Qed.

Lemma queue_at_wake (v n : nat) (ws : list worker) :
  queue_at n ws →
  let k := Nat.min v (length ws - n) in
  let '(v', ws', started) := wake build v ws in
  queue_at (n + k) ws' ∧
  started = build <$> firstn k (skipn n (address <$> ws)) ∧
  (v' = v - k)%nat ∧
  firstn n ws' = firstn n ws.
Proof.
  intros (Hpre & Hpost & Hn) k.
  assert (wake build v ws =
          ((v - length (skipn n ws))%nat,
           firstn n ws
             ++ ((λ w, {| address := address w; state := Sending |})
                   <$> firstn v (skipn n ws))
             ++ skipn v (skipn n ws),
           (λ w, build (address w)) <$> firstn v (skipn n ws))) as ->.
  { rewrite <- (firstn_skipn n ws) at 1.
    by rewrite (wake_prefix _ _ _ Hpre), (wake_waiting _ _ Hpost). }
  assert (length (firstn n ws) = n) as Hlen by (rewrite length_firstn; lia).
  assert (firstn v (skipn n ws) = firstn k (skipn n ws)) as Hk.
  { unfold k. destruct (Nat.le_ge_cases v (length ws - n)).
    - by rewrite Nat.min_l.
    - rewrite Nat.min_r by done.
      rewrite !firstn_all2; [done | |]; rewrite length_skipn; lia. }
  assert (skipn v (skipn n ws) = skipn k (skipn n ws)) as Hk'.
  { unfold k. destruct (Nat.le_ge_cases v (length ws - n)).
    - by rewrite Nat.min_l.
    - rewrite Nat.min_r by done.
      rewrite !skipn_all2; [done | |]; rewrite length_skipn; lia. }
  rewrite Hk, Hk'.
  assert (k ≤ length (skipn n ws))%nat as Hkl by (rewrite length_skipn; lia).
  set (started := (λ w, {| address := address w; state := Sending |})
                    <$> firstn k (skipn n ws)).
  assert (length started = k) as Hls.
  { unfold started. rewrite length_fmap, length_firstn. lia. }
  split; [|split; [|split]].
  - split; [|split].
    + rewrite app_assoc, firstn_app, firstn_all2 by (rewrite length_app; lia).
      replace (n + k - length (firstn n ws ++ started))%nat with 0%nat
        by (rewrite length_app; lia).
      rewrite firstn_O, app_nil_r. apply Forall_app. split; [done |].
      unfold started. by apply Forall_fmap, Forall_true.
    + rewrite app_assoc, skipn_app, skipn_all2 by (rewrite length_app; lia).
      replace (n + k - length (firstn n ws ++ started))%nat with 0%nat
        by (rewrite length_app; lia).
      rewrite skipn_O. simpl.
      rewrite skipn_skipn. rewrite Forall_forall in Hpost. apply Forall_forall.
      intros w Hw. apply Hpost.
      rewrite <- (take_drop k (drop n ws)). apply elem_of_app. right.
      by rewrite skipn_skipn.
    + rewrite !length_app, length_skipn, length_skipn. lia.
  - by rewrite <- fmap_drop, <- fmap_take, <- list_fmap_compose.
  - rewrite length_skipn. lia.
  - rewrite firstn_app, firstn_all2 by lia.
    replace (n - length (firstn n ws))%nat with 0%nat by lia.
    by rewrite firstn_O, app_nil_r.
Qed.

Lemma filter_Forall_id {A} (P : A → Prop) `{!∀ x, Decision (P x)} (l : list A) :
  Forall P l → filter P l = l.
Proof.
  induction 1 as [|x l Hx _ IH]; [done |]. by rewrite filter_cons, decide_True, IH.
Qed.

Lemma filter_Forall_nil {A} (P : A → Prop) `{!∀ x, Decision (P x)} (l : list A) :
  Forall (λ x, ¬ P x) l → filter P l = [].
Proof.
  induction 1 as [|x l Hx _ IH]; [done |]. by rewrite filter_cons, decide_False, IH.
Qed.

Lemma queue_at_attempted (n : nat) (ws : list worker) :
  queue_at n ws → attempted ws = firstn n (address <$> ws).
Proof.
  intros (Hpre & Hpost & _). unfold attempted.
  rewrite <- (take_drop n ws) at 1. rewrite filter_app, fmap_app.
  assert (filter (λ w, is_waiting w = false) (drop n ws) = []) as ->.
  { apply filter_Forall_nil. eapply Forall_impl; [exact Hpost |].
    intros w Hw. unfold is_waiting. by rewrite Hw. }
  rewrite (filter_Forall_id _ _ Hpre), app_nil_r. by rewrite fmap_take.
Qed.

Lemma queue_at_start :
  ∃ n, queue_at n (workers (send_async settings default_concurrency message recipients concurrency)) ∧
       calls (send_async settings default_concurrency message recipients concurrency)
       = build <$> firstn n recipients.
Proof.
  unfold send_async.
  destruct (queue_fresh recipients) as (Ha & _ & _ & _ & Hst).
  set (fresh := (λ a, {| address := a; state := Waiting |}) <$> recipients) in *.
  assert (queue_at 0 fresh) as Hq.
  { split; [by constructor |]. split; [done | lia]. }
  pose proof (queue_at_wake limit 0 fresh Hq) as Hw. cbv zeta in Hw.
  destruct (wake build limit fresh) as [[v ws] started].
  destruct Hw as (Hq' & -> & _ & _). simpl.
  eexists. split; [exact Hq' |]. by rewrite Ha.
Qed.

Lemma queue_at_complete i s s' n :
  Inv s → queue_at n (workers s) → calls s = build <$> firstn n recipients →
  complete settings message tr progress_hook i s = Some s' →
  ∃ n', queue_at n' (workers s') ∧ calls s' = build <$> firstn n' recipients.
Proof.
  intros HI (Hpre & Hpost & Hn) Hcalls Hc. unfold complete in Hc.
  destruct (workers s !! i) as [w|] eqn:Hi; [|done].
  destruct (is_sending w) eqn:Hw; [|done].
  destruct (send_one _ _) as [records exc].
  set (w' := {| address := address w;
                state := match exc with None => Done | Some e => Failed e end |}) in *.
  assert (i < n)%nat as Hin.
  { destruct (Nat.lt_ge_cases i n) as [|Hge]; [done | exfalso].
    rewrite Forall_lookup in Hpost.
    assert (drop n (workers s) !! (i - n)%nat = Some w) as Hd.
    { rewrite lookup_drop. by replace (n + (i - n))%nat with i by lia. }
    specialize (Hpost _ _ Hd). apply sending_state in Hw. congruence. }
  assert (queue_at n (<[i := w']> (workers s))) as Hq.
  { split; [|split].
    - rewrite take_insert_lt by done. apply Forall_insert; [done |].
      unfold is_waiting, w'. simpl. by destruct exc.
    - by rewrite drop_insert_lt.
    - by rewrite length_insert. }
  pose proof (queue_at_wake (S (sem s)) n _ Hq) as Hwk. cbv zeta in Hwk.
  destruct (wake build (S (sem s)) (<[i := w']> (workers s))) as [[v ws] started].
  destruct Hwk as (Hq' & -> & _ & _).
  injection Hc as <-. cbn [workers calls].
  eexists. split; [exact Hq' |].
  rewrite Hcalls, <- take_take_drop, fmap_app. f_equal. f_equal. f_equal. f_equal.
  rewrite list_fmap_insert. cbn [address w'].
  rewrite list_insert_id; [apply (inv_addresses _ _ _ _ _ _ HI) |].
  by rewrite list_lookup_fmap, Hi.
Qed.


Lemma not_done_filter (l : list worker) :
  Forall (λ w, state w = Waiting) l → filter (λ w, is_done w = true) l = [].
Proof.
  intros H. apply filter_Forall_nil. eapply Forall_impl; [exact H |].
  intros w Hw. unfold is_done. by rewrite Hw.
Qed.

Lemma serial_start :
  limit = 1%nat →
  let s := send_async settings default_concurrency message recipients concurrency in
  (∃ n, serial_at n (workers s)) ∧
  progress s = if progress_hook then delivered s else [].
Proof.
  intros Hl. unfold send_async. rewrite Hl.
  destruct (queue_fresh recipients) as (Ha & _ & _ & Hd & Hst).
  set (fresh := (λ a, {| address := a; state := Waiting |}) <$> recipients) in *.
  assert (queue_at 0 fresh) as Hq.
  { split; [by constructor |]. split; [done | lia]. }
  pose proof (queue_at_wake 1 0 fresh Hq) as Hw. cbv zeta in Hw.
  destruct (wake build 1 fresh) as [[v ws] started] eqn:E.
  destruct Hw as (Hq' & _ & _ & _). cbn [workers progress].
  split.
  - eexists. split; [exact Hq' |].
    replace (pred (0 + 1 `min` (length fresh - 0)))%nat with 0%nat by lia.
    by constructor.
  - unfold delivered. cbn [workers].
    rewrite (woke_delivered _ _ (wake_woke _ _ _ _ _ _ E)), Hd.
    by destruct progress_hook.
Qed.

Lemma serial_complete i s s' n :
  limit = 1%nat → Inv s → serial_at n (workers s) →
  progress s = (if progress_hook then delivered s else []) →
  complete settings message tr progress_hook i s = Some s' →
  (∃ n', serial_at n' (workers s')) ∧
  progress s' = (if progress_hook then delivered s' else []) ∧
  S i = n.
Proof.
  intros Hl HI [(Hpre & Hpost & Hn) Hterm] Hprog Hc. unfold complete in Hc.
  destruct (workers s !! i) as [w|] eqn:Hi; [|done].
  destruct (is_sending w) eqn:Hw; [|done].
  assert (i < n)%nat as Hin.
  { destruct (Nat.lt_ge_cases i n) as [|Hge]; [done | exfalso].
    rewrite Forall_lookup in Hpost.
    assert (drop n (workers s) !! (i - n)%nat = Some w) as Hd.
    { rewrite lookup_drop. by replace (n + (i - n))%nat with i by lia. }
    specialize (Hpost _ _ Hd). apply sending_state in Hw. congruence. }
  assert (S i = n) as Hi'.
  { destruct (Nat.lt_ge_cases i (pred n)) as [Hlt|]; [exfalso | lia].
    rewrite Forall_lookup in Hterm.
    assert (take (pred n) (workers s) !! i = Some w) as Ht
      by (by rewrite lookup_take_lt).
    specialize (Hterm _ _ Ht). apply sending_state in Hw.
    unfold is_terminal, is_done, is_failed in Hterm. by rewrite Hw in Hterm. }
  subst n. cbn [pred] in Hterm.
  destruct (lookup_split _ _ _ Hi) as (l1 & l2 & Hws & Hl1 & Hins).
  assert (take i (workers s) = l1) as Ht1.
  { rewrite Hws, <- Hl1. by rewrite take_app_length. }
  assert (drop (S i) (workers s) = l2) as Hd2.
  { rewrite Hws, <- Hl1. rewrite (cons_middle w), app_assoc.
    rewrite drop_app_length'; [done |]. rewrite length_app. simpl. lia. }
  rewrite Ht1 in Hterm. rewrite Hd2 in Hpost.
  assert (sem s = 0%nat) as Hsem.
  { pose proof (inv_sem _ _ _ _ _ _ HI) as Hs. rewrite Hl in Hs.
    assert (1 ≤ in_flight s)%nat; [|lia].
    unfold in_flight, sending. rewrite Hws, filter_app, filter_cons, decide_True by done.
    rewrite length_app. simpl. lia. }
  destruct (send_one _ _) as [records exc].
  set (w' := {| address := address w;
                state := match exc with None => Done | Some e => Failed e end |}) in *.
  assert (is_terminal w' = true) as Hw't.
  { unfold is_terminal, is_done, is_failed, w'. simpl. by destruct exc. }
  assert (queue_at (S i) (<[i := w']> (workers s))) as Hq.
  { split; [|split].
    - rewrite take_insert_lt by done. apply Forall_insert; [done |].
      unfold is_waiting, w'. simpl. by destruct exc.
    - by rewrite drop_insert_lt, Hd2.
    - by rewrite length_insert. }
  pose proof (queue_at_wake (S (sem s)) (S i) _ Hq) as Hwk. cbv zeta in Hwk.
  destruct (wake build (S (sem s)) (<[i := w']> (workers s))) as [[v ws] started] eqn:E.
  destruct Hwk as (Hq' & _ & _ & Hsame).
  rewrite Hsem in Hq'.
  injection Hc as <-. cbn [workers progress].
  assert (take (S i) (<[i := w']> (workers s)) = l1 ++ [w']) as Hfirst.
  { rewrite Hins, <- Hl1, (cons_middle w'), app_assoc.
    rewrite take_app_length'; [done |]. rewrite length_app. simpl. lia. }
  split; [|split; [|done]].
  - eexists. split; [exact Hq' |].
    set (k := (1 `min` (length (<[i:=w']> (workers s)) - S i))%nat).
    assert (pred (S i + k) ≤ S i)%nat as Hle by lia.
    assert (take (pred (S i + k)) ws = take (pred (S i + k)) (take (S i) ws)) as ->.
    { rewrite take_take. f_equal. lia. }
    rewrite Hsame, Hfirst.
    apply Forall_take, Forall_app. split; [done | by constructor].
  - unfold delivered in *. cbn [workers].
    rewrite (woke_delivered _ _ (wake_woke _ _ _ _ _ _ E)), Hins.
    rewrite Hws in Hprog.
    rewrite !filter_app, !filter_cons, (not_done_filter _ Hpost) in *.
    rewrite (decide_False (P := is_done w = true)) in Hprog
      by (unfold is_done; by rewrite (sending_state w)).
    rewrite app_nil_r in Hprog.
    destruct exc as [e|]; unfold w'.
    + rewrite decide_False by done. by rewrite app_nil_r.
    + rewrite decide_True by done. rewrite fmap_app. csimpl.
      destruct progress_hook; [by rewrite Hprog | done].
Qed.


End Fifo.

Section FifoDemo.

Import Mailer.



End FifoDemo.

(** ** The HTML alternative of send_bulk_email *)

Section BulkHtml.

Import Mailer.

Lemma linebreak_isspace c : Py.is_linebreak c = true → Py.isspace c = true.
Proof.
  destruct c as [[] [] [] [] [] [] [] []]; vm_compute; congruence.
Qed.

Lemma lines_break_free (s : string) :
  ∀ b, Forall (λ l, Py.break_free l = true) (Py.lines_go b s).
Proof.
  induction s as [|c s IH]; intros b; cbn [Py.lines_go]; [done |].
  destruct (b && bool_decide (c = "010"%char)); [apply IH |].
  destruct (Py.is_linebreak c) eqn:Hc.
  - constructor; [done | apply IH].
  - specialize (IH false). destruct (Py.lines_go false s) as [|h t].
    + constructor; [|done]. unfold Py.break_free. cbn [Py.all_chars]. by rewrite Hc.
    + apply Forall_cons in IH as [Hh Ht]. constructor; [|done].
      unfold Py.break_free in *. cbn [Py.all_chars]. by rewrite Hc, Hh.
Qed.

Lemma join_break_free (ls : list string) :
  Forall (λ l, Py.break_free l = true) ls →
  Py.break_free (Py.join "<br/>" ls) = true.
Proof.
  induction 1 as [|l ls Hl Hls IH]; [done |].
  destruct ls as [|l' ls]; [done |].
  change (Py.join "<br/>" (l :: l' :: ls))
    with (l +:+ "<br/>" +:+ Py.join "<br/>" (l' :: ls)).
  unfold Py.break_free in *. rewrite !all_chars_app, Hl, IH. done.
Qed.

Lemma lines_go_plain (s : string) :
  Py.break_free s = true →
  Py.lines_go false s = if bool_decide (s = EmptyString) then [] else [s].
Proof.
  unfold Py.break_free.
  induction s as [|c s IH]; [done |].
  cbn [Py.all_chars Py.lines_go andb]. intros [Hc Hs]%andb_true_iff.
  apply negb_true_iff in Hc. rewrite Hc, (IH Hs).
  by case_bool_decide; subst.
Qed.

Lemma join_empty (ls : list string) :
  Py.join "<br/>" ls = EmptyString → ls = [] ∨ ls = [EmptyString].
Proof.
  destruct ls as [|l [|l' ls]]; [by left | by right; simpl in *; subst |].
  change (Py.join "<br/>" (l :: l' :: ls))
    with (l +:+ "<br/>" +:+ Py.join "<br/>" (l' :: ls)).
  destruct l; [|by rewrite app_cons]. by rewrite app_empty_l, app_cons.
Qed.

Lemma bulk_html_visible (c : ascii) (r : string) :
  Py.isspace c = false →
  Py.break_free (bulk_html (String c r)) = true ∧ bulk_html (String c r) ≠ EmptyString.
Proof.
  intros Hc. unfold bulk_html, Py.splitlines. cbv zeta.
  assert (Py.is_linebreak c = false) as Hnb.
  { destruct (Py.is_linebreak c) eqn:E; [|done].
    apply linebreak_isspace in E. congruence. }
  assert (∃ h t, Py.lines_go false (String c r) = String c h :: t) as (h & t & Hl).
  { cbn [Py.lines_go andb]. rewrite Hnb.
    destruct (Py.lines_go false r); eauto. }
  assert (∃ rest, Py.join "<br/>" (Py.lines_go false (String c r)) = String c rest)
    as [rest Hj].
  { rewrite Hl. destruct t as [|l' t]; [by eexists |].
    change (Py.join "<br/>" (String c h :: l' :: t))
      with (String c h +:+ "<br/>" +:+ Py.join "<br/>" (l' :: t)).
    rewrite app_cons. by eexists. }
  assert (Py.truthy (Py.join "<br/>" (Py.lines_go false (String c r))) = true) as ->.
  { rewrite Hj. done. }
  split; [apply join_break_free, lines_break_free | by rewrite Hj].
Qed.

(** The HTML alternative [send_bulk_email] derives from the text: a text
  without line boundaries is used as it is; otherwise the lines are joined
  by [<br/>], and no line boundary is left in the result, unless the text is
  nothing but one line boundary, which is then passed on unchanged.  A text
  that starts with a character that is not whitespace always gives a
  non-empty HTML part without line boundaries. *)
Theorem bulk_html_lines (message : string) :
  (Py.break_free message = true → bulk_html message = message) ∧
  (Py.break_free (bulk_html message) = true ∨
   (Py.splitlines message = [EmptyString] ∧ bulk_html message = message)) ∧
  (∀ c r, message = String c r → Py.isspace c = false →
     Py.break_free (bulk_html message) = true ∧ bulk_html message ≠ EmptyString).
Proof.
  unfold bulk_html, Py.splitlines. cbv zeta.
  split; [|split].
  - intros Hm. rewrite (lines_go_plain _ Hm).
    case_bool_decide; subst; [done |]. cbn [Py.join].
    unfold Py.truthy. by rewrite bool_decide_eq_false_2.
  - destruct (Py.truthy _) eqn:Ht.
    + left. apply join_break_free, lines_break_free.
    + unfold Py.truthy in Ht. apply negb_false_iff, bool_decide_eq_true in Ht.
      destruct (join_empty _ Ht) as [Hl|Hl].
      * left. destruct message as [|c r]; [done |]. exfalso.
        cbn [Py.lines_go andb] in Hl.
        destruct (Py.is_linebreak c); [done |].
        by destruct (Py.lines_go false r).
      * by right.
  - intros c r -> Hc. by apply bulk_html_visible.
Qed.

End BulkHtml.

(** ** From the compose form to the broadcast *)

Section Compose.

Import Forms Mailer App.

Lemma sanitize_input_head value max_length c r :
  sanitize_input value max_length = String c r → Py.isspace c = false.
Proof.
  destruct (sanitize_input_prefix value max_length) as [k ->].
  unfold Py.strip. destruct (Py.lstrip (Py.rstrip value)) as [|d s] eqn:E.
  - by destruct k.
  - destruct k; [done |]. simpl. intros ?; simplify_eq. by eapply lstrip_head.
Qed.

Lemma strip_visible c r :
  Py.isspace c = false → ∃ r', Py.strip (String c r) = String c r'.
Proof.
  intros Hc. unfold Py.strip. cbn [Py.rstrip].
  destruct (Py.rstrip r); rewrite ?Hc; cbn [Py.lstrip]; rewrite Hc; eauto.
Qed.

Lemma validate_outcome (f : BroadcastForm) :
  errors f = ∅ →
  ∃ ok f',
    validate f = Py.Ok (ok, f') ∧
    subject f' = subject f ∧ body f' = body f ∧
    1 ≤ concurrency f' ≤ 500 ∧
    (ok = true → 3 ≤ Py.len (subject f) ∧ 10 ≤ Py.len (body f)).
Proof.
  intros He.
  destruct (validate_subject_errors f) as [(S1 & S2 & S3 & S4 & S5 & S6) [m1 E1]].
  destruct (validate_body_errors (validate_subject f))
    as [(B1 & B2 & B3 & B4 & B5 & B6) [m2 E2]].
  destruct (validate_concurrency_errors (validate_body (validate_subject f)))
    as (f3 & m3 & Hv & C1 & C2 & C5 & C6 & Hrange & E3).
  destruct (validate_test_email_errors f3) as (T1 & T2 & T3 & m4 & E4).
  unfold validate. rewrite Hv. cbn [Py.bind].
  eexists _, _. split; [done |].
  split; [by rewrite T1, C1, B1, S1 |]. split; [by rewrite T2, C2, B2, S2 |].
  split; [by rewrite T3 |].
  unfold has_errors. rewrite negb_involutive, bool_decide_eq_true.
  rewrite E4. destruct (_ || _); [|by intros ?%insert_non_empty].
  rewrite E3. destruct (Py.parse_int _); [|by intros ?%insert_non_empty].
  rewrite E2, S2.
  destruct (Z.leb_spec 10 (Py.len (body f))); cbn [andb];
    [|by intros ?%insert_non_empty].
  destruct (Py.len (body f) <=? 50000); [|by intros ?%insert_non_empty].
  rewrite E1, He.
  destruct (Z.leb_spec 3 (Py.len (subject f))); cbn [andb];
    [|by intros ?%insert_non_empty].
  done.
Qed.



End Compose.

(** ** SMTP settings left at their placeholders *)

Section Placeholders.

Import Forms Mailer App.


End Placeholders.

(** ** Login rate limiting *)

Section RateLimit.

Import App.

Lemma clean_lookup (now : Z) (m : gmap string attempts) (k : string) :
  clean_old_attempts now m !! k =
  match m !! k with
  | Some a => if bool_decide (seconds RATE_LIMIT_WINDOW < now - first_attempt a)
              then None else Some a
  | None => None
  end.
Proof.
  unfold clean_old_attempts. cbv zeta. rewrite lookup_difference.
  destruct (filter _ m !! k) as [a|] eqn:E.
  - apply map_lookup_filter_Some in E as [Hm HP]. rewrite Hm.
    by rewrite bool_decide_eq_true_2.
  - apply map_lookup_filter_None in E as [Hm|Hm]; [by rewrite Hm |].
    destruct (m !! k) as [a|]; [|done].
    rewrite bool_decide_eq_false_2; [done |]. by apply Hm.
Qed.

(** With a clock that does not run backwards, [is_rate_limited] answers yes
  exactly when the address has at least [MAX_LOGIN_ATTEMPTS] failures on
  record and less than [RATE_LIMIT_WINDOW] seconds have passed since the
  first of them; the record is then left as it is.  Whatever the answer, the
  table afterwards holds only records that were there before and that are
  not older than the window; other addresses are affected by the cleaning
  only.  After [clear_failed_attempts] the address is not limited. *)
Theorem is_rate_limited_spec (MAX_LOGIN_ATTEMPTS now1 now2 : Z) (ip : string)
    (login_attempts : gmap string attempts) :
  now1 ≤ now2 →
  let r := is_rate_limited MAX_LOGIN_ATTEMPTS now1 now2 ip login_attempts in
  (r.1 = true ↔
   ∃ a, login_attempts !! ip = Some a ∧ MAX_LOGIN_ATTEMPTS ≤ count a ∧
        now2 - first_attempt a < seconds RATE_LIMIT_WINDOW) ∧
  (r.1 = true → r.2 !! ip = login_attempts !! ip) ∧
  (∀ ip' a, r.2 !! ip' = Some a →
     login_attempts !! ip' = Some a ∧
     now1 - first_attempt a ≤ seconds RATE_LIMIT_WINDOW) ∧
  (∀ ip', ip' ≠ ip → r.2 !! ip' = clean_old_attempts now1 login_attempts !! ip') ∧
  (is_rate_limited MAX_LOGIN_ATTEMPTS now1 now2 ip
     (clear_failed_attempts ip login_attempts)).1 = false.
Proof.
  intros Hclock r.
  assert (∀ ip' a, clean_old_attempts now1 login_attempts !! ip' = Some a →
            login_attempts !! ip' = Some a ∧
            now1 - first_attempt a ≤ seconds RATE_LIMIT_WINDOW) as Hclean.
  { intros ip' a. rewrite clean_lookup.
    destruct (login_attempts !! ip') as [b|]; [|done].
    case_bool_decide; [done |]. intros ?; simplify_eq. split; [done | lia]. }
  unfold r, is_rate_limited. cbv zeta.
  pose proof (clean_lookup now1 login_attempts ip) as Hip.
  split; [|split; [|split; [|split]]].
  - destruct (clean_old_attempts now1 login_attempts !! ip) as [a|] eqn:E.
    + destruct (Hclean _ _ E) as [Hm Hfresh].
      destruct (Z.leb_spec MAX_LOGIN_ATTEMPTS (count a)).
      * destruct (Z.ltb_spec (now2 - first_attempt a) (seconds RATE_LIMIT_WINDOW));
          cbn [fst].
        -- split; [intros _; by exists a | done].
        -- split; [done |]. intros (b & Hb & _ & Hlt). simplify_eq. lia.
      * cbn [fst]. split; [done |]. intros (b & Hb & Hc & _). simplify_eq. lia.
    + cbn [fst]. split; [done |]. intros (b & Hb & Hc & Hlt). exfalso.
      rewrite Hb in Hip. rewrite bool_decide_eq_false_2 in Hip by lia. done.
  - destruct (clean_old_attempts now1 login_attempts !! ip) as [a|] eqn:E; [|done].
    destruct (Hclean _ _ E) as [Hm _].
    destruct (MAX_LOGIN_ATTEMPTS <=? count a); [|done].
    destruct (now2 - first_attempt a <? seconds RATE_LIMIT_WINDOW); [|done].
    cbn [fst snd]. intros _. by rewrite E, Hm.
  - intros ip' a.
    destruct (clean_old_attempts now1 login_attempts !! ip) as [b|] eqn:E;
      [|cbn [snd]; apply Hclean].
    destruct (MAX_LOGIN_ATTEMPTS <=? count b); [|cbn [snd]; apply Hclean].
    destruct (now2 - first_attempt b <? seconds RATE_LIMIT_WINDOW);
      cbn [snd]; [apply Hclean |].
    intros [_ Hd]%lookup_delete_Some. by apply Hclean.
  - intros ip' Hne.
    destruct (clean_old_attempts now1 login_attempts !! ip) as [b|] eqn:E; [|done].
    destruct (MAX_LOGIN_ATTEMPTS <=? count b); [|done].
    destruct (now2 - first_attempt b <? seconds RATE_LIMIT_WINDOW); [done |].
    cbn [snd]. by rewrite lookup_delete_ne.
  - unfold clear_failed_attempts.
    by rewrite clean_lookup, lookup_delete_eq.
Qed.

Lemma is_rate_limited_spec_witness :
  (is_rate_limited 5 (seconds 1200) (seconds 1200) "10.0.0.7"
     {[ "10.0.0.7" := {| count := 5; first_attempt := seconds 1000 |} ]}).1 = true ∧
  (is_rate_limited 5 (seconds 1300) (seconds 1300) "10.0.0.7"
     {[ "10.0.0.7" := {| count := 5; first_attempt := seconds 1000 |} ]}).1 = false.
Proof.
  destruct (is_rate_limited_spec 5 (seconds 1200) (seconds 1200) "10.0.0.7"
              {[ "10.0.0.7" := {| count := 5; first_attempt := seconds 1000 |} ]})
    as (Hyes & _); [lia |].
  destruct (is_rate_limited_spec 5 (seconds 1300) (seconds 1300) "10.0.0.7"
              {[ "10.0.0.7" := {| count := 5; first_attempt := seconds 1000 |} ]})
    as (Hno & _); [lia |].
  split.
  - apply Hyes. exists {| count := 5; first_attempt := seconds 1000 |}.
    split; [done |]. vm_compute. done.
  - apply not_true_is_false. intros Hlim.
    destruct (proj1 Hno Hlim) as (a & Ha & _ & Hlt).
    vm_compute in Ha. injection Ha as <-. vm_compute in Hlt. done.
Defined.

Lemma record_failed_again (ip : string) (ts : list Z) :
  ∀ (m : gmap string attempts) (a : attempts),
    m !! ip = Some a →
    foldl (λ m t, record_failed_attempt t ip m) m ts !! ip
    = Some {| count := count a + Z.of_nat (length ts);
              first_attempt := first_attempt a |}.
Proof.
  induction ts as [|t ts IH]; intros m a Hm; cbn [foldl length].
  - rewrite Hm. f_equal. destruct a. simpl. f_equal. lia.
  - erewrite IH.
    2: { unfold record_failed_attempt. rewrite Hm. apply lookup_insert_eq. }
    simpl. f_equal. f_equal. lia.
Qed.

Lemma record_failed_others (ip ip' : string) (ts : list Z) :
  ip' ≠ ip →
  ∀ m : gmap string attempts,
    foldl (λ m t, record_failed_attempt t ip m) m ts !! ip' = m !! ip'.
Proof.
  intros Hne. induction ts as [|t ts IH]; intros m; cbn [foldl]; [done |].
  rewrite IH. unfold record_failed_attempt.
  destruct (m !! ip); by rewrite lookup_insert_ne.
Qed.

(** The lockout window is anchored at the first failure.  For an address
  with no record, after failures recorded at the times [t1 :: later] the
  record holds their number and [t1]; the address is then limited exactly
  when at least [MAX_LOGIN_ATTEMPTS] failures were recorded and less than
  [RATE_LIMIT_WINDOW] seconds have passed since [t1], however recent the
  later failures are.  Records of other addresses are not touched. *)
Theorem lockout_window (MAX_LOGIN_ATTEMPTS now t1 : Z) (later : list Z) (ip : string)
    (login_attempts : gmap string attempts) :
  login_attempts !! ip = None →
  let table := foldl (λ m t, record_failed_attempt t ip m) login_attempts (t1 :: later) in
  table !! ip = Some {| count := Z.of_nat (length (t1 :: later)); first_attempt := t1 |} ∧
  (is_rate_limited MAX_LOGIN_ATTEMPTS now now ip table).1
  = (MAX_LOGIN_ATTEMPTS <=? Z.of_nat (length (t1 :: later)))
    && (now - t1 <? seconds RATE_LIMIT_WINDOW) ∧
  (∀ ip', ip' ≠ ip → table !! ip' = login_attempts !! ip').
Proof.
  intros Hnone table.
  assert (table !! ip
          = Some {| count := Z.of_nat (length (t1 :: later)); first_attempt := t1 |})
    as Hrec.
  { unfold table. cbn [foldl].
    erewrite record_failed_again.
    2: { unfold record_failed_attempt. rewrite Hnone. apply lookup_insert_eq. }
    cbn [count first_attempt length]. f_equal. f_equal. lia. }
  split; [done |]. split.
  - unfold is_rate_limited. cbv zeta. rewrite clean_lookup, Hrec.
    cbn [first_attempt].
    case_bool_decide as Hold; cbn [first_attempt] in Hold.
    + assert ((now - t1 <? seconds RATE_LIMIT_WINDOW) = false) as Hf.
      { apply Z.ltb_ge. clear -Hold. lia. }
      by rewrite Hf, andb_false_r.
    + cbn [count].
      destruct (MAX_LOGIN_ATTEMPTS <=? Z.of_nat (length (t1 :: later))); [|done].
      cbn [first_attempt].
      by destruct (now - t1 <? seconds RATE_LIMIT_WINDOW).
  - intros ip' Hne. unfold table. by apply record_failed_others.
Qed.

Lemma lockout_window_witness :
  (is_rate_limited 3 (seconds 299) (seconds 299) "10.0.0.7"
     (foldl (λ m t, record_failed_attempt t "10.0.0.7" m) ∅
        [seconds 0; seconds 100; seconds 298])).1 = true ∧
  (is_rate_limited 3 (seconds 300) (seconds 300) "10.0.0.7"
     (foldl (λ m t, record_failed_attempt t "10.0.0.7" m) ∅
        [seconds 0; seconds 100; seconds 298])).1 = false.
Proof.
  split.
  - destruct (lockout_window 3 (seconds 299) (seconds 0) [seconds 100; seconds 298]
                "10.0.0.7" ∅) as (_ & -> & _); [done | vm_compute; reflexivity].
  - destruct (lockout_window 3 (seconds 300) (seconds 0) [seconds 100; seconds 298]
                "10.0.0.7" ∅) as (_ & -> & _); [done | vm_compute; reflexivity].
Defined.

End RateLimit.

(** ** Merging recipients *)

Section Merge.

Import App.

Lemma merge_key_strip (a : string) : merge_key (Py.strip a) = merge_key a.
Proof. unfold merge_key. by rewrite <- strip_lower, strip_idem, strip_lower. Qed.

Lemma merge_step_eq (l : list string) (seen : gset string) (n : Z) (a : string) :
  merge_step (l, seen, n) a =
  if Py.truthy (merge_key a) && negb (bool_decide (merge_key a ∈ seen))
  then (l ++ [Py.strip a], {[merge_key a]} ∪ seen, n + 1)
  else (l, seen, n).
Proof. reflexivity. Qed.

Lemma merge_fold (addresses : list string) :
  ∀ (l : list string) (n : Z),
    let st := foldl merge_step (l, list_to_set (merge_key <$> l), n) addresses in
    ∃ new,
      st.1.1 = l ++ new ∧
      st.1.2 = list_to_set (merge_key <$> (l ++ new)) ∧
      st.2 = n + Z.of_nat (length new) ∧
      NoDup (merge_key <$> new) ∧
      (∀ x, x ∈ new →
         ∃ a, a ∈ addresses ∧ x = Py.strip a ∧
              (merge_key a ∉ merge_key <$> l) ∧ merge_key a ≠ EmptyString) ∧
      (∀ a, a ∈ addresses → merge_key a ≠ EmptyString →
         merge_key a ∈ merge_key <$> (l ++ new)).
Proof.
  induction addresses as [|a addresses IH]; intros l n; cbn [foldl]; cbv zeta.
  - exists []. rewrite app_nil_r. cbn. split_and!; try done; try lia.
    + constructor.
    + by intros x ?%elem_of_nil.
    + by intros x ?%elem_of_nil.
  - rewrite merge_step_eq.
    destruct (Py.truthy (merge_key a)
              && negb (bool_decide (merge_key a ∈ (list_to_set (merge_key <$> l) : gset string))))
      eqn:Hnew.
    + apply andb_true_iff in Hnew as [Hne Hfresh].
      apply negb_true_iff, bool_decide_eq_false in Hfresh.
      rewrite elem_of_list_to_set in Hfresh.
      assert (merge_key a ≠ EmptyString) as Hne'.
      { unfold Py.truthy in Hne. by apply negb_true_iff, bool_decide_eq_false in Hne. }
      assert (({[merge_key a]} ∪ list_to_set (merge_key <$> l) : gset string)
              = list_to_set (merge_key <$> (l ++ [Py.strip a]))) as ->.
      { rewrite fmap_app, list_to_set_app_L. cbn. rewrite merge_key_strip.
        by rewrite (right_id_L ∅ (∪)), (comm_L (∪)). }
      destruct (IH (l ++ [Py.strip a]) (n + 1)) as (new & H1 & H2 & H3 & H4 & H5 & H6).
      exists (Py.strip a :: new).
      rewrite <- !app_assoc in *. cbn [app] in *.
      split_and!; try done.
      * rewrite H3. cbn [length]. lia.
      * rewrite fmap_cons, merge_key_strip. constructor; [|done].
        intros Hin. apply list_elem_of_fmap in Hin as (x & Hx & Hxin).
        destruct (H5 x Hxin) as (b & _ & -> & Hb & _).
        apply Hb. rewrite fmap_app, elem_of_app. right. cbn.
        rewrite merge_key_strip in *. rewrite <- Hx. constructor.
      * intros x [->|Hx]%elem_of_cons.
        -- exists a. split_and!; try done. constructor.
        -- destruct (H5 x Hx) as (b & Hb & -> & Hfr & Hbne).
           exists b. split_and!; try done; [by constructor |].
           intros Hin. apply Hfr. rewrite fmap_app, elem_of_app. by left.
      * intros b [->|Hb]%elem_of_cons Hbne; [|by apply H6].
        rewrite fmap_app, elem_of_app. right. rewrite fmap_cons, merge_key_strip.
        constructor.
    + destruct (IH l n) as (new & H1 & H2 & H3 & H4 & H5 & H6).
      exists new. split_and!; try done.
      * intros x Hx. destruct (H5 x Hx) as (b & Hb & ? & ? & ?).
        exists b. split_and!; try done. by constructor.
      * intros b [->|Hb]%elem_of_cons Hbne; [|by apply H6].
        apply andb_false_iff in Hnew as [Hnew|Hnew].
        -- unfold Py.truthy in Hnew.
           by apply negb_false_iff, bool_decide_eq_true in Hnew.
        -- apply negb_false_iff, bool_decide_eq_true in Hnew.
           rewrite elem_of_list_to_set in Hnew.
           rewrite fmap_app, elem_of_app. by left.
Qed.

Lemma merge_nothing (addresses : list string) (l : list string) (seen : gset string) (n : Z) :
  (∀ a, a ∈ addresses → merge_key a ≠ EmptyString → merge_key a ∈ seen) →
  foldl merge_step (l, seen, n) addresses = (l, seen, n).
Proof.
  induction addresses as [|a addresses IH]; intros Hall; cbn [foldl]; [done |].
  rewrite merge_step_eq.
  destruct (Py.truthy (merge_key a)) eqn:Hne; cbn [andb].
  - rewrite bool_decide_eq_true_2.
    + cbn [negb]. apply IH. intros b Hb. apply Hall. by constructor.
    + apply Hall; [constructor |].
      unfold Py.truthy in Hne. by apply negb_true_iff, bool_decide_eq_false in Hne.
  - apply IH. intros b Hb. apply Hall. by constructor.
Qed.

(** [_merge_recipients] only appends: the old list is a prefix of the new
  one and the count returned is the number of entries appended.  Each
  appended entry is the trimmed form of a submitted address whose key
  (lower case, trimmed) is not empty and was not in the list; the appended
  keys are distinct, so a list with distinct keys keeps distinct keys.
  Afterwards the key of every submitted address with a non-empty key is in
  the list, and merging the same addresses again adds nothing. *)
Theorem merge_recipients_spec (addresses RECEIVER_EMAILS : list string) :
  let r := merge_recipients addresses RECEIVER_EMAILS in
  ∃ new,
    r.2 = RECEIVER_EMAILS ++ new ∧
    r.1 = Z.of_nat (length new) ∧
    NoDup (merge_key <$> new) ∧
    (NoDup (merge_key <$> RECEIVER_EMAILS) → NoDup (merge_key <$> r.2)) ∧
    (∀ x, x ∈ new →
       ∃ a, a ∈ addresses ∧ x = Py.strip a ∧
            (merge_key a ∉ merge_key <$> RECEIVER_EMAILS) ∧ merge_key a ≠ EmptyString) ∧
    (∀ a, a ∈ addresses → merge_key a ≠ EmptyString → merge_key a ∈ merge_key <$> r.2) ∧
    merge_recipients addresses r.2 = (0, r.2).
Proof.
  intros r. unfold r, merge_recipients. cbv zeta. cbn [fst snd].
  destruct (merge_fold addresses RECEIVER_EMAILS 0) as (new & H1 & H2 & H3 & H4 & H5 & H6).
  exists new. rewrite H1, H3.
  split_and!; try done.
  - intros Hnd. rewrite fmap_app. apply NoDup_app. split_and!; try done.
    intros k Hk Hk'. apply list_elem_of_fmap in Hk' as (x & -> & Hx).
    destruct (H5 x Hx) as (a & _ & -> & Ha & _). rewrite merge_key_strip in Hk. done.
  - rewrite merge_nothing; [done |].
    intros a Ha Hne. rewrite elem_of_list_to_set. by apply H6.
Qed.

End Merge.

(** ** Editing the recipient list *)

Section EditRecipients.

Import App.

Variable persist : list string → bool * list Mailer.log_record.

Lemma pop_insert_at {A} (l : list A) (i : nat) (x : A) :
  l !! i = Some x → Py.insert_at (firstn i l ++ skipn (S i) l) i x = l.
Proof.
  intros Hi. unfold Py.insert_at.
  pose proof (lookup_lt_Some _ _ _ Hi) as Hlt.
  assert (length (take i l) = i) as Hlen by (rewrite length_take; lia).
  rewrite take_app_length' by done.
  rewrite drop_app_length' by done.
  by rewrite take_drop_middle.
Qed.

(** [delete_recipient] never raises.  With an index in range it removes
  exactly the entry at that index when the new list can be persisted, and
  puts the entry back where it was, leaving the list as before, when it
  cannot; any other index leaves the list alone and logs nothing.
  [clear_recipients], in contrast, leaves the list empty even when
  persisting fails. *)
Theorem delete_recipient_spec (index : Z) (RECEIVER_EMAILS : list string) :
  ∃ eff,
    delete_recipient persist index RECEIVER_EMAILS = Py.Ok eff ∧
    (emails eff = RECEIVER_EMAILS ∨
     ∃ removed,
       0 ≤ index ∧
       RECEIVER_EMAILS !! Z.to_nat index = Some removed ∧
       emails eff = firstn (Z.to_nat index) RECEIVER_EMAILS
                    ++ skipn (S (Z.to_nat index)) RECEIVER_EMAILS ∧
       S (length (emails eff)) = length RECEIVER_EMAILS ∧
       persist (emails eff) = (true, firstn (length (logged eff) - 1) (logged eff)) ∧
       flashed eff = [("Removed recipient: " +:+ removed, "success")]) ∧
    (0 ≤ index < Z.of_nat (length RECEIVER_EMAILS) →
     (persist (firstn (Z.to_nat index) RECEIVER_EMAILS
               ++ skipn (S (Z.to_nat index)) RECEIVER_EMAILS)).1 = false →
     emails eff = RECEIVER_EMAILS ∧
     flashed eff = [("Failed to persist changes.", "danger")]) ∧
    (0 ≤ index < Z.of_nat (length RECEIVER_EMAILS) →
     (persist (firstn (Z.to_nat index) RECEIVER_EMAILS
               ++ skipn (S (Z.to_nat index)) RECEIVER_EMAILS)).1 = true →
     emails eff ≠ RECEIVER_EMAILS) ∧
    (¬ (0 ≤ index < Z.of_nat (length RECEIVER_EMAILS)) →
     emails eff = RECEIVER_EMAILS ∧ logged eff = [] ∧
     flashed eff = [("Invalid recipient index.", "danger")]) ∧
    emails (clear_recipients persist RECEIVER_EMAILS) = [].
Proof.
  unfold delete_recipient.
  destruct (Z.leb_spec 0 index) as [H0|H0]; cbn [andb].
  2: { eexists. split; [done |]. cbn [emails logged flashed].
       split; [by left |]. split; [lia |]. split; [lia |].
       split; [done |]. unfold clear_recipients. by destruct (persist []) as [[] ?]. }
  destruct (Z.ltb_spec index (Z.of_nat (length RECEIVER_EMAILS))) as [H1|H1].
  2: { eexists. split; [done |]. cbn [emails logged flashed].
       split; [by left |]. split; [lia |]. split; [lia |].
       split; [done |]. unfold clear_recipients. by destruct (persist []) as [[] ?]. }
  assert (Z.to_nat index < length RECEIVER_EMAILS)%nat as Hlt by lia.
  destruct (lookup_lt_is_Some_2 _ _ Hlt) as [removed Hi].
  unfold Py.pop. rewrite Hi. cbn [Py.bind].
  set (rest := firstn (Z.to_nat index) RECEIVER_EMAILS
               ++ skipn (S (Z.to_nat index)) RECEIVER_EMAILS).
  assert (S (length rest) = length RECEIVER_EMAILS) as Hlen.
  { unfold rest. rewrite length_app, length_take, length_drop. lia. }
  destruct (persist rest) as [persisted records] eqn:Hp.
  destruct persisted.
  - eexists. split; [done |]. cbn [emails logged flashed fst].
    split; [|split; [done |split; [|split]]].
    + right. exists removed. split; [done |]. split; [done |]. split; [done |].
      split; [done |]. split; [|done].
      rewrite Hp. f_equal. rewrite length_app. cbn [length].
      replace (length records + 1 - 1)%nat with (length records) by lia.
      by rewrite take_app_length.
    + intros _ _ Heq. rewrite <- Heq in Hlen. lia.
    + lia.
    + unfold clear_recipients. by destruct (persist []) as [[] ?].
  - eexists. split; [done |]. cbn [emails logged flashed fst].
    split; [|split; [|split; [done |split]]].
    + left. by apply pop_insert_at.
    + intros _ _. split; [by apply pop_insert_at | done].
    + lia.
    + unfold clear_recipients. by destruct (persist []) as [[] ?].
Qed.

End EditRecipients.

(** ** The generated recipient module *)

Section Persist.

Import Forms App.

Lemma lines_go_line (l rest : string) :
  Py.break_free l = true → l ≠ EmptyString →
  Py.lines_go false (l +:+ String "010" rest) = l :: Py.lines_go false rest.
Proof.
  unfold Py.break_free.
  induction l as [|c l IH]; [done |]. intros Hbf _.
  cbn [Py.all_chars] in Hbf. apply andb_true_iff in Hbf as [Hc Hl].
  apply negb_true_iff in Hc.
  rewrite app_cons. cbn [Py.lines_go andb]. rewrite Hc.
  destruct l as [|d l].
  - rewrite app_empty_l. cbn [Py.lines_go andb].
    assert (Py.is_linebreak "010" = true) as -> by done.
    by rewrite bool_decide_eq_false_2.
  - by rewrite IH.
Qed.

Lemma splitlines_join (ls : list string) :
  Forall (λ l, Py.break_free l = true ∧ l ≠ EmptyString) ls →
  Py.splitlines (Py.join (String "010" EmptyString) ls) = ls.
Proof.
  unfold Py.splitlines.
  induction 1 as [|l ls [Hbf Hne] Hls IH]; [done |].
  destruct ls as [|l' ls].
  - cbn [Py.join]. rewrite (lines_go_plain _ Hbf). by rewrite bool_decide_eq_false_2.
  - change (Py.join (String "010" EmptyString) (l :: l' :: ls))
      with (l +:+ String "010" EmptyString +:+ Py.join (String "010" EmptyString) (l' :: ls)).
    rewrite app_cons, app_empty_l.
    by rewrite lines_go_line, IH.
Qed.

Lemma count_char_app c (s t : string) :
  Py.count_char c (s +:+ t) = (Py.count_char c s + Py.count_char c t)%nat.
Proof.
  induction s as [|d s IH]; [done |].
  rewrite app_cons. cbn [Py.count_char]. rewrite IH. lia.
Qed.

Lemma literal_safe_inv (a : string) :
  literal_safe a = true →
  Py.count_char "034" a = 0%nat ∧ Py.has_char "\" a = false ∧ Py.break_free a = true.
Proof.
  unfold literal_safe, Py.break_free.
  induction a as [|c a IH]; [done |].
  cbn [Py.all_chars Py.count_char Py.has_char]. intros [Hc Ha]%andb_true_iff.
  destruct (IH Ha) as (-> & -> & ->).
  apply negb_true_iff in Hc.
  apply orb_false_iff in Hc as [Hc ->]. apply orb_false_iff in Hc as [-> ->].
  done.
Qed.

(** For recipients that hold no double quote, backslash or line boundary,
  the block that [_persist_recipients] writes has exactly one line per
  recipient, in the order of the list; each line is the address between two
  double quotes, with no other double quote and no backslash in it. *)
Theorem persist_block_lines (RECEIVER_EMAILS : list string) :
  Forall (λ a, literal_safe a = true) RECEIVER_EMAILS →
  Py.splitlines (persist_block RECEIVER_EMAILS) = persist_line <$> RECEIVER_EMAILS ∧
  Forall (λ a, persist_line a = "                " +:+ quote +:+ a +:+ quote +:+ "," ∧
               Py.count_char "034" (persist_line a) = 2%nat ∧
               Py.has_char "\" (persist_line a) = false)
         RECEIVER_EMAILS.
Proof.
  intros Hsafe.
  assert (Forall (λ a, Py.break_free (persist_line a) = true ∧
                       persist_line a ≠ EmptyString ∧
                       Py.count_char "034" (persist_line a) = 2%nat ∧
                       Py.has_char "\" (persist_line a) = false) RECEIVER_EMAILS) as H.
  { eapply Forall_impl; [exact Hsafe |]. intros a Ha.
    destruct (literal_safe_inv a Ha) as (Hq & Hb & Hbf).
    unfold persist_line, quote, Py.break_free.
    rewrite !all_chars_app, !count_char_app, !has_char_app, Hq, Hb.
    unfold Py.break_free in Hbf. rewrite Hbf.
    split; [done |]. split; [by rewrite !app_cons |]. done. }
  split.
  - unfold persist_block. apply splitlines_join.
    apply Forall_fmap. eapply Forall_impl; [exact H |].
    by intros a (? & ? & _).
  - eapply Forall_impl; [exact H |]. by intros a (_ & _ & ? & ?).
Qed.

Lemma persist_block_lines_witness :
  Py.splitlines (persist_block ["a@x.com"; "o'neil@y.org"])
  = ["                " +:+ quote +:+ "a@x.com" +:+ quote +:+ ",";
     "                " +:+ quote +:+ "o'neil@y.org" +:+ quote +:+ ","].
Proof.
  destruct (persist_block_lines ["a@x.com"; "o'neil@y.org"]) as [Hl _].
  - repeat constructor.
  - exact Hl.
Defined.

Lemma all_chars_intro (p : ascii → bool) (s : string) :
  (∀ c, Py.has_char c s = true → p c = true) → Py.all_chars p s = true.
Proof.
  induction s as [|d s IH]; [done |]. intros H. cbn [Py.all_chars].
  rewrite (H d), IH; [done | |].
  - intros c Hc. apply H. cbn [Py.has_char]. by rewrite Hc, orb_true_r.
  - cbn [Py.has_char]. by rewrite bool_decide_eq_true_2.
Qed.

Lemma all_chars_elim (p : ascii → bool) (s : string) (c : ascii) :
  Py.all_chars p s = true → Py.has_char c s = true → p c = true.
Proof.
  induction s as [|d s IH]; [done |]. cbn [Py.all_chars Py.has_char].
  intros [Hd Hs]%andb_true_iff [Hc|Hc]%orb_true_iff.
  - apply bool_decide_eq_true in Hc. by subst.
  - by apply IH.
Qed.

Lemma email_literal_safe (a : string) :
  Re.accepts EMAIL_RE a = true → sep_free a = true → literal_safe a = true.
Proof.
  intros Hre Hsep. apply accepts_matches in Hre.
  apply all_chars_intro. intros c Hc.
  apply negb_true_iff, orb_false_iff. split; [apply orb_false_iff; split |].
  - apply bool_decide_eq_false. intros ->.
    by rewrite (matches_excludes _ _ _ Hre) in Hc.
  - apply bool_decide_eq_false. intros ->.
    by rewrite (matches_excludes _ _ _ Hre) in Hc.
  - destruct (Py.is_linebreak c) eqn:Hlb; [exfalso | done].
    apply linebreak_isspace in Hlb.
    pose proof (all_chars_elim _ _ _ Hsep Hc) as Hns. cbv beta in Hns.
    by rewrite (is_sep_space c Hlb) in Hns.
Qed.

Lemma recipient_validate_accepts (self : RecipientForm) :
  rf_errors self = ∅ →
  ∃ ok form,
    RecipientForm_validate self = Py.Ok (ok, form) ∧
    flatten_addresses form = flatten_addresses self ∧
    (ok = true → Forall (λ a, accepts_email self a = true) (flatten_addresses self)).
Proof.
  intros He. unfold RecipientForm_validate.
  destruct (Py.truthy (addresses self)); cbn [negb].
  2: { by eexists _, _. }
  destruct (flatten_addresses self) as [|a0 rest] eqn:Hcl.
  { eexists _, _. split; [done |]. split; [|done].
    unfold flatten_addresses in *. exact Hcl. }
  rewrite <- Hcl.
  destruct (MAX_ADDRESSES <? Z.of_nat (length (flatten_addresses self))).
  { by eexists _, _. }
  destruct (check_loop self (flatten_addresses self) ([], [])) as (st & -> & Hlen).
  cbn [Py.bind].
  destruct (report_invalid_spec st.1 st.2 self He) as (Ha & Hb & Hd & Herr).
  destruct (same_fields self (report_invalid st.1 st.2 self) Ha Hb Hd) as (Hflat & _ & _).
  eexists _, _. split; [done |]. split; [done |].
  unfold rf_has_errors. rewrite negb_involutive, bool_decide_eq_true, Herr.
  intros Hnil. apply filter_none_all. rewrite Hnil in Hlen.
  cbn [fst length] in Hlen. lia.
Qed.

(** What a POST to the recipients route appends. *)
Lemma recipients_post_appends (persist : list string → bool * list Mailer.log_record)
    (RECEIVER_EMAILS : list string) (form_data : gmap string string) :
  ∃ eff new,
    recipients_post persist RECEIVER_EMAILS form_data = Py.Ok eff ∧
    emails eff = RECEIVER_EMAILS ++ new ∧
    NoDup (merge_key <$> new) ∧
    Forall (λ a, Re.accepts EMAIL_RE a = true ∧ Py.len a ≤ 254 ∧
                 literal_safe a = true ∧ merge_key a = a ∧
                 merge_key a ∉ merge_key <$> RECEIVER_EMAILS) new ∧
    (new = [] → logged eff = []).
Proof.
  unfold recipients_post. cbv zeta.
  set (form := RecipientForm_init (Some form_data)).
  destruct (recipient_validate_accepts form eq_refl) as (ok & form' & -> & Hflat & Hacc).
  cbn [Py.bind].
  destruct ok.
  2: { exists {| emails := RECEIVER_EMAILS;
                 flashed := [("Please fix the highlighted errors.", "danger")];
                 logged := [] |}, [].
       cbn [emails logged]. rewrite app_nil_r.
       split_and!; try done. constructor. }
  specialize (Hacc eq_refl). rewrite Hflat.
  destruct (merge_fold (flatten_addresses form) RECEIVER_EMAILS 0)
    as (new & H1 & _ & H3 & H4 & H5 & _).
  unfold merge_recipients. cbv zeta. rewrite H1, H3.
  assert (Forall (λ a, Re.accepts EMAIL_RE a = true ∧ Py.len a ≤ 254 ∧
                       literal_safe a = true ∧ merge_key a = a ∧
                       merge_key a ∉ merge_key <$> RECEIVER_EMAILS) new) as Hnew.
  { apply Forall_forall. intros x Hx.
    destruct (H5 x Hx) as (a & Ha & -> & Hfresh & _).
    rewrite Forall_forall in Hacc.
    destruct (accepts_email_inv form a (Hacc a Ha)) as (Hlen & Hre & _).
    pose proof (flatten_addresses_canonical form) as Hcan.
    rewrite Forall_forall in Hcan. destruct (Hcan a Ha) as [[Hsep _] Hnorm].
    assert (Py.strip a = a) as Hstrip.
    { unfold Py.strip. by rewrite sep_free_rstrip, sep_free_lstrip. }
    assert (merge_key a = a) as Hkey.
    { unfold merge_key. rewrite strip_lower. exact Hnorm. }
    rewrite Hstrip, Hkey. split_and!; try done.
    - by apply email_literal_safe.
    - by rewrite Hkey in Hfresh. }
  destruct new as [|x new].
  - exists {| emails := RECEIVER_EMAILS ++ [];
              flashed := [("No new recipients were added (all duplicates).", "info")];
              logged := [] |}, [].
    cbn [emails logged]. split_and!; try done.
  - assert ((0 + Z.of_nat (length (x :: new)) =? 0) = false) as ->
      by (apply Z.eqb_neq; rewrite length_cons; lia).
    cbn [negb].
    destruct (persist (RECEIVER_EMAILS ++ x :: new)) as [[] records];
      eexists _, (x :: new); cbn [emails logged]; split_and!; try done.
Qed.

(** A POST to the recipients route never raises and only appends to the
  list.  Every entry it appends has passed [validate_email]: it matches
  [EMAIL_RE], has at most 254 characters, is trimmed and in lower case, and
  holds no double quote, backslash or line boundary; no entry is appended
  twice, and none whose key is already in the list.  So a list whose entries
  can all be written between double quotes as they are, or whose keys are
  distinct, stays such a list.  When nothing is appended nothing is
  persisted or logged. *)
Theorem recipients_post_spec (persist : list string → bool * list Mailer.log_record)
    (RECEIVER_EMAILS : list string) (form_data : gmap string string) :
  ∃ eff new,
    recipients_post persist RECEIVER_EMAILS form_data = Py.Ok eff ∧
    emails eff = RECEIVER_EMAILS ++ new ∧
    NoDup new ∧
    Forall (λ a, Re.accepts EMAIL_RE a = true ∧ Py.len a ≤ 254 ∧
                 literal_safe a = true ∧ merge_key a = a ∧
                 merge_key a ∉ merge_key <$> RECEIVER_EMAILS) new ∧
    (Forall (λ a, literal_safe a = true) RECEIVER_EMAILS →
     Forall (λ a, literal_safe a = true) (emails eff)) ∧
    (NoDup (merge_key <$> RECEIVER_EMAILS) → NoDup (merge_key <$> emails eff)) ∧
    (new = [] → logged eff = []).
Proof.
  destruct (recipients_post_appends persist RECEIVER_EMAILS form_data)
    as (eff & new & Hpost & Hemails & Hnd & Hnew & Hlog).
  exists eff, new. rewrite Hemails.
  assert (merge_key <$> new = new) as Hkeys.
  { clear -Hnew. induction Hnew as [|a l (_ & _ & _ & Ha & _) _ IH]; [done |].
    csimpl. by rewrite Ha, IH. }
  split; [done |]. split; [done |]. split; [by rewrite <- Hkeys |].
  split; [done |]. split; [|split; [|done]].
  - intros HR. apply Forall_app. split; [done |].
    eapply Forall_impl; [exact Hnew |]. by intros a (_ & _ & ? & _).
  - intros HR. rewrite fmap_app, Hkeys. apply NoDup_app.
    split; [done |]. split; [|by rewrite <- Hkeys].
    intros k Hk Hk'. rewrite Forall_forall in Hnew.
    destruct (Hnew k Hk') as (_ & _ & _ & Hkk & Hfresh). by rewrite Hkk in Hfresh.
Qed.

End Persist.

(** ** The login route *)

Section LoginRoute.

Import Forms App.

Lemma login_validate_outcome (f : LoginForm) :
  lf_errors f = ∅ →
  username (LoginForm_validate f).2 = username f ∧
  password (LoginForm_validate f).2 = password f ∧
  ((LoginForm_validate f).1 = true ↔
   3 ≤ Py.len (username f) ≤ 100 ∧ 6 ≤ Py.len (password f) ≤ 128).
Proof.
  intros He. unfold LoginForm_validate, lf_has_errors.
  rewrite !truthy_ltb.
  unfold MAX_USERNAME_LENGTH, MAX_PASSWORD_LENGTH, MIN_PASSWORD_LENGTH.
  destruct (Z.ltb_spec 0 (Py.len (username f))) as [U0|U0];
    [destruct (Z.ltb_spec (Py.len (username f)) 3) as [U3|U3];
     [|destruct (Z.ltb_spec 100 (Py.len (username f))) as [U1|U1]]|];
    cbv zeta; cbn [negb lf_add_error lf_errors username password];
    (destruct (Z.ltb_spec 0 (Py.len (password f))) as [P0|P0];
     [destruct (Z.ltb_spec (Py.len (password f)) 6) as [P6|P6];
      [|destruct (Z.ltb_spec 128 (Py.len (password f))) as [P1|P1]]|]);
    cbn [negb fst snd lf_add_error lf_errors username password];
    rewrite ?He;
    (first [ rewrite (bool_decide_eq_true_2 (∅ = ∅)) by done
           | rewrite bool_decide_eq_false_2 by apply insert_non_empty ]);
    cbn [negb];
    (split; [done |]); (split; [done |]);
    (split; [intros; first [done | lia] | intros; first [done | lia]]).
Qed.

Lemma not_limited_without_record (MAX now1 now2 : Z) (ip : string)
    (m : gmap string attempts) :
  m !! ip = None → (is_rate_limited MAX now1 now2 ip m).1 = false.
Proof.
  intros Hm. unfold is_rate_limited. cbv zeta. by rewrite clean_lookup, Hm.
Qed.

Lemma not_logged_in (SESSION_LIFETIME now : Z) (session : option session_data) :
  (is_logged_in SESSION_LIFETIME now session).1 = false →
  logged_in <$> (is_logged_in SESSION_LIFETIME now session).2 ≠ Some true ∧
  ∀ now', (is_logged_in SESSION_LIFETIME now'
             (is_logged_in SESSION_LIFETIME now session).2).1 = false.
Proof.
  unfold is_logged_in. destruct session as [s|]; [|done].
  destruct (logged_in s) eqn:Hl; cbn [negb].
  - destruct (login_time s) as [t|]; [|done].
    destruct (seconds SESSION_LIFETIME <? now - t); [done | done].
  - intros _. cbn [fst snd]. rewrite Hl. split; [by cbn; rewrite Hl | done].
Qed.

Lemma limited_has_record (MAX now1 now2 : Z) (ip : string) (m : gmap string attempts) :
  (is_rate_limited MAX now1 now2 ip m).1 = true →
  ∃ a, (is_rate_limited MAX now1 now2 ip m).2 !! ip = Some a ∧ m !! ip = Some a.
Proof.
  unfold is_rate_limited. cbv zeta.
  pose proof (clean_lookup now1 m ip) as Hc.
  destruct (clean_old_attempts now1 m !! ip) as [a|] eqn:E; [|done].
  destruct (MAX <=? count a); [|done].
  destruct (now2 - first_attempt a <? seconds RATE_LIMIT_WINDOW); [|done].
  intros _. exists a. cbn [snd]. split; [done |].
  destruct (m !! ip) as [b|]; [|done]. by case_bool_decide.
Qed.

Variable ADMIN_USERNAME ADMIN_PASSWORD : string.
Variable SESSION_LIFETIME MAX_LOGIN_ATTEMPTS : Z.

(** A POST to the login route from a client that is not logged in never
  raises.  It opens a session exactly when the address is not rate limited,
  the form validates (user name of at least 3 and password of at least 6
  characters after [__init__]) and the two fields, trimmed once more, equal
  [ADMIN_USERNAME] and [ADMIN_PASSWORD].  The session opened is valid until
  [SESSION_LIFETIME] seconds after the login, and the failure record of the
  address is removed.  A rate-limited request is answered with status 429
  whatever was submitted, and its record is left as it is.  If
  [ADMIN_PASSWORD] has less than 6 characters, submitting that very password
  never opens a session; this is so for the default password [admin], used
  when the environment sets none. *)
Theorem login_succeeds_iff (clock : login_clock) (remote_addr : string)
    (next_page : option string) (form_data : gmap string string)
    (session : option session_data) (login_attempts : gmap string attempts) :
  (is_logged_in SESSION_LIFETIME (at_session clock) session).1 = false →
  let form := LoginForm_init (Some form_data) in
  let limited :=
    (is_rate_limited MAX_LOGIN_ATTEMPTS (at_clean clock) (at_check clock)
       remote_addr login_attempts).1 in
  ∃ eff,
    login ADMIN_USERNAME ADMIN_PASSWORD SESSION_LIFETIME MAX_LOGIN_ATTEMPTS clock
          POST remote_addr next_page form_data session login_attempts = Some eff ∧
    (logged_in <$> session_after eff = Some true ↔
     limited = false ∧
     3 ≤ Py.len (username form) ∧ 6 ≤ Py.len (password form) ∧
     Py.strip (username form) = ADMIN_USERNAME ∧
     Py.strip (password form) = ADMIN_PASSWORD) ∧
    (logged_in <$> session_after eff = Some true →
     session_after eff
     = Some {| logged_in := true; login_time := Some (at_login clock);
               ip_address := remote_addr; session_username := ADMIN_USERNAME |} ∧
     attempts_table eff !! remote_addr = None ∧
     ∀ now, (is_logged_in SESSION_LIFETIME now (session_after eff)).1 = true
            ↔ now - at_login clock ≤ seconds SESSION_LIFETIME) ∧
    (limited = true →
     sent eff = RenderLogin form 429 ∧
     ∃ a, login_attempts !! remote_addr = Some a ∧
          attempts_table eff !! remote_addr = Some a) ∧
    (Py.strip (get_str form_data "password") = ADMIN_PASSWORD →
     Py.len ADMIN_PASSWORD < 6 →
     logged_in <$> session_after eff ≠ Some true) ∧
    (∀ value, value = None ∨ value = Some EmptyString →
       ADMIN_PASSWORD = admin_setting value "admin" →
       Py.strip (get_str form_data "password") = "admin" →
       logged_in <$> session_after eff ≠ Some true).
Proof.
  intros Hnot form limited.
  assert (∃ eff,
    login ADMIN_USERNAME ADMIN_PASSWORD SESSION_LIFETIME MAX_LOGIN_ATTEMPTS clock
          POST remote_addr next_page form_data session login_attempts = Some eff ∧
    (logged_in <$> session_after eff = Some true ↔
     limited = false ∧
     3 ≤ Py.len (username form) ∧ 6 ≤ Py.len (password form) ∧
     Py.strip (username form) = ADMIN_USERNAME ∧
     Py.strip (password form) = ADMIN_PASSWORD) ∧
    (logged_in <$> session_after eff = Some true →
     session_after eff
     = Some {| logged_in := true; login_time := Some (at_login clock);
               ip_address := remote_addr; session_username := ADMIN_USERNAME |} ∧
     attempts_table eff !! remote_addr = None ∧
     ∀ now, (is_logged_in SESSION_LIFETIME now (session_after eff)).1 = true
            ↔ now - at_login clock ≤ seconds SESSION_LIFETIME) ∧
    (limited = true →
     sent eff = RenderLogin form 429 ∧
     ∃ a, login_attempts !! remote_addr = Some a ∧
          attempts_table eff !! remote_addr = Some a) ∧
    (Py.strip (get_str form_data "password") = ADMIN_PASSWORD →
     Py.len ADMIN_PASSWORD < 6 →
     logged_in <$> session_after eff ≠ Some true)) as (eff & H1 & H2 & H3 & H4 & H5).
  2: { exists eff. split_and!; try done.
       intros value Hv -> Hraw. apply H5.
       - rewrite Hraw. by destruct Hv as [-> | ->].
       - by destruct Hv as [-> | ->]. }
  destruct (not_logged_in _ _ _ Hnot) as [Hsess _].
  assert (Py.len (username form) ≤ 100) as Hu100.
  { change (username form)
      with (sanitize_input (get_str form_data "username") (Some 100)).
    rewrite sanitize_input_bound, len_take by lia. lia. }
  assert (Py.len (password form) ≤ 128) as Hp128.
  { change (password form)
      with (sanitize_input (get_str form_data "password") (Some 128)).
    rewrite sanitize_input_bound, len_take by lia. lia. }
  assert (Py.strip (get_str form_data "password") = ADMIN_PASSWORD →
          Py.len ADMIN_PASSWORD < 6 → Py.len (password form) < 6) as Hshort.
  { intros Hraw Hlen.
    change (password form)
      with (sanitize_input (get_str form_data "password") (Some 128)).
    rewrite sanitize_input_bound, len_take by lia. rewrite Hraw. lia. }
  destruct (login_validate_outcome form eq_refl) as (Hvu & Hvp & Hvok).
  unfold limited, login.
  destruct (is_logged_in SESSION_LIFETIME (at_session clock) session)
    as [already session'] eqn:Hs.
  cbn [fst snd] in Hnot, Hsess. subst already.
  fold form.
  pose proof (limited_has_record MAX_LOGIN_ATTEMPTS (at_clean clock) (at_check clock)
                remote_addr login_attempts) as Hrec.
  destruct (is_rate_limited MAX_LOGIN_ATTEMPTS (at_clean clock) (at_check clock)
              remote_addr login_attempts) as [lim table] eqn:Hl.
  cbn [fst snd] in *.
  destruct lim.
  { destruct (Hrec eq_refl) as (a & Ha & Hm). rewrite Ha.
    eexists. split; [done |]. cbn [session_after attempts_table sent].
    split; [split; [done | by intros (? & _)] |].
    split; [done |]. split; [|done].
    intros _. split; [done |]. by exists a. }
  clear Hrec.
  destruct (LoginForm_validate form) as [ok form'] eqn:Hv. cbn [fst snd] in *.
  destruct ok.
  2: { eexists. split; [done |]. cbn [session_after attempts_table sent].
       split; [split; [done |] |].
       { intros (_ & H3 & H6 & _). exfalso.
         assert (false = true); [apply Hvok; lia | done]. }
       split; [done |]. split; [done |]. by intros _ _. }
  destruct (proj1 Hvok eq_refl) as [[Hu3 _] [Hp6 _]].
  cbv zeta. rewrite Hvu, Hvp.
  destruct (bool_decide (Py.strip (username form) = ADMIN_USERNAME)) eqn:Hum;
    [apply bool_decide_eq_true in Hum | apply bool_decide_eq_false in Hum];
    cbn [andb].
  2: { eexists. split; [done |]. cbn [session_after attempts_table sent].
       split; [split; [done | by intros (_ & _ & _ & ? & _)] |].
       split; [done |]. split; [done |]. by intros _ _. }
  destruct (bool_decide (Py.strip (password form) = ADMIN_PASSWORD)) eqn:Hpm;
    [apply bool_decide_eq_true in Hpm | apply bool_decide_eq_false in Hpm].
  2: { eexists. split; [done |]. cbn [session_after attempts_table sent].
       split; [split; [done | by intros (_ & _ & _ & _ & ?)] |].
       split; [done |]. split; [done |]. by intros _ _. }
  eexists. split; [done |]. cbn [session_after attempts_table sent].
  split; [split; [done | done] |].
  split; [|split; [done |]].
  - intros _. rewrite Hum. split; [done |].
    split; [apply lookup_delete_eq |].
    intros now. unfold is_logged_in. cbn [logged_in login_time negb].
    destruct (Z.ltb_spec (seconds SESSION_LIFETIME) (now - at_login clock));
      cbn [fst]; split; (done || lia).
  - intros Hraw Hlen. specialize (Hshort Hraw Hlen). lia.
Qed.

(** A GET to the login route from a client that is not logged in removes the
  failure record of its address and touches no other record; the POST that
  follows it is therefore never answered with status 429, however many
  failures were on record before: the limit is reset by reloading the
  page. *)
Theorem login_get_resets_limit (clock clock' : login_clock) (remote_addr : string)
    (next_page next_page' : option string) (form_data form_data' : gmap string string)
    (session : option session_data) (login_attempts : gmap string attempts) :
  (is_logged_in SESSION_LIFETIME (at_session clock) session).1 = false →
  ∃ eff,
    login ADMIN_USERNAME ADMIN_PASSWORD SESSION_LIFETIME MAX_LOGIN_ATTEMPTS clock
          GET remote_addr next_page form_data session login_attempts = Some eff ∧
    attempts_table eff !! remote_addr = None ∧
    (∀ ip, ip ≠ remote_addr → attempts_table eff !! ip = login_attempts !! ip) ∧
    ∃ eff',
      login ADMIN_USERNAME ADMIN_PASSWORD SESSION_LIFETIME MAX_LOGIN_ATTEMPTS clock'
            POST remote_addr next_page' form_data' (session_after eff)
            (attempts_table eff) = Some eff' ∧
      ∀ form, sent eff' ≠ RenderLogin form 429.
Proof.
  intros Hnot.
  destruct (not_logged_in _ _ _ Hnot) as [_ Hlater].
  unfold login at 1.
  destruct (is_logged_in SESSION_LIFETIME (at_session clock) session)
    as [already session'] eqn:Hs.
  cbn [fst snd] in Hnot, Hlater. subst already.
  eexists. split; [done |]. cbn [session_after attempts_table].
  split; [apply lookup_delete_eq |].
  split; [intros ip Hne; by apply lookup_delete_ne |].
  unfold login. specialize (Hlater (at_session clock')).
  destruct (is_logged_in SESSION_LIFETIME (at_session clock') session')
    as [already session''].
  cbn [fst] in Hlater. subst already.
  pose proof (not_limited_without_record MAX_LOGIN_ATTEMPTS (at_clean clock')
                (at_check clock') remote_addr
                (clear_failed_attempts remote_addr login_attempts)
                (lookup_delete_eq _ _)) as Hfree.
  destruct (is_rate_limited _ _ _ _ _) as [lim table]. cbn [fst] in Hfree. subst lim.
  destruct (LoginForm_validate _) as [ok form']. cbv zeta.
  destruct ok; [|eexists; split; [done | intros f; cbn [sent]; discriminate]].
  destruct (_ && _); (eexists; split; [done |]); intros f; cbn [sent];
    [by destruct next_page' as [p|]; [destruct (_ && _) |] | discriminate].
Qed.

End LoginRoute.

Section LoginRouteDemo.

Import Forms App.

Lemma login_succeeds_iff_witness :
  ∃ eff,
    login "admin" "admin" 3600 5
      {| at_session := 0; at_clean := 0; at_check := 0; at_remaining := 0;
         at_login := 0; at_failure := 0 |}
      POST "10.0.0.7" None {[ "username" := "admin"; "password" := "admin" ]} None ∅
    = Some eff ∧
    logged_in <$> session_after eff ≠ Some true.
Proof.
  destruct (login_succeeds_iff "admin" "admin" 3600 5
              {| at_session := 0; at_clean := 0; at_check := 0; at_remaining := 0;
                 at_login := 0; at_failure := 0 |}
              "10.0.0.7" None {[ "username" := "admin"; "password" := "admin" ]} None ∅)
    as (eff & Heff & _ & _ & _ & Hshort & _); [done |].
  exists eff. split; [exact Heff |].
  apply Hshort; [vm_compute; reflexivity | vm_compute; reflexivity].
Defined.

Lemma login_get_resets_limit_witness :
  ∃ eff,
    login "admin" "secret-pass" 3600 5
      {| at_session := 0; at_clean := 0; at_check := 0; at_remaining := 0;
         at_login := 0; at_failure := 0 |}
      GET "10.0.0.7" None ∅ None
      {[ "10.0.0.7" := {| count := 9; first_attempt := 0 |} ]} = Some eff ∧
    attempts_table eff !! "10.0.0.7" = None.
Proof.
  destruct (login_get_resets_limit "admin" "secret-pass" 3600 5
              {| at_session := 0; at_clean := 0; at_check := 0; at_remaining := 0;
                 at_login := 0; at_failure := 0 |}
              {| at_session := 0; at_clean := 0; at_check := 0; at_remaining := 0;
                 at_login := 0; at_failure := 0 |}
              "10.0.0.7" None None ∅ ∅ None
              {[ "10.0.0.7" := {| count := 9; first_attempt := 0 |} ]})
    as (eff & Heff & Hnone & _); [done |].
  by exists eff.
Defined.

End LoginRouteDemo.

(** ** validate_recipients, again *)

Section ValidateRecipientsAgain.

Import Mailer.

Lemma validate_recipients_closed (addresses : list string) :
  validate_recipients addresses
  = (Py.strip <$> filter (λ a, Py.has_char "@" a = true) addresses,
     skipped <$> filter (λ a, Py.has_char "@" a ≠ true) addresses).
Proof. unfold validate_recipients. by rewrite validate_recipients_fold. Qed.

(** [validate_recipients] accounts for every address: each one is either
  returned or reported in a warning.  Every address returned is trimmed and
  holds an [@], so that validating the result again returns it unchanged
  and logs nothing; and validating a list in two parts gives the same
  addresses and warnings as validating it at once. *)
Theorem validate_recipients_again (addresses : list string) :
  let r := validate_recipients addresses in
  (length r.1 + length r.2 = length addresses)%nat ∧
  Forall (λ a, Py.strip a = a ∧ Py.contains "@" a = true) r.1 ∧
  validate_recipients r.1 = (r.1, []) ∧
  (∀ l1 l2, addresses = l1 ++ l2 →
     r = ((validate_recipients l1).1 ++ (validate_recipients l2).1,
          (validate_recipients l1).2 ++ (validate_recipients l2).2)).
Proof.
  intros r. unfold r. rewrite validate_recipients_closed. cbn [fst snd].
  assert (Forall (λ a, Py.strip a = a ∧ Py.has_char "@" a = true)
            (Py.strip <$> filter (λ a, Py.has_char "@" a = true) addresses)) as Hall.
  { apply Forall_fmap, Forall_forall. intros a [Ha _]%list_elem_of_filter.
    cbn. split; [apply strip_idem | by rewrite has_char_strip]. }
  split; [|split; [|split]].
  - rewrite !length_fmap. clear Hall r.
    induction addresses as [|a l IH]; [done |].
    rewrite !filter_cons.
    destruct (Py.has_char "@" a) eqn:Ha.
    + rewrite decide_True, decide_False by congruence.
      rewrite !length_cons. lia.
    + rewrite decide_False, decide_True by congruence.
      rewrite !length_cons. lia.
  - eapply Forall_impl; [exact Hall |]. intros a [? ?].
    split; [done |]. by rewrite contains_char.
  - rewrite validate_recipients_closed.
    set (valid := Py.strip <$> filter (λ a, Py.has_char "@" a = true) addresses) in *.
    clearbody valid. induction Hall as [|a l [Hs Ha] _ IH]; [done |].
    rewrite !filter_cons, decide_True, decide_False by congruence.
    injection IH as IH1 IH2. csimpl. by rewrite Hs, IH1, IH2.
  - intros l1 l2 ->. rewrite !validate_recipients_closed. cbn [fst snd].
    by rewrite !filter_app, !fmap_app.
Qed.

End ValidateRecipientsAgain.

(** ** The statistics of a broadcast form *)

Section BroadcastStatistics.

Import Forms.

Lemma split_ws_bound (s : string) :
  (2 * length (Py.split_ws s) ≤ String.length s + 1)%nat ∧
  (∀ c r, s = String c r → Py.isspace c = true →
     (2 * length (Py.split_ws s) ≤ String.length s)%nat) ∧
  (∀ c r, s = String c r → Py.isspace c = false → Py.split_ws s ≠ []) ∧
  Forall (λ w, w ≠ EmptyString ∧ Py.all_chars (λ c, negb (Py.isspace c)) w = true)
         (Py.split_ws s).
Proof.
  induction s as [|c s (IH1 & IH2 & IH3 & IH4)].
  - cbn. split; [lia |]. split; [done |]. split; [done | constructor].
  - cbn [Py.split_ws String.length]. cbv zeta.
    destruct (Py.isspace c) eqn:Hc.
    + split; [lia |]. split; [intros; lia |]. split; [|done].
      intros ? ? [= <- <-] ?. congruence.
    + destruct s as [|c' s'].
      * cbn. split; [lia |]. split; [intros ? ? [= <- <-]; congruence |].
        split; [done |]. constructor; [|constructor].
        split; [done |]. cbn. by rewrite Hc.
      * destruct (Py.isspace c') eqn:Hc'.
        -- specialize (IH2 c' s' eq_refl Hc'). cbn [length String.length] in *.
           split; [lia |]. split; [intros ? ? [= <- <-]; congruence |].
           split; [done |]. constructor; [|done].
           split; [done |]. cbn. by rewrite Hc.
        -- specialize (IH3 c' s' eq_refl Hc').
           destruct (Py.split_ws (String c' s')) as [|h t]; [done |].
           cbn [length String.length] in *.
           split; [lia |]. split; [intros ? ? [= <- <-]; congruence |].
           split; [done |]. apply Forall_cons in IH4 as [[Hh1 Hh2] Ht].
           constructor; [|done]. split; [done |].
           cbn [Py.all_chars]. by rewrite Hc, Hh2.
Qed.

(** The statistics of a form built by [__init__] are consistent: the lengths
  are within the limits of [__init__]; the words counted are non-empty runs
  without whitespace, so that a body of [n] characters has at most
  [(n + 1) / 2] words, and it has no word exactly when it is empty; a body
  said to hold HTML has at least 2 characters, one said to hold links at
  least 7. *)
Theorem broadcast_statistics_consistent (formdata : option (gmap string string)) :
  let form := BroadcastForm_init formdata in
  let stats := BroadcastForm_get_statistics form in
  0 ≤ subject_length stats ≤ 200 ∧
  0 ≤ body_length stats ≤ 50000 ∧
  body_length stats = get_character_count form ∧
  0 ≤ 2 * word_count stats ≤ body_length stats + 1 ∧
  (word_count stats = 0 ↔ body form = EmptyString) ∧
  Forall (λ w, w ≠ EmptyString ∧ Py.all_chars (λ c, negb (Py.isspace c)) w = true)
         (Py.split_ws (body form)) ∧
  (has_html stats = true → 2 ≤ body_length stats) ∧
  (has_links stats = true → 7 ≤ body_length stats).
Proof.
  intros form stats.
  assert (Py.len (subject form) ≤ 200) as Hs200.
  { change (subject form)
      with (sanitize_input (get_str (default ∅ formdata) "subject") (Some 200)).
    rewrite sanitize_input_bound, len_take by lia. lia. }
  assert (Py.len (body form) ≤ 50000) as Hb5.
  { change (body form)
      with (sanitize_input (get_str (default ∅ formdata) "body") (Some 50000)).
    rewrite sanitize_input_bound, len_take by lia. lia. }
  assert (∀ c r, body form = String c r → Py.isspace c = false) as Hhead.
  { intros c r. apply sanitize_input_head. }
  unfold stats, BroadcastForm_get_statistics, get_word_count, get_character_count.
  cbn [subject_length body_length word_count has_html has_links].
  clearbody form.
  destruct (split_ws_bound (body form)) as (B1 & _ & B3 & B4).
  assert (∀ needle s, Py.contains needle s = true →
            Py.len needle ≤ Py.len s) as Hcontains.
  { intros needle s. unfold Py.len. induction s as [|c s IH]; cbn [Py.contains].
    - rewrite orb_false_r. destruct needle; [done | discriminate].
    - intros [Hp|Hin]%orb_true_iff.
      + clear IH. revert Hp. generalize (String c s). clear.
        induction needle as [|d needle IH]; intros [|c s]; cbn; try lia; try done.
        destruct (Ascii.ascii_dec d c); [|done]. intros Hp. specialize (IH _ Hp). lia.
      + specialize (IH Hin). cbn [String.length]. lia. }
  unfold Py.len in *.
  split; [lia |]. split; [lia |]. split; [done |]. split; [lia |].
  split; [|split; [done |split]].
  - split.
    + intros H0. destruct (body form) as [|c r] eqn:E; [done | exfalso].
      apply (B3 c r eq_refl (Hhead c r eq_refl)).
      destruct (Py.split_ws (String c r)); [done | cbn [length] in H0; lia].
    + by intros ->.
  - intros [H1 H2]%andb_true_iff.
    destruct (body form) as [|c [|c' r]]; [done | | cbn [String.length]; lia].
    exfalso. rewrite contains_char in H1, H2. cbn [Py.has_char] in H1, H2.
    rewrite orb_false_r in H1, H2.
    apply bool_decide_eq_true in H1, H2. congruence.
  - intros [H|H]%orb_true_iff; apply Hcontains in H; cbn in H; lia.
Qed.

End BroadcastStatistics.

(** ** The statistics of a recipient form *)

Section RecipientStatistics.

Import Forms.

Lemma bump_spec (domain : string) (l : list (string * Z)) :
  NoDup (fst <$> l) → Forall (λ x, 1 ≤ x.2) l →
  NoDup (fst <$> bump domain l) ∧
  Forall (λ x, 1 ≤ x.2) (bump domain l) ∧
  count_sum (bump domain l) = count_sum l + 1 ∧
  (length l ≤ length (bump domain l) ≤ length l + 1)%nat ∧
  (∀ d, d ∈ fst <$> bump domain l ↔ d = domain ∨ d ∈ fst <$> l).
Proof.
  unfold count_sum.
  induction l as [|[d n] l IH]; intros Hnd Hpos.
  - cbn. split_and!; try done; try lia.
    + apply NoDup_singleton.
    + by repeat constructor.
    + intros d. csimpl. rewrite list_elem_of_singleton, elem_of_nil. tauto.
  - cbn [bump]. apply NoDup_cons in Hnd as [Hd Hnd].
    apply Forall_cons in Hpos as [Hn Hpos]. cbn in Hd, Hn.
    case_bool_decide as Heq.
    + subst d. csimpl. split_and!; try lia.
      * by apply NoDup_cons.
      * constructor; [cbn; lia | done].
      * intros d. rewrite elem_of_cons. cbn. intuition congruence.
    + destruct (IH Hnd Hpos) as (I1 & I2 & I3 & I4 & I5). csimpl.
      split_and!; try lia.
      * apply NoDup_cons. split; [|done]. rewrite I5. cbn. intuition congruence.
      * by constructor.
      * intros d'. rewrite !elem_of_cons, I5. cbn. tauto.
Qed.

Lemma domain_loop (l : list string) :
  Forall (λ a, ∃ local domain, Py.split "@" a = [local; domain]) l →
  ∀ acc, NoDup (fst <$> acc) → Forall (λ x, 1 ≤ x.2) acc →
    ∃ domains,
      Py.for_each domain_step acc l = Py.Ok domains ∧
      NoDup (fst <$> domains) ∧ Forall (λ x, 1 ≤ x.2) domains ∧
      count_sum domains = count_sum acc + Z.of_nat (length l) ∧
      (length domains ≤ length acc + length l)%nat.
Proof.
  induction 1 as [|a l (local & domain & Ha) _ IH]; intros acc Hnd Hpos.
  - exists acc. cbn. split_and!; try done; lia.
  - cbn [Py.for_each]. unfold domain_step at 1. rewrite Ha. cbn [Py.index lookup].
    cbn [Py.bind].
    change (Py.index [local; domain] 1) with (Py.Ok domain : Py.result string).
    cbn [Py.bind].
    destruct (bump_spec domain acc Hnd Hpos) as (B1 & B2 & B3 & B4 & _).
    destruct (IH _ B1 B2) as (domains & -> & D1 & D2 & D3 & D4).
    exists domains. split_and!; try done.
    + rewrite D3, B3. cbn [length]. lia.
    + cbn [length]. lia.
Qed.

Lemma insert_desc_spec (x : string * Z) (l : list (string * Z)) :
  StronglySorted (λ a b, b.2 ≤ a.2) l →
  StronglySorted (λ a b, b.2 ≤ a.2) (insert_desc x l) ∧ insert_desc x l ≡ₚ x :: l.
Proof.
  induction 1 as [|y l Hs IH Hy]; cbn [insert_desc].
  - split; [by repeat constructor | done].
  - destruct IH as [IH1 IH2].
    destruct (Z.leb_spec y.2 x.2).
    + split; [|done]. constructor; [by constructor |].
      constructor; [done |]. eapply Forall_impl; [exact Hy |]. cbn. lia.
    + split.
      * constructor; [done |]. rewrite IH2. constructor; [lia | done].
      * rewrite IH2. apply perm_swap.
Qed.

Lemma sorted_desc_spec (l : list (string * Z)) :
  StronglySorted (λ a b, b.2 ≤ a.2) (sorted_desc l) ∧ sorted_desc l ≡ₚ l.
Proof.
  unfold sorted_desc. induction l as [|x l [IH1 IH2]]; cbn [foldr].
  - split; [constructor | done].
  - destruct (insert_desc_spec x _ IH1) as [H1 H2].
    split; [done |]. by rewrite H2, IH2.
Qed.

Lemma count_sum_perm (l l' : list (string * Z)) :
  l ≡ₚ l' → count_sum l = count_sum l'.
Proof.
  unfold count_sum. induction 1; csimpl; lia.
Qed.

Lemma count_sum_take (n : nat) (l : list (string * Z)) :
  Forall (λ x, 1 ≤ x.2) l → count_sum (take n l) ≤ count_sum l.
Proof.
  unfold count_sum. intros H. revert n.
  induction H as [|x l Hx Hl IH]; intros [|n]; csimpl; try lia.
  - clear IH. induction Hl; csimpl; lia.
  - specialize (IH n). lia.
Qed.

Lemma strongly_sorted_take {A} (R : A → A → Prop) (n : nat) (l : list A) :
  StronglySorted R l → StronglySorted R (take n l).
Proof.
  intros H. revert n. induction H as [|x l Hs IH Hx]; intros [|n]; cbn;
    try constructor; [apply IH | by apply Forall_take].
Qed.

(** [get_statistics] never raises: every valid address has a domain part.
  The numbers are consistent: valid and invalid add up to the total and
  neither is negative; there are at most as many domains as valid addresses;
  [top_domains] lists at most 5 domains, each once, with counts of at least
  1 in descending order, and the counts add up to at most the number of
  valid addresses, and to exactly that number when there are at most 5
  domains. *)
Theorem recipient_statistics_consistent (self : RecipientForm) :
  ∃ stats,
    RecipientForm_get_statistics self = Py.Ok stats ∧
    total stats = Z.of_nat (length (flatten_addresses self)) ∧
    valid stats + invalid stats = total stats ∧
    0 ≤ valid stats ∧ 0 ≤ invalid stats ∧
    0 ≤ unique_domains stats ≤ valid stats ∧
    (unique_domains stats = 0 ↔ valid stats = 0) ∧
    Z.of_nat (length (top_domains stats)) = Z.min 5 (unique_domains stats) ∧
    NoDup (fst <$> top_domains stats) ∧
    StronglySorted (λ a b, b.2 ≤ a.2) (top_domains stats) ∧
    Forall (λ x, 1 ≤ x.2) (top_domains stats) ∧
    count_sum (top_domains stats) ≤ valid stats ∧
    (unique_domains stats ≤ 5 → count_sum (top_domains stats) = valid stats).
Proof.
  unfold RecipientForm_get_statistics, get_valid_addresses. cbv zeta.
  rewrite valid_loop. cbn [Py.bind app].
  set (cleaned := flatten_addresses self).
  set (ok := filter (λ a, accepts_email self a = true) cleaned).
  assert (length ok ≤ length cleaned)%nat as Hle by apply length_filter.
  assert (Forall (λ a, ∃ local domain, Py.split "@" a = [local; domain]) ok) as Hsplit.
  { apply Forall_forall. intros a [Ha _]%list_elem_of_filter.
    destruct (accepts_email_inv self a Ha) as (_ & Hre & _).
    by apply email_re_split. }
  destruct (domain_loop ok Hsplit [] ltac:(constructor) ltac:(constructor))
    as (domains & -> & D1 & D2 & D3 & D4).
  cbn [Py.bind]. eexists. split; [done |].
  cbn [total valid invalid unique_domains top_domains].
  change (count_sum []) with 0 in D3. cbn [length] in D4.
  destruct (sorted_desc_spec domains) as [Hsorted Hperm].
  assert (Z.of_nat (length domains) ≤ count_sum domains) as Hlen.
  { clear -D2. unfold count_sum. induction D2 as [|x l Hx _ IH]; csimpl; lia. }
  assert (Forall (λ x, 1 ≤ x.2) (sorted_desc domains)) as Hpos by (by rewrite Hperm).
  split_and!; try done; try lia.
  - split; [|lia]. intros H0. destruct domains; [|cbn [length] in *; lia].
    change (count_sum []) with 0 in D3. lia.
  - rewrite length_take, (Permutation_length Hperm). lia.
  - assert (NoDup (fst <$> sorted_desc domains)) as Hnd by (by rewrite Hperm).
    rewrite <- (take_drop 5 (sorted_desc domains)), fmap_app in Hnd.
    by apply NoDup_app in Hnd as [Hnd _].
  - by apply strongly_sorted_take.
  - by apply Forall_take.
  - pose proof (count_sum_take 5 _ Hpos) as Ht.
    rewrite (count_sum_perm _ _ Hperm) in Ht. lia.
  - intros H5. rewrite take_ge by (rewrite (Permutation_length Hperm); lia).
    rewrite (count_sum_perm _ _ Hperm). lia.
Qed.

End RecipientStatistics.

(** ** The recipient list over a sequence of requests *)

Section RecipientStore.

Import Forms App.

Lemma delete_sublist {A} (i : nat) (l : list A) :
  take i l ++ drop (S i) l `sublist_of` l.
Proof.
  rewrite <- (take_drop i l) at 3. apply sublist_app; [done |].
  replace (S i) with (i + 1)%nat by lia. rewrite <- drop_drop. apply sublist_drop.
Qed.

Lemma store_ok_sublist (l l' : list string) :
  l' `sublist_of` l → store_ok l → store_ok l'.
Proof.
  intros Hsub [Hall Hnd]. split.
  - rewrite Forall_forall in *. intros a Ha. apply Hall.
    by eapply elem_of_sublist.
  - apply (sublist_NoDup _ (merge_key <$> l)); [done | by apply fmap_sublist].
Qed.

Lemma delete_recipient_emails (persist : list string → bool * list Mailer.log_record)
    (index : Z) (RECEIVER_EMAILS : list string) :
  ∃ eff, delete_recipient persist index RECEIVER_EMAILS = Py.Ok eff ∧
         emails eff `sublist_of` RECEIVER_EMAILS.
Proof.
  unfold delete_recipient.
  destruct ((0 <=? index) && (index <? Z.of_nat (length RECEIVER_EMAILS))) eqn:Hin.
  2: { by eexists. }
  apply andb_true_iff in Hin as [H0 H1].
  assert (Z.to_nat index < length RECEIVER_EMAILS)%nat as Hlt by lia.
  destruct (lookup_lt_is_Some_2 _ _ Hlt) as [removed Hi].
  unfold Py.pop. rewrite Hi. cbn [Py.bind].
  destruct (persist _) as [[] records]; (eexists; split; [done |]); cbn [emails].
  - apply delete_sublist.
  - by rewrite pop_insert_at.
Qed.

Lemma handle_store_ok (RECEIVER_EMAILS : list string)
    (req : (list string → bool * list Mailer.log_record) * request) :
  store_ok RECEIVER_EMAILS →
  ∃ after, handle RECEIVER_EMAILS req = Py.Ok after ∧ store_ok after.
Proof.
  intros Hok. destruct req as [persist [form_data|index|]]; unfold handle; cbn [fst snd].
  - destruct (recipients_post_appends persist RECEIVER_EMAILS form_data)
      as (eff & new & -> & Hemails & Hnd & Hnew & _).
    cbn [Py.bind]. eexists. split; [done |]. rewrite Hemails.
    destruct Hok as [Hall Hkeys]. split.
    + apply Forall_app. split; [done |].
      eapply Forall_impl; [exact Hnew |]. by intros a (? & _ & ? & _).
    + rewrite fmap_app. apply NoDup_app. split; [done |]. split; [|done].
      intros k Hk (a & -> & Ha)%list_elem_of_fmap.
      rewrite Forall_forall in Hnew. by destruct (Hnew a Ha) as (_ & _ & _ & _ & Hfresh).
  - destruct (delete_recipient_emails persist index RECEIVER_EMAILS) as (eff & -> & Hsub).
    cbn [Py.bind]. eexists. split; [done |]. by eapply store_ok_sublist.
  - eexists. split; [done |]. unfold clear_recipients.
    destruct (persist []) as [[] records]; cbn [emails]; split; constructor.
Qed.

(** However the recipient list is edited through the recipients page, by
  adding, deleting and clearing in any order and whether or not the changes
  can be persisted, no request raises and the list keeps its shape: every
  entry matches [EMAIL_RE] and holds no double quote, backslash or line
  boundary, and no two entries have the same key.  The list the
  application starts with has this shape. *)
Theorem recipient_store_invariant
    (reqs : list ((list string → bool * list Mailer.log_record) * request))
    (RECEIVER_EMAILS : list string) :
  store_ok RECEIVER_EMAILS →
  store_ok RecipientList_demo ∧
  ∃ after, serve reqs RECEIVER_EMAILS = Py.Ok after ∧ store_ok after.
Proof.
  intros Hok. split.
  { split; [by repeat constructor |]. apply (bool_decide_unpack _). by vm_compute. }
  unfold serve. revert RECEIVER_EMAILS Hok.
  induction reqs as [|req reqs IH]; intros RECEIVER_EMAILS Hok; cbn [Py.for_each].
  - by exists RECEIVER_EMAILS.
  - destruct (handle_store_ok RECEIVER_EMAILS req Hok) as (after & -> & Hafter).
    cbn [Py.bind]. by apply IH.
Qed.

Lemma recipient_store_invariant_witness :
  ∃ after,
    serve [(λ _, (true, []), AddRecipients {[ "addresses" := "New@Example.org; x@y.io" ]});
           (λ _, (false, []), DeleteRecipient 0);
           (λ _, (true, []), DeleteRecipient 1)]
          RecipientList_demo = Py.Ok after ∧
    store_ok after.
Proof.
  apply recipient_store_invariant.
  split; [by repeat constructor |]. apply (bool_decide_unpack _). by vm_compute.
Defined.

End RecipientStore.
